(** * CamFlow: IFC control plane and provenance hooks

    A shallow embedding of [security/ifc/fs.c] and
    [security/provenance/hooks.c].  Kernel objects live in finite maps
    keyed by their address; a C pointer is an [option nat] ([None] is
    [NULL]).  Every entry point is a computation in a state monad with one
    failure, [Oops], which stands for the dereference of a [NULL] or
    dangling pointer.  The build modelled is the one with
    [CONFIG_SECURITY_IFC] set. *)

From Stdlib Require Import ZArith Bool List Lia.
From stdpp Require Import gmap strings.

Open Scope Z_scope.

(** ** errno values and the error taxonomy *)

Module Errno.
Definition EPERM : Z := 1.
Definition ENOENT : Z := 2.
Definition ESRCH : Z := 3.
Definition EAGAIN : Z := 11.
Definition ENOMEM : Z := 12.
Definition EINVAL : Z := 22.

Inductive error_kind :=
| InvalidArgument | PermissionDenied | NotFound
| ResourceExhausted | TransientIO.

(** The taxonomy a negative return value falls in. *)
Definition classify (rv : Z) : option error_kind :=
  if rv =? - EINVAL then Some InvalidArgument
  else if rv =? - EPERM then Some PermissionDenied
  else if (rv =? - ENOENT) || (rv =? - ESRCH) then Some NotFound
  else if rv =? - ENOMEM then Some ResourceExhausted
  else if rv =? - EAGAIN then Some TransientIO
  else None.
End Errno.
Export Errno.

(** ** IFC data ([linux/ifc.h]) *)

Definition tag_t := Z.

Inductive ifc_kind :=
| IFC_SECRECY | IFC_INTEGRITY
| IFC_SECRECY_P | IFC_INTEGRITY_P
| IFC_SECRECY_N | IFC_INTEGRITY_N
| IFC_KIND_OTHER.                 (* any other value of the [tag_type] byte *)

Inductive ifc_op := IFC_ADD_TAG | IFC_REMOVE_TAG | IFC_OP_OTHER.

Record ifc_context := {
  secrecy : list tag_t;
  integrity : list tag_t;
  secrecy_p : list tag_t;
  integrity_p : list tag_t;
  secrecy_n : list tag_t;
  integrity_n : list tag_t;
}.

Definition empty_context : ifc_context :=
  {| secrecy := []; integrity := []; secrecy_p := []; integrity_p := [];
     secrecy_n := []; integrity_n := [] |}.

(** [struct ifc_tag_msg], the request written to the [self] and
    [process] files. *)
Record ifc_tag_msg := {
  tag : tag_t;
  tag_type : ifc_kind;
  op : ifc_op;
  pid : Z;
}.

(** ** Provenance data ([linux/provenance.h]) *)

Inductive msg_kind :=
| MSG_TASK | MSG_INODE | MSG_MSG | MSG_SHM | MSG_SOCK | MSG_SB.

Inductive long_kind := MSG_FILE_NAME | MSG_ADDR.

Inductive edge_type :=
| ED_FORK | ED_CHANGE | ED_CREATE | ED_WRITE | ED_READ | ED_EXEC
| ED_OPEN | ED_MMAP | ED_ATTACH | ED_BIND | ED_CONNECT | ED_LISTEN
| ED_ASSOCIATE | ED_ACCEPT | ED_NAMED | ED_UNKNOWN.

Definition FLOW_ALLOWED : bool := true.

(** [prov_msg_t].  The C type is a union whose members share the node
    header; the members the hooks write are kept side by side. *)
Record prov_msg_t := {
  msg_type : msg_kind;
  node_id : Z;
  version : Z;
  tracked : bool;
  opaque : bool;
  name_recorded : bool;
  ifc_snapshot : option ifc_context;
  info_uid : Z;
  info_gid : Z;
  info_mode : Z;
  info_type : Z;
  info_family : Z;
  info_protocol : Z;
  info_uuid : list Z;
}.

(** What reaches the log sink. *)
Inductive prov_record :=
| EdgeRecord (ty : edge_type) (snd_id rcv_id : Z) (allowed : bool)
| LongRecord (k : long_kind) (payload : list Z)
| LongEdgeRecord (ty : edge_type) (snd_id : Z) (k : long_kind) (allowed : bool).

(** ** Host objects *)

Record cred := {
  euid : Z;
  egid : Z;
  cred_provenance : option nat;
  cred_ifc : option ifc_context;
}.

Record inode := {
  i_ino : Z;
  i_uid : Z;
  i_gid : Z;
  i_mode : Z;
  i_private : bool;
  i_sb : nat;
  i_provenance : option nat;
  i_ifc : option ifc_context;
}.

Record file := { f_inode : nat; f_path : list Z }.

Record msg_msg := {
  m_type : Z;
  msg_ifc : option ifc_context;
  msg_provenance : option nat;
}.

Record shmid_kernel := {
  shm_mode : Z;
  shm_ifc : option ifc_context;
  shm_provenance : option nat;
}.

Record sock := { sk_provenance : option nat }.

Record socket := { sock_sk : nat; sock_inode : nat }.

Record super_block := { s_uuid : list Z; s_provenance : option nat }.

(** ** Kernel state *)

Record kstate := {
  (* the provenance module *)
  prov_heap : gmap nat prov_msg_t;    (* live objects of [provenance_cache] *)
  next_addr : nat;
  slab_avail : nat;                   (* allocations that will still succeed *)
  next_node_id : Z;
  relay_up : bool;
  relay : list prov_record;           (* records the sink accepted, oldest first *)
  released : list (option nat);       (* arguments of [free_provenance], newest first *)
  (* the IFC module *)
  next_tag : Z;
  (* the host *)
  current_cred : nat;
  creds : gmap nat cred;
  tasks : gmap Z nat;                 (* pid to the task's credential *)
  inodes : gmap nat inode;
  msgs : gmap nat msg_msg;
  shms : gmap nat shmid_kernel;
  socks : gmap nat sock;
  sbs : gmap nat super_block;
}.

Definition set_prov_heap (h : gmap nat prov_msg_t) (st : kstate) : kstate :=
  {| prov_heap := h; next_addr := next_addr st; slab_avail := slab_avail st;
     next_node_id := next_node_id st; relay_up := relay_up st; relay := relay st;
     released := released st; next_tag := next_tag st;
     current_cred := current_cred st; creds := creds st; tasks := tasks st;
     inodes := inodes st; msgs := msgs st; shms := shms st; socks := socks st;
     sbs := sbs st |}.

Definition set_next_addr (a : nat) (st : kstate) : kstate :=
  {| prov_heap := prov_heap st; next_addr := a; slab_avail := slab_avail st;
     next_node_id := next_node_id st; relay_up := relay_up st; relay := relay st;
     released := released st; next_tag := next_tag st;
     current_cred := current_cred st; creds := creds st; tasks := tasks st;
     inodes := inodes st; msgs := msgs st; shms := shms st; socks := socks st;
     sbs := sbs st |}.

Definition set_slab_avail (n : nat) (st : kstate) : kstate :=
  {| prov_heap := prov_heap st; next_addr := next_addr st; slab_avail := n;
     next_node_id := next_node_id st; relay_up := relay_up st; relay := relay st;
     released := released st; next_tag := next_tag st;
     current_cred := current_cred st; creds := creds st; tasks := tasks st;
     inodes := inodes st; msgs := msgs st; shms := shms st; socks := socks st;
     sbs := sbs st |}.

Definition set_next_node_id (n : Z) (st : kstate) : kstate :=
  {| prov_heap := prov_heap st; next_addr := next_addr st; slab_avail := slab_avail st;
     next_node_id := n; relay_up := relay_up st; relay := relay st;
     released := released st; next_tag := next_tag st;
     current_cred := current_cred st; creds := creds st; tasks := tasks st;
     inodes := inodes st; msgs := msgs st; shms := shms st; socks := socks st;
     sbs := sbs st |}.

Definition set_relay_up (b : bool) (st : kstate) : kstate :=
  {| prov_heap := prov_heap st; next_addr := next_addr st; slab_avail := slab_avail st;
     next_node_id := next_node_id st; relay_up := b; relay := relay st;
     released := released st; next_tag := next_tag st;
     current_cred := current_cred st; creds := creds st; tasks := tasks st;
     inodes := inodes st; msgs := msgs st; shms := shms st; socks := socks st;
     sbs := sbs st |}.

Definition set_relay (r : list prov_record) (st : kstate) : kstate :=
  {| prov_heap := prov_heap st; next_addr := next_addr st; slab_avail := slab_avail st;
     next_node_id := next_node_id st; relay_up := relay_up st; relay := r;
     released := released st; next_tag := next_tag st;
     current_cred := current_cred st; creds := creds st; tasks := tasks st;
     inodes := inodes st; msgs := msgs st; shms := shms st; socks := socks st;
     sbs := sbs st |}.

Definition set_released (r : list (option nat)) (st : kstate) : kstate :=
  {| prov_heap := prov_heap st; next_addr := next_addr st; slab_avail := slab_avail st;
     next_node_id := next_node_id st; relay_up := relay_up st; relay := relay st;
     released := r; next_tag := next_tag st;
     current_cred := current_cred st; creds := creds st; tasks := tasks st;
     inodes := inodes st; msgs := msgs st; shms := shms st; socks := socks st;
     sbs := sbs st |}.

Definition set_next_tag (t : Z) (st : kstate) : kstate :=
  {| prov_heap := prov_heap st; next_addr := next_addr st; slab_avail := slab_avail st;
     next_node_id := next_node_id st; relay_up := relay_up st; relay := relay st;
     released := released st; next_tag := t;
     current_cred := current_cred st; creds := creds st; tasks := tasks st;
     inodes := inodes st; msgs := msgs st; shms := shms st; socks := socks st;
     sbs := sbs st |}.

Definition set_creds (m : gmap nat cred) (st : kstate) : kstate :=
  {| prov_heap := prov_heap st; next_addr := next_addr st; slab_avail := slab_avail st;
     next_node_id := next_node_id st; relay_up := relay_up st; relay := relay st;
     released := released st; next_tag := next_tag st;
     current_cred := current_cred st; creds := m; tasks := tasks st;
     inodes := inodes st; msgs := msgs st; shms := shms st; socks := socks st;
     sbs := sbs st |}.

Definition set_inodes (m : gmap nat inode) (st : kstate) : kstate :=
  {| prov_heap := prov_heap st; next_addr := next_addr st; slab_avail := slab_avail st;
     next_node_id := next_node_id st; relay_up := relay_up st; relay := relay st;
     released := released st; next_tag := next_tag st;
     current_cred := current_cred st; creds := creds st; tasks := tasks st;
     inodes := m; msgs := msgs st; shms := shms st; socks := socks st;
     sbs := sbs st |}.

Definition set_msgs (m : gmap nat msg_msg) (st : kstate) : kstate :=
  {| prov_heap := prov_heap st; next_addr := next_addr st; slab_avail := slab_avail st;
     next_node_id := next_node_id st; relay_up := relay_up st; relay := relay st;
     released := released st; next_tag := next_tag st;
     current_cred := current_cred st; creds := creds st; tasks := tasks st;
     inodes := inodes st; msgs := m; shms := shms st; socks := socks st;
     sbs := sbs st |}.

Definition set_shms (m : gmap nat shmid_kernel) (st : kstate) : kstate :=
  {| prov_heap := prov_heap st; next_addr := next_addr st; slab_avail := slab_avail st;
     next_node_id := next_node_id st; relay_up := relay_up st; relay := relay st;
     released := released st; next_tag := next_tag st;
     current_cred := current_cred st; creds := creds st; tasks := tasks st;
     inodes := inodes st; msgs := msgs st; shms := m; socks := socks st;
     sbs := sbs st |}.

Definition set_socks (m : gmap nat sock) (st : kstate) : kstate :=
  {| prov_heap := prov_heap st; next_addr := next_addr st; slab_avail := slab_avail st;
     next_node_id := next_node_id st; relay_up := relay_up st; relay := relay st;
     released := released st; next_tag := next_tag st;
     current_cred := current_cred st; creds := creds st; tasks := tasks st;
     inodes := inodes st; msgs := msgs st; shms := shms st; socks := m;
     sbs := sbs st |}.

Definition set_sbs (m : gmap nat super_block) (st : kstate) : kstate :=
  {| prov_heap := prov_heap st; next_addr := next_addr st; slab_avail := slab_avail st;
     next_node_id := next_node_id st; relay_up := relay_up st; relay := relay st;
     released := released st; next_tag := next_tag st;
     current_cred := current_cred st; creds := creds st; tasks := tasks st;
     inodes := inodes st; msgs := msgs st; shms := shms st; socks := socks st;
     sbs := m |}.

(** ** The monad of kernel code *)

Inductive outcome (A : Type) :=
| Done (a : A) (st : kstate)
| Oops.
Arguments Done {A} a st.
Arguments Oops {A}.

Definition M (A : Type) : Type := kstate -> outcome A.

Definition ret {A} (a : A) : M A := fun st => Done a st.

Definition bind {A B} (m : M A) (k : A -> M B) : M B :=
  fun st => match m st with
            | Done a st' => k a st'
            | Oops => Oops
            end.

Definition oops {A} : M A := fun _ => Oops.
Definition get : M kstate := fun st => Done st st.
Definition modify (f : kstate -> kstate) : M unit := fun st => Done tt (f st).

Notation "x <- m ;; k" := (bind m (fun x => k))
  (at level 100, m at level 99, right associativity).
Notation "m ;;; k" := (bind m (fun _ => k))
  (at level 100, right associativity).

(** [*p] for an object of table [tbl]. *)
Definition load {A} (tbl : kstate -> gmap nat A) (p : option nat) : M A :=
  fun st => match p with
            | Some a => match tbl st !! a with
                        | Some x => Done x st
                        | None => Oops
                        end
            | None => Oops
            end.

Definition retval {A} (o : outcome A) : option A :=
  match o with Done a _ => Some a | Oops => None end.

Definition final {A} (o : outcome A) : option kstate :=
  match o with Done _ st => Some st | Oops => None end.

Definition final_or {A} (dflt : kstate) (o : outcome A) : kstate :=
  match o with Done _ st => st | Oops => dflt end.

(** ** IFC primitives ([linux/ifc.h]) *)

(** Modelled from the spec: [ifc_tag_valid] is declared in [linux/ifc.h],
    which is not part of the sources; a tag is valid only if nonzero. *)
Definition ifc_tag_valid (t : tag_t) : bool := negb (t =? 0).

(** Modelled from the spec: [ifc_contains_value] ([linux/ifc.h]) is the
    membership test of a tag set. *)
Definition ifc_contains_value (l : list tag_t) (t : tag_t) : bool :=
  bool_decide (t ∈ l).

(** Modelled from the spec: [ifc_is_labelled] ([linux/ifc.h]) is true if
    any tag set is non-empty. *)
Definition ifc_is_labelled (c : ifc_context) : bool :=
  negb (bool_decide (secrecy c ++ integrity c ++ secrecy_p c ++ integrity_p c
                       ++ secrecy_n c ++ integrity_n c = [])).

Definition label_of (k : ifc_kind) (c : ifc_context) : option (list tag_t) :=
  match k with
  | IFC_SECRECY => Some (secrecy c)
  | IFC_INTEGRITY => Some (integrity c)
  | IFC_SECRECY_P => Some (secrecy_p c)
  | IFC_INTEGRITY_P => Some (integrity_p c)
  | IFC_SECRECY_N => Some (secrecy_n c)
  | IFC_INTEGRITY_N => Some (integrity_n c)
  | IFC_KIND_OTHER => None
  end.

Definition with_label (k : ifc_kind) (l : list tag_t) (c : ifc_context) : ifc_context :=
  match k with
  | IFC_SECRECY =>
      {| secrecy := l; integrity := integrity c; secrecy_p := secrecy_p c;
         integrity_p := integrity_p c; secrecy_n := secrecy_n c;
         integrity_n := integrity_n c |}
  | IFC_INTEGRITY =>
      {| secrecy := secrecy c; integrity := l; secrecy_p := secrecy_p c;
         integrity_p := integrity_p c; secrecy_n := secrecy_n c;
         integrity_n := integrity_n c |}
  | IFC_SECRECY_P =>
      {| secrecy := secrecy c; integrity := integrity c; secrecy_p := l;
         integrity_p := integrity_p c; secrecy_n := secrecy_n c;
         integrity_n := integrity_n c |}
  | IFC_INTEGRITY_P =>
      {| secrecy := secrecy c; integrity := integrity c; secrecy_p := secrecy_p c;
         integrity_p := l; secrecy_n := secrecy_n c;
         integrity_n := integrity_n c |}
  | IFC_SECRECY_N =>
      {| secrecy := secrecy c; integrity := integrity c; secrecy_p := secrecy_p c;
         integrity_p := integrity_p c; secrecy_n := l;
         integrity_n := integrity_n c |}
  | IFC_INTEGRITY_N =>
      {| secrecy := secrecy c; integrity := integrity c; secrecy_p := secrecy_p c;
         integrity_p := integrity_p c; secrecy_n := secrecy_n c;
         integrity_n := l |}
  | IFC_KIND_OTHER => c
  end.

Definition is_privilege_kind (k : ifc_kind) : bool :=
  match k with
  | IFC_SECRECY_P | IFC_INTEGRITY_P | IFC_SECRECY_N | IFC_INTEGRITY_N => true
  | _ => false
  end.

Definition set_cred_ifc (x : option ifc_context) (c : cred) : cred :=
  {| euid := euid c; egid := egid c; cred_provenance := cred_provenance c;
     cred_ifc := x |}.

Definition set_cred_provenance (p : option nat) (c : cred) : cred :=
  {| euid := euid c; egid := egid c; cred_provenance := p;
     cred_ifc := cred_ifc c |}.

(** A [struct ifc_context *] is the address of the credential that owns
    the context; reading through it. *)
Definition deref_ctx (p : option nat) : M ifc_context :=
  c <- load creds p ;;
  match cred_ifc c with
  | Some x => ret x
  | None => oops
  end.

Definition store_ctx (p : nat) (x : ifc_context) : M unit :=
  modify (fun st => set_creds (alter (set_cred_ifc (Some x)) p (creds st)) st).

(** The state in which credential [q] holds context [x]. *)
Definition with_ctx (q : nat) (x : ifc_context) (st : kstate) : kstate :=
  set_creds (alter (set_cred_ifc (Some x)) q (creds st)) st.

Section IFC.

(** Constants of headers that are not part of the sources: the capacity of
    a tag set and the sizes of the two user-visible structures. *)
Variable IFC_LABEL_MAX_SIZE : nat.
Variable sizeof_tag_t : Z.
Variable sizeof_ifc_tag_msg : Z.

(** Modelled from the spec: insertion in a tag set ([linux/ifc.h], not part
    of the sources): insert-if-absent, [InvalidTag] for the sentinel,
    [CapacityExceeded] when the set is full. *)
Definition label_add (l : list tag_t) (t : tag_t) : Z * list tag_t :=
  if negb (ifc_tag_valid t) then (- EINVAL, l)
  else if ifc_contains_value l t then (0, l)
  else if (IFC_LABEL_MAX_SIZE <=? length l)%nat then (- ENOMEM, l)
  else (0, l ++ [t]).

(** Modelled from the spec: [ifc_add_privilege] ([linux/ifc.h]) is
    [add_tag] on one of the four privilege sets. *)
Definition ifc_add_privilege (p : option nat) (k : ifc_kind) (t : tag_t) : M Z :=
  c <- deref_ctx p ;;
  match p, label_of k c with
  | Some a, Some l =>
      if is_privilege_kind k then
        let '(rv, l') := label_add l t in
        store_ctx a (with_label k l' c) ;;; ret rv
      else ret (- EINVAL)
  | _, _ => ret (- EINVAL)
  end.

(** Modelled from the spec: [ifc_create_tag] ([linux/ifc.h]) returns a tag
    distinct from all tags issued so far, from a monotonic counter. *)
Definition ifc_create_tag : M tag_t :=
  fun st => Done (next_tag st) (set_next_tag (next_tag st + 1) st).

(** ** [security/ifc/fs.c] *)

(** [current_ifc()]: the context pointer of the current credential. *)
Definition current_ifc : M (option nat) :=
  st <- get ;;
  c <- load creds (Some (current_cred st)) ;;
  ret (match cred_ifc c with
       | Some _ => Some (current_cred st)
       | None => None
       end).

Definition context_from_pid (pid : Z) : M (option nat) :=
  st <- get ;;
  match tasks st !! pid with
  | None => ret None
  | Some dest =>
      c <- load creds (Some dest) ;;
      ret (match cred_ifc c with
           | Some _ => Some dest
           | None => None
           end)
  end.

(** [copy_to_user]: nonzero (here [true]) when the user buffer cannot be
    written. *)
Definition copy_to_user (buf_writable : bool) : bool := negb buf_writable.

(** The second component is what the caller finds in its buffer. *)
Definition ifc_read_tag (count : Z) (buf_writable : bool) : M (Z * option tag_t) :=
  cifc <- current_ifc ;;
  if count <? sizeof_tag_t then ret (- ENOMEM, None)
  else
    tag <- ifc_create_tag ;;
    rv1 <- ifc_add_privilege cifc IFC_SECRECY_P tag ;;
    rv2 <- ifc_add_privilege cifc IFC_INTEGRITY_P tag ;;
    rv3 <- ifc_add_privilege cifc IFC_SECRECY_N tag ;;
    rv4 <- ifc_add_privilege cifc IFC_INTEGRITY_N tag ;;
    let rv := Z.lor (Z.lor (Z.lor (Z.lor 0 rv1) rv2) rv3) rv4 in
    if rv <? 0 then ret (rv, None)
    else if copy_to_user buf_writable then ret (- EAGAIN, None)
    else ret (sizeof_tag_t, Some tag).

Definition ifc_write_process (count : Z) (msg : ifc_tag_msg) : M Z :=
  cifc <- current_ifc ;;
  if count <? sizeof_ifc_tag_msg then ret (- ENOMEM)
  else if negb (ifc_tag_valid (tag msg)) then ret (- EINVAL)
  else
    oifc <- context_from_pid (pid msg) ;;
    match oifc with
    | None => ret (- EINVAL)             (* did not find anything *)
    | Some _ =>
        let finish (rv : Z) : M Z :=
          if rv =? 0 then ret sizeof_ifc_tag_msg else ret rv in
        match op msg with
        | IFC_ADD_TAG =>
            match tag_type msg with
            | IFC_SECRECY_P =>
                c <- deref_ctx cifc ;;
                if negb (ifc_contains_value (secrecy_p c) (tag msg))
                then ret (- EPERM)
                else rv <- ifc_add_privilege oifc IFC_SECRECY_P (tag msg) ;; finish rv
            | IFC_INTEGRITY_P =>
                c <- deref_ctx cifc ;;
                if negb (ifc_contains_value (integrity_p c) (tag msg))
                then ret (- EPERM)
                else rv <- ifc_add_privilege oifc IFC_INTEGRITY_P (tag msg) ;; finish rv
            | IFC_SECRECY_N =>
                c <- deref_ctx cifc ;;
                if negb (ifc_contains_value (secrecy_n c) (tag msg))
                then ret (- EPERM)
                else rv <- ifc_add_privilege oifc IFC_SECRECY_N (tag msg) ;; finish rv
            | IFC_INTEGRITY_N =>
                c <- deref_ctx cifc ;;
                if negb (ifc_contains_value (integrity_n c) (tag msg))
                then ret (- EPERM)
                else rv <- ifc_add_privilege oifc IFC_INTEGRITY_N (tag msg) ;; finish rv
            | _ => finish (- EINVAL)
            end
        | _ => finish (- EINVAL)
        end
    end.

End IFC.

(** ** Provenance primitives ([linux/provenance.h], [linux/camflow.h]) *)

Definition zeroed (ty : msg_kind) : prov_msg_t :=
  {| msg_type := ty; node_id := 0; version := 0; tracked := false;
     opaque := false; name_recorded := false; ifc_snapshot := None;
     info_uid := 0; info_gid := 0; info_mode := 0; info_type := 0;
     info_family := 0; info_protocol := 0; info_uuid := [] |}.

Definition set_node_id_field (i : Z) (n : prov_msg_t) : prov_msg_t :=
  {| msg_type := msg_type n; node_id := i; version := version n;
     tracked := tracked n; opaque := opaque n; name_recorded := name_recorded n;
     ifc_snapshot := ifc_snapshot n; info_uid := info_uid n; info_gid := info_gid n;
     info_mode := info_mode n; info_type := info_type n; info_family := info_family n;
     info_protocol := info_protocol n; info_uuid := info_uuid n |}.

Definition set_version (v : Z) (n : prov_msg_t) : prov_msg_t :=
  {| msg_type := msg_type n; node_id := node_id n; version := v;
     tracked := tracked n; opaque := opaque n; name_recorded := name_recorded n;
     ifc_snapshot := ifc_snapshot n; info_uid := info_uid n; info_gid := info_gid n;
     info_mode := info_mode n; info_type := info_type n; info_family := info_family n;
     info_protocol := info_protocol n; info_uuid := info_uuid n |}.

Definition set_tracked (b : bool) (n : prov_msg_t) : prov_msg_t :=
  {| msg_type := msg_type n; node_id := node_id n; version := version n;
     tracked := b; opaque := opaque n; name_recorded := name_recorded n;
     ifc_snapshot := ifc_snapshot n; info_uid := info_uid n; info_gid := info_gid n;
     info_mode := info_mode n; info_type := info_type n; info_family := info_family n;
     info_protocol := info_protocol n; info_uuid := info_uuid n |}.

Definition set_name_recorded (b : bool) (n : prov_msg_t) : prov_msg_t :=
  {| msg_type := msg_type n; node_id := node_id n; version := version n;
     tracked := tracked n; opaque := opaque n; name_recorded := b;
     ifc_snapshot := ifc_snapshot n; info_uid := info_uid n; info_gid := info_gid n;
     info_mode := info_mode n; info_type := info_type n; info_family := info_family n;
     info_protocol := info_protocol n; info_uuid := info_uuid n |}.

Definition set_ifc_snapshot (c : option ifc_context) (n : prov_msg_t) : prov_msg_t :=
  {| msg_type := msg_type n; node_id := node_id n; version := version n;
     tracked := tracked n; opaque := opaque n; name_recorded := name_recorded n;
     ifc_snapshot := c; info_uid := info_uid n; info_gid := info_gid n;
     info_mode := info_mode n; info_type := info_type n; info_family := info_family n;
     info_protocol := info_protocol n; info_uuid := info_uuid n |}.

Definition set_info_uid (v : Z) (n : prov_msg_t) : prov_msg_t :=
  {| msg_type := msg_type n; node_id := node_id n; version := version n;
     tracked := tracked n; opaque := opaque n; name_recorded := name_recorded n;
     ifc_snapshot := ifc_snapshot n; info_uid := v; info_gid := info_gid n;
     info_mode := info_mode n; info_type := info_type n; info_family := info_family n;
     info_protocol := info_protocol n; info_uuid := info_uuid n |}.

Definition set_info_gid (v : Z) (n : prov_msg_t) : prov_msg_t :=
  {| msg_type := msg_type n; node_id := node_id n; version := version n;
     tracked := tracked n; opaque := opaque n; name_recorded := name_recorded n;
     ifc_snapshot := ifc_snapshot n; info_uid := info_uid n; info_gid := v;
     info_mode := info_mode n; info_type := info_type n; info_family := info_family n;
     info_protocol := info_protocol n; info_uuid := info_uuid n |}.

Definition set_info_mode (v : Z) (n : prov_msg_t) : prov_msg_t :=
  {| msg_type := msg_type n; node_id := node_id n; version := version n;
     tracked := tracked n; opaque := opaque n; name_recorded := name_recorded n;
     ifc_snapshot := ifc_snapshot n; info_uid := info_uid n; info_gid := info_gid n;
     info_mode := v; info_type := info_type n; info_family := info_family n;
     info_protocol := info_protocol n; info_uuid := info_uuid n |}.

Definition set_sock_info (ty fam proto : Z) (n : prov_msg_t) : prov_msg_t :=
  {| msg_type := msg_type n; node_id := node_id n; version := version n;
     tracked := tracked n; opaque := opaque n; name_recorded := name_recorded n;
     ifc_snapshot := ifc_snapshot n; info_uid := info_uid n; info_gid := info_gid n;
     info_mode := info_mode n; info_type := ty; info_family := fam;
     info_protocol := proto; info_uuid := info_uuid n |}.

Definition set_info_type (ty : Z) (n : prov_msg_t) : prov_msg_t :=
  set_sock_info ty (info_family n) (info_protocol n) n.

Definition set_info_uuid (u : list Z) (n : prov_msg_t) : prov_msg_t :=
  {| msg_type := msg_type n; node_id := node_id n; version := version n;
     tracked := tracked n; opaque := opaque n; name_recorded := name_recorded n;
     ifc_snapshot := ifc_snapshot n; info_uid := info_uid n; info_gid := info_gid n;
     info_mode := info_mode n; info_type := info_type n; info_family := info_family n;
     info_protocol := info_protocol n; info_uuid := u |}.

(** [p->field = v] on a provenance record. *)
Definition update_node (p : option nat) (f : prov_msg_t -> prov_msg_t) : M unit :=
  n <- load prov_heap p ;;
  match p with
  | Some a => modify (fun st => set_prov_heap (<[a := f n]> (prov_heap st)) st)
  | None => oops
  end.

(** Modelled from the spec: [alloc_provenance] ([linux/provenance.h], not
    part of the sources) allocates a zero-initialized record of the given
    kind, or reports an allocation failure with [NULL].  The [gfp]
    argument of the C function only selects how the slab may wait and is
    left out. *)
Definition alloc_provenance (ty : msg_kind) : M (option nat) :=
  fun st =>
    match slab_avail st with
    | O => Done None st
    | S n =>
        let a := next_addr st in
        Done (Some a)
             (set_prov_heap (<[a := zeroed ty]> (prov_heap st))
                (set_next_addr (S a) (set_slab_avail n st)))
    end.

(** Modelled from the spec: [free_provenance] ([linux/provenance.h])
    releases the record it is handed; the argument is logged in
    [released]. *)
Definition free_provenance (p : option nat) : M unit :=
  modify (fun st =>
    set_released (p :: released st)
      match p with
      | Some a => set_prov_heap (delete a (prov_heap st)) st
      | None => st
      end).

(** The sentinel of [set_node_id] ([linux/provenance.h], not part of the
    sources): the identifier argument that asks for a generated
    identifier.  It is an ordinary value of the argument's integer type,
    taken to be 0. *)
Definition ASSIGN_NODE_ID : Z := 0.

(** Modelled from the spec: [set_node_id] ([linux/provenance.h]) assigns
    the caller-supplied stable identifier, or with [ASSIGN_NODE_ID] a
    freshly generated one.  The identifier and the sentinel come in
    through the same integer argument. *)
Definition set_node_id (p : option nat) (nid : Z) : M unit :=
  if nid =? ASSIGN_NODE_ID then
    st <- get ;;
    update_node p (set_node_id_field (next_node_id st)) ;;;
    modify (set_next_node_id (next_node_id st + 1))
  else update_node p (set_node_id_field nid).

(** Modelled from the spec: the log sink ([prov_write], [long_prov_write])
    accepts a finished record; its failure is not reported to the caller. *)
Definition emit (r : prov_record) (st : kstate) : kstate :=
  set_relay (if relay_up st then relay st ++ [r] else relay st) st.

Definition prov_write (r : prov_record) : M unit := modify (emit r).

(** Modelled from the spec: [record_edge] ([linux/provenance.h]) builds
    one edge from the identifiers of its two endpoints and hands it to the
    sink. *)
Definition record_edge (ty : edge_type) (from to : option nat) (allowed : bool) : M unit :=
  f <- load prov_heap from ;;
  t <- load prov_heap to ;;
  prov_write (EdgeRecord ty (node_id f) (node_id t) allowed).

(** Modelled from the spec: [provenance_is_tracked] and
    [provenance_is_name_recorded] ([linux/provenance.h]) read the flags
    of the node they are handed. *)
Definition provenance_is_tracked (p : option nat) : M bool :=
  n <- load prov_heap p ;; ret (tracked n).

Definition provenance_is_name_recorded (p : option nat) : M bool :=
  n <- load prov_heap p ;; ret (name_recorded n).

(** Modelled from the spec: [prov_record_ifc] ([linux/provenance.h])
    imports the tag sets into the node's metadata, a one-time snapshot. *)
Definition prov_record_ifc (p : option nat) (c : ifc_context) : M unit :=
  update_node p (set_ifc_snapshot (Some c)).

(** Modelled from the spec: [prov_update_version] increments the node's
    version counter. *)
Definition prov_update_version (p : option nat) : M unit :=
  n <- load prov_heap p ;; update_node p (set_version (version n + 1)).

(** [long_prov_msg_t]: a record of [long_provenance_cache]; it lives only
    between its allocation and its release inside one capture. *)
Record long_prov_msg_t := {
  long_type : long_kind;
  long_payload : list Z;
  long_length : Z;
}.

(** Modelled from the spec: [alloc_long_provenance] allocates a long-form
    record or returns [NULL] under memory pressure. *)
Definition alloc_long_provenance (k : long_kind) : M (option long_prov_msg_t) :=
  fun st =>
    match slab_avail st with
    | O => Done None st
    | S _ => Done (Some {| long_type := k; long_payload := []; long_length := 0 |}) st
    end.

(** [kzalloc] of the path buffer: whether a buffer was obtained. *)
Definition kzalloc : M bool :=
  fun st => Done (negb (Nat.eqb (slab_avail st) 0)) st.

(** Modelled from the spec: [long_prov_write] and [long_record_edge]
    ([linux/provenance.h]) hand the long-form record, and the edge from the
    owning node to it, to the sink. *)
Definition long_prov_write (l : long_prov_msg_t) : M unit :=
  prov_write (LongRecord (long_type l) (long_payload l)).

Definition long_record_edge (ty : edge_type) (from : option nat)
    (l : long_prov_msg_t) (allowed : bool) : M unit :=
  f <- load prov_heap from ;;
  prov_write (LongEdgeRecord ty (node_id f) (long_type l) allowed).

(** [current_provenance()]: the record of the current credential. *)
Definition current_provenance : M (option nat) :=
  st <- get ;;
  c <- load creds (Some (current_cred st)) ;;
  ret (cred_provenance c).

Definition set_i_provenance (p : option nat) (i : inode) : inode :=
  {| i_ino := i_ino i; i_uid := i_uid i; i_gid := i_gid i; i_mode := i_mode i;
     i_private := i_private i; i_sb := i_sb i; i_provenance := p;
     i_ifc := i_ifc i |}.

(** Modelled from the spec: [inode_get_provenance] and
    [inode_set_provenance] ([linux/camflow.h]) read and write the inode's
    pointer to its record. *)
Definition inode_get_provenance (ino : nat) : M (option nat) :=
  i <- load inodes (Some ino) ;; ret (i_provenance i).

Definition inode_set_provenance (ino : nat) (p : option nat) : M unit :=
  modify (fun st => set_inodes (alter (set_i_provenance p) ino (inodes st)) st).

Definition cred_set_provenance (c : nat) (p : option nat) : M unit :=
  modify (fun st => set_creds (alter (set_cred_provenance p) c (creds st)) st).

Definition set_msg_provenance (p : option nat) (m : msg_msg) : msg_msg :=
  {| m_type := m_type m; msg_ifc := msg_ifc m; msg_provenance := p |}.

Definition set_shm_provenance (p : option nat) (s : shmid_kernel) : shmid_kernel :=
  {| shm_mode := shm_mode s; shm_ifc := shm_ifc s; shm_provenance := p |}.

Definition set_s_provenance (p : option nat) (s : super_block) : super_block :=
  {| s_uuid := s_uuid s; s_provenance := p |}.

(** Permission and protection bits ([linux/fs.h], [asm/mman.h], [linux/shm.h]). *)
Definition MAY_EXEC : Z := 1.
Definition MAY_WRITE : Z := 2.
Definition MAY_READ : Z := 4.
Definition MAY_APPEND : Z := 8.
Definition PROT_READ : Z := 1.
Definition PROT_WRITE : Z := 2.
Definition PROT_EXEC : Z := 4.
Definition SHM_RDONLY : Z := 4096.
Definition PATH_MAX : nat := 4096.

(** ** [security/provenance/hooks.c] *)

Definition provenance_cred_alloc_blank (cred : nat) : M Z :=
  prov <- alloc_provenance MSG_TASK ;;
  match prov with
  | None => ret (- ENOMEM)
  | Some _ =>
      set_node_id prov ASSIGN_NODE_ID ;;;
      c <- load creds (Some cred) ;;
      update_node prov (set_info_uid (euid c)) ;;;
      update_node prov (set_info_gid (egid c)) ;;;
      cred_set_provenance cred prov ;;;
      ret 0
  end.

Definition provenance_cred_free (cred : nat) : M unit :=
  c <- load creds (Some cred) ;;
  free_provenance (cred_provenance c) ;;;
  cred_set_provenance cred None.

Definition provenance_cred_prepare (new old : nat) : M Z :=
  o <- load creds (Some old) ;;
  let old_prov := cred_provenance o in
  prov <- alloc_provenance MSG_TASK ;;
  match prov with
  | None => ret (- ENOMEM)
  | Some _ =>
      set_node_id prov ASSIGN_NODE_ID ;;;
      n <- load creds (Some new) ;;
      update_node prov (set_info_uid (euid n)) ;;;
      update_node prov (set_info_gid (egid n)) ;;;
      new_ifc <- deref_ctx (Some new) ;;
      (if ifc_is_labelled new_ifc then
         update_node prov (set_tracked true) ;;;
         prov_record_ifc prov new_ifc
       else ret tt) ;;;
      record_edge ED_FORK old_prov prov FLOW_ALLOWED ;;;
      cred_set_provenance new prov ;;;
      ret 0
  end.

Definition provenance_cred_transfer (new old : nat) : M unit :=
  o <- load creds (Some old) ;;
  n <- load creds (Some new) ;;
  let old_prov := cred_provenance o in
  let prov := cred_provenance n in
  v <- load prov_heap old_prov ;;
  update_node prov (fun _ => v).

Definition provenance_task_fix_setuid (new old : nat) : M Z :=
  o <- load creds (Some old) ;;
  n <- load creds (Some new) ;;
  record_edge ED_CHANGE (cred_provenance o) (cred_provenance n) FLOW_ALLOWED ;;;
  ret 0.

(** [alloc_camflow] and [free_camflow] manage the container of the inode's
    two security pointers and do not touch the records; they are left
    out. *)
Definition provenance_inode_alloc_security (ino : nat) : M Z :=
  cprov <- current_provenance ;;
  iprov <- alloc_provenance MSG_INODE ;;
  match iprov with
  | None => ret (- ENOMEM)
  | Some _ =>
      i <- load inodes (Some ino) ;;
      set_node_id iprov (i_ino i) ;;;
      update_node iprov (set_info_uid (i_uid i)) ;;;
      update_node iprov (set_info_gid (i_gid i)) ;;;
      update_node iprov (set_info_mode (i_mode i)) ;;;
      sb <- load sbs (Some (i_sb i)) ;;
      sprov <- load prov_heap (s_provenance sb) ;;
      update_node iprov (set_info_uuid (take 16 (info_uuid sprov))) ;;;
      inode_set_provenance ino iprov ;;;
      match i_ifc i with
      | None => oops
      | Some ifc =>
          (if ifc_is_labelled ifc then
             update_node iprov (set_tracked true) ;;;
             prov_record_ifc iprov ifc
           else ret tt) ;;;
          record_edge ED_CREATE cprov iprov FLOW_ALLOWED ;;;
          ret 0
      end
  end.

Definition provenance_inode_free_security (ino : nat) : M unit :=
  prov <- inode_get_provenance ino ;;
  (match prov with
   | None => free_provenance prov        (* [if(!prov) free_provenance(prov);] *)
   | Some _ => ret tt
   end) ;;;
  inode_set_provenance ino None.

Definition provenance_inode_permission (ino : nat) (mask : Z) : M Z :=
  cprov <- current_provenance ;;
  i <- load inodes (Some ino) ;;
  if i_private i then ret 0
  else
    iprov0 <- inode_get_provenance ino ;;
    iprov <- (match iprov0 with
              | None =>                  (* alloc provenance if none there *)
                  provenance_inode_alloc_security ino ;;;
                  inode_get_provenance ino
              | Some _ => ret iprov0
              end) ;;
    let mask := Z.land mask (Z.lor (Z.lor (Z.lor MAY_READ MAY_WRITE) MAY_EXEC) MAY_APPEND) in
    (if negb (Z.land mask (Z.lor MAY_WRITE MAY_APPEND) =? 0)
     then record_edge ED_WRITE cprov iprov FLOW_ALLOWED else ret tt) ;;;
    (if negb (Z.land mask MAY_READ =? 0)
     then record_edge ED_READ iprov cprov FLOW_ALLOWED else ret tt) ;;;
    (if negb (Z.land mask MAY_EXEC =? 0)
     then record_edge ED_EXEC iprov cprov FLOW_ALLOWED else ret tt) ;;;
    ret 0.

Definition provenance_inode_link : M Z := ret 0.

Definition provenance_record_file_name (f : file) : M unit :=
  iprov <- inode_get_provenance (f_inode f) ;;
  recorded <- provenance_is_name_recorded iprov ;;
  is_tracked <- (if negb recorded then provenance_is_tracked iprov else ret false) ;;
  if negb recorded && is_tracked then
    buffer <- kzalloc ;;
    fname_prov <- alloc_long_provenance MSG_FILE_NAME ;;
    match buffer, fname_prov with
    | true, Some l =>
        let name := take (PATH_MAX - 1) (f_path f) in
        let l := {| long_type := long_type l; long_payload := name;
                    long_length := Z.of_nat (length name) |} in
        long_prov_write l ;;;
        long_record_edge ED_NAMED iprov l FLOW_ALLOWED ;;;
        update_node iprov (set_name_recorded true)
    | _, _ => oops
    end
  else ret tt.

Definition provenance_file_permission (f : file) (mask : Z) : M Z :=
  provenance_record_file_name f ;;;
  provenance_inode_permission (f_inode f) mask ;;;
  ret 0.

Definition provenance_file_open (f : file) : M Z :=
  cprov <- current_provenance ;;
  let ino := f_inode f in
  p <- inode_get_provenance ino ;;
  (match p with
   | None => provenance_inode_alloc_security ino ;;; ret tt
   | Some _ => ret tt
   end) ;;;
  provenance_record_file_name f ;;;
  iprov <- inode_get_provenance ino ;;
  record_edge ED_OPEN iprov cprov FLOW_ALLOWED ;;;
  ret 0.

Definition provenance_mmap_file (file : option file) (prot : Z) : M Z :=
  cprov <- current_provenance ;;
  match file with
  | None => ret 0
  | Some f =>
      provenance_record_file_name f ;;;
      iprov <- inode_get_provenance (f_inode f) ;;
      let prot := Z.land prot (Z.lor (Z.lor PROT_EXEC PROT_READ) PROT_WRITE) in
      (if negb (Z.land prot (Z.lor PROT_WRITE PROT_EXEC) =? 0)
       then record_edge ED_MMAP cprov iprov FLOW_ALLOWED else ret tt) ;;;
      (if negb (Z.land prot (Z.lor (Z.lor PROT_READ PROT_EXEC) PROT_WRITE) =? 0)
       then record_edge ED_MMAP iprov cprov FLOW_ALLOWED else ret tt) ;;;
      ret 0
  end.

Definition provenance_file_ioctl (f : file) : M Z :=
  cprov <- current_provenance ;;
  let ino := f_inode f in
  p <- inode_get_provenance ino ;;
  (match p with
   | None => provenance_inode_alloc_security ino ;;; ret tt
   | Some _ => ret tt
   end) ;;;
  provenance_record_file_name f ;;;
  iprov <- inode_get_provenance ino ;;
  record_edge ED_WRITE cprov iprov FLOW_ALLOWED ;;;
  prov_update_version iprov ;;;
  record_edge ED_READ iprov cprov FLOW_ALLOWED ;;;
  prov_update_version cprov ;;;
  ret 0.

Definition provenance_msg_msg_alloc_security (m : nat) : M Z :=
  cprov <- current_provenance ;;
  msg <- load msgs (Some m) ;;
  let ifc := msg_ifc msg in
  mprov <- alloc_provenance MSG_MSG ;;
  match mprov with
  | None => ret (- ENOMEM)
  | Some _ =>
      set_node_id mprov ASSIGN_NODE_ID ;;;
      update_node mprov (set_info_type (m_type msg)) ;;;
      (match ifc with
       | None =>                         (* [if(!ifc)]: reads [&ifc->context] *)
           oops
       | Some _ => ret tt
       end) ;;;
      modify (fun st => set_msgs (alter (set_msg_provenance mprov) m (msgs st)) st) ;;;
      record_edge ED_CREATE cprov mprov FLOW_ALLOWED ;;;
      ret 0
  end.

Definition provenance_msg_msg_free_security (m : nat) : M unit :=
  msg <- load msgs (Some m) ;;
  let prov := msg_provenance msg in
  modify (fun st => set_msgs (alter (set_msg_provenance None) m (msgs st)) st) ;;;
  free_provenance prov.

Definition provenance_msg_queue_msgsnd (m : nat) : M Z :=
  cprov <- current_provenance ;;
  msg <- load msgs (Some m) ;;
  let mprov := msg_provenance msg in
  record_edge ED_WRITE cprov mprov FLOW_ALLOWED ;;;
  ret 0.

(** [target] is the credential of the recipient task, [target->cred]. *)
Definition provenance_msg_queue_msgrcv (m : nat) (target : nat) : M Z :=
  tc <- load creds (Some target) ;;
  let cprov := cred_provenance tc in
  msg <- load msgs (Some m) ;;
  let mprov := msg_provenance msg in
  record_edge ED_READ mprov cprov FLOW_ALLOWED ;;;
  ret 0.

Definition provenance_shm_alloc_security (s : nat) : M Z :=
  cprov <- current_provenance ;;
  sprov <- alloc_provenance MSG_SHM ;;
  shp <- load shms (Some s) ;;
  let ifc := shm_ifc shp in
  match sprov with
  | None => ret (- ENOMEM)
  | Some _ =>
      set_node_id sprov ASSIGN_NODE_ID ;;;
      update_node sprov (set_info_mode (shm_mode shp)) ;;;
      (match ifc with
       | None => oops                    (* [if(!ifc)]: reads [&ifc->context] *)
       | Some _ => ret tt
       end) ;;;
      modify (fun st => set_shms (alter (set_shm_provenance sprov) s (shms st)) st) ;;;
      record_edge ED_ATTACH sprov cprov FLOW_ALLOWED ;;;
      record_edge ED_ATTACH cprov sprov FLOW_ALLOWED ;;;
      ret 0
  end.

Definition provenance_shm_free_security (s : nat) : M unit :=
  shp <- load shms (Some s) ;;
  free_provenance (shm_provenance shp) ;;;
  modify (fun st => set_shms (alter (set_shm_provenance None) s (shms st)) st).

Definition provenance_shm_shmat (s : nat) (shmflg : Z) : M Z :=
  cprov <- current_provenance ;;
  shp <- load shms (Some s) ;;
  let sprov := shm_provenance shp in
  match sprov with
  | None => ret (- ENOMEM)
  | Some _ =>
      (if negb (Z.land shmflg SHM_RDONLY =? 0) then
         record_edge ED_ATTACH sprov cprov FLOW_ALLOWED
       else
         record_edge ED_ATTACH sprov cprov FLOW_ALLOWED ;;;
         record_edge ED_ATTACH cprov sprov FLOW_ALLOWED) ;;;
      ret 0
  end.

Definition provenance_sk_alloc_security (sk : nat) : M Z :=
  skprov <- alloc_provenance MSG_SOCK ;;
  match skprov with
  | None => ret (- ENOMEM)
  | Some _ =>
      set_node_id skprov ASSIGN_NODE_ID ;;;
      _ <- load socks (Some sk) ;;
      modify (fun st => set_socks (alter (fun _ => {| sk_provenance := skprov |}) sk (socks st)) st) ;;;
      ret 0
  end.

Definition provenance_sk_free_security (sk : nat) : M unit :=
  s <- load socks (Some sk) ;;
  free_provenance (sk_provenance s) ;;;
  modify (fun st => set_socks (alter (fun _ => {| sk_provenance := None |}) sk (socks st)) st).

Definition provenance_socket_post_create (sock : socket) (family type protocol : Z)
    (kern : bool) : M Z :=
  cprov <- current_provenance ;;
  iprov <- inode_get_provenance (sock_inode sock) ;;
  if kern then ret 0
  else
    s <- load socks (Some (sock_sk sock)) ;;
    (match sk_provenance s with
     | None => provenance_sk_alloc_security (sock_sk sock) ;;; ret tt
     | Some _ => ret tt
     end) ;;;
    s' <- load socks (Some (sock_sk sock)) ;;
    let skprov := sk_provenance s' in
    update_node skprov (set_sock_info type family protocol) ;;;
    record_edge ED_CREATE cprov skprov FLOW_ALLOWED ;;;
    record_edge ED_ASSOCIATE skprov iprov FLOW_ALLOWED ;;;
    ret 0.

Definition provenance_record_address (sock : socket) (address : list Z) (addrlen : nat) : M unit :=
  s <- load socks (Some (sock_sk sock)) ;;
  let skprov := sk_provenance s in
  recorded <- provenance_is_name_recorded skprov ;;
  is_tracked <- (if negb recorded then provenance_is_tracked skprov else ret false) ;;
  if negb recorded && is_tracked then
    addr_info <- alloc_long_provenance MSG_ADDR ;;
    match addr_info with
    | Some l =>
        let l := {| long_type := long_type l; long_payload := take addrlen address;
                    long_length := Z.of_nat addrlen |} in
        long_prov_write l ;;;
        long_record_edge ED_NAMED skprov l FLOW_ALLOWED ;;;
        update_node skprov (set_name_recorded true)
    | None => oops
    end
  else ret tt.

Definition provenance_socket_bind (sock : socket) (address : list Z) (addrlen : nat) : M Z :=
  cprov <- current_provenance ;;
  s <- load socks (Some (sock_sk sock)) ;;
  let skprov := sk_provenance s in
  c <- load prov_heap cprov ;;
  if opaque c then ret 0
  else
    match skprov with
    | None => ret (- ENOMEM)
    | Some _ =>
        provenance_record_address sock address addrlen ;;;
        record_edge ED_BIND cprov skprov FLOW_ALLOWED ;;;
        ret 0
    end.

Definition provenance_socket_connect (sock : socket) (address : list Z) (addrlen : nat) : M Z :=
  cprov <- current_provenance ;;
  s <- load socks (Some (sock_sk sock)) ;;
  let skprov := sk_provenance s in
  c <- load prov_heap cprov ;;
  if opaque c then ret 0
  else
    match skprov with
    | None => ret (- ENOMEM)
    | Some _ =>
        provenance_record_address sock address addrlen ;;;
        record_edge ED_CONNECT cprov skprov FLOW_ALLOWED ;;;
        ret 0
    end.

Definition provenance_socket_listen (sock : socket) : M Z :=
  cprov <- current_provenance ;;
  s <- load socks (Some (sock_sk sock)) ;;
  record_edge ED_LISTEN cprov (sk_provenance s) FLOW_ALLOWED ;;;
  ret 0.

Definition provenance_socket_sendmsg (sock : socket) : M Z :=
  provenance_inode_permission (sock_inode sock) MAY_WRITE.

Definition provenance_socket_recvmsg (sock : socket) : M Z :=
  provenance_inode_permission (sock_inode sock) MAY_READ.

Definition provenance_socket_accept (sock newsock : socket) : M Z :=
  cprov <- current_provenance ;;
  skprov <- inode_get_provenance (sock_inode sock) ;;
  nskprov <- inode_get_provenance (sock_inode newsock) ;;
  record_edge ED_CREATE skprov nskprov FLOW_ALLOWED ;;;
  record_edge ED_ACCEPT nskprov cprov FLOW_ALLOWED ;;;
  ret 0.

Definition provenance_unix_stream_connect (sk other newsk : nat) : M Z :=
  cprov <- current_provenance ;;
  s <- load socks (Some sk) ;;
  n <- load socks (Some newsk) ;;
  o <- load socks (Some other) ;;
  let skprov := sk_provenance s in
  record_edge ED_CONNECT cprov skprov FLOW_ALLOWED ;;;
  record_edge ED_ASSOCIATE skprov (sk_provenance n) FLOW_ALLOWED ;;;
  record_edge ED_ASSOCIATE skprov (sk_provenance o) FLOW_ALLOWED ;;;
  ret 0.

Definition provenance_unix_may_send (sock other : socket) : M Z :=
  s <- load socks (Some (sock_sk sock)) ;;
  o <- load socks (Some (sock_sk other)) ;;
  record_edge ED_UNKNOWN (sk_provenance s) (sk_provenance o) FLOW_ALLOWED ;;;
  ret 0.

(** [struct linux_binprm]: the credential being built and the file run. *)
Record linux_binprm := { bprm_cred : nat; bprm_file : file }.

Definition provenance_bprm_set_creds (bprm : linux_binprm) : M Z :=
  c <- load creds (Some (bprm_cred bprm)) ;;
  match cred_provenance c with
  | None => provenance_cred_alloc_blank (bprm_cred bprm)
  | Some _ => ret 0
  end.


Definition provenance_sb_alloc_security (sb : nat) : M Z :=
  sbprov <- alloc_provenance MSG_SB ;;
  match sbprov with
  | None => ret (- ENOMEM)
  | Some _ =>
      _ <- load sbs (Some sb) ;;
      modify (fun st => set_sbs (alter (set_s_provenance sbprov) sb (sbs st)) st) ;;;
      ret 0
  end.

Definition provenance_sb_free_security (sb : nat) : M unit :=
  s <- load sbs (Some sb) ;;
  free_provenance (s_provenance s) ;;;
  modify (fun st => set_sbs (alter (set_s_provenance None) sb (sbs st)) st).

(** [random] is what [get_random_bytes] would deliver. *)
Definition provenance_sb_kern_mount (sb : nat) (random : list Z) : M Z :=
  s <- load sbs (Some sb) ;;
  let sbprov := s_provenance s in
  update_node sbprov (set_info_uuid (take 16 (s_uuid s))) ;;;
  let c := fold_left Z.lor (take 16 (s_uuid s)) 0 in
  (if c =? 0 then update_node sbprov (set_info_uuid (take 16 random)) else ret tt) ;;;
  ret 0.

(** The hooks of [provenance_hooks] that return a status to the host. *)
Inductive hook_call :=
| cred_alloc_blank (cred : nat)
| cred_prepare (new old : nat)
| task_fix_setuid (new old : nat)
| inode_alloc_security (ino : nat)
| inode_permission (ino : nat) (mask : Z)
| file_permission (f : file) (mask : Z)
| mmap_file (f : option file) (prot : Z)
| file_ioctl (f : file)
| inode_link
| msg_msg_alloc_security (m : nat)
| msg_queue_msgsnd (m : nat)
| msg_queue_msgrcv (m target : nat)
| shm_alloc_security (s : nat)
| shm_shmat (s : nat) (shmflg : Z)
| sk_alloc_security (sk : nat)
| socket_post_create (sock : socket) (family type protocol : Z) (kern : bool)
| socket_bind (sock : socket) (address : list Z) (addrlen : nat)
| socket_connect (sock : socket) (address : list Z) (addrlen : nat)
| socket_listen (sock : socket)
| socket_sendmsg (sock : socket)
| socket_recvmsg (sock : socket)
| socket_accept (sock newsock : socket)
| unix_stream_connect (sk other newsk : nat)
| unix_may_send (sock other : socket)
| bprm_set_creds (bprm : linux_binprm)
| sb_alloc_security (sb : nat)
| sb_kern_mount (sb : nat) (random : list Z)
| file_open (f : file).

Definition security_call (h : hook_call) : M Z :=
  match h with
  | cred_alloc_blank c => provenance_cred_alloc_blank c
  | cred_prepare n o => provenance_cred_prepare n o
  | task_fix_setuid n o => provenance_task_fix_setuid n o
  | inode_alloc_security i => provenance_inode_alloc_security i
  | inode_permission i m => provenance_inode_permission i m
  | file_permission f m => provenance_file_permission f m
  | mmap_file f p => provenance_mmap_file f p
  | file_ioctl f => provenance_file_ioctl f
  | inode_link => provenance_inode_link
  | msg_msg_alloc_security m => provenance_msg_msg_alloc_security m
  | msg_queue_msgsnd m => provenance_msg_queue_msgsnd m
  | msg_queue_msgrcv m t => provenance_msg_queue_msgrcv m t
  | shm_alloc_security s => provenance_shm_alloc_security s
  | shm_shmat s f => provenance_shm_shmat s f
  | sk_alloc_security s => provenance_sk_alloc_security s
  | socket_post_create s f t p k => provenance_socket_post_create s f t p k
  | socket_bind s a l => provenance_socket_bind s a l
  | socket_connect s a l => provenance_socket_connect s a l
  | socket_listen s => provenance_socket_listen s
  | socket_sendmsg s => provenance_socket_sendmsg s
  | socket_recvmsg s => provenance_socket_recvmsg s
  | socket_accept s n => provenance_socket_accept s n
  | unix_stream_connect s o n => provenance_unix_stream_connect s o n
  | unix_may_send s o => provenance_unix_may_send s o
  | bprm_set_creds b => provenance_bprm_set_creds b
  | sb_alloc_security s => provenance_sb_alloc_security s
  | sb_kern_mount s r => provenance_sb_kern_mount s r
  | file_open f => provenance_file_open f
  end.


(** ** A small machine to run the code on

    Two processes: P (pid 100, credential 1, current) and Q (pid 200,
    credential 2).  P holds privilege over tag 7 in [secrecy_p] and over
    tag 3 in [integrity_p]; Q holds tag 7 in [secrecy_p] too and carries
    secrecy tag 5.  Inode 5 has a tracked node, inode 6 has none, inode 7
    has an untracked one; message 0 is
    labelled and has no node yet, message 1 has node 4; segment 0 has no
    node, segment 1 has node 6; sock 0 has no node, sock 1 has the tracked
    node 5. *)
Module Demo.

Definition ctx_P : ifc_context :=
  {| secrecy := []; integrity := []; secrecy_p := [7]; integrity_p := [3];
     secrecy_n := []; integrity_n := [] |}.

Definition ctx_Q : ifc_context :=
  {| secrecy := [5]; integrity := []; secrecy_p := [7]; integrity_p := [];
     secrecy_n := []; integrity_n := [] |}.

Definition cred_P : cred :=
  {| euid := 1000; egid := 1000; cred_provenance := Some 0%nat;
     cred_ifc := Some ctx_P |}.

Definition cred_Q : cred :=
  {| euid := 1001; egid := 1001; cred_provenance := Some 1%nat;
     cred_ifc := Some ctx_Q |}.

Definition node (ty : msg_kind) (id : Z) (is_tracked : bool) : prov_msg_t :=
  set_tracked is_tracked (set_node_id_field id (zeroed ty)).

Definition heap : gmap nat prov_msg_t :=
  <[0%nat := node MSG_TASK 1 false]>
    (<[1%nat := node MSG_TASK 2 true]>
       (<[2%nat := node MSG_SB 0 false]>
          (<[3%nat := node MSG_INODE 42 true]>
             (<[4%nat := node MSG_MSG 3 false]>
                (<[5%nat := node MSG_SOCK 4 true]>
                   (<[6%nat := node MSG_SHM 5 false]>
                      (<[7%nat := node MSG_INODE 44 false]> ∅))))))).

Definition inode_5 : inode :=
  {| i_ino := 42; i_uid := 0; i_gid := 0; i_mode := 420; i_private := false;
     i_sb := 0%nat; i_provenance := Some 3%nat; i_ifc := Some ctx_Q |}.

Definition inode_6 : inode :=
  {| i_ino := 43; i_uid := 0; i_gid := 0; i_mode := 420; i_private := false;
     i_sb := 0%nat; i_provenance := None; i_ifc := Some empty_context |}.

Definition inode_7 : inode :=
  {| i_ino := 44; i_uid := 0; i_gid := 0; i_mode := 420; i_private := false;
     i_sb := 0%nat; i_provenance := Some 7%nat; i_ifc := Some empty_context |}.

Definition st : kstate :=
  {| prov_heap := heap; next_addr := 10%nat; slab_avail := 8%nat;
     next_node_id := 6; relay_up := true; relay := []; released := [];
     next_tag := 10; current_cred := 1%nat;
     creds := <[1%nat := cred_P]> (<[2%nat := cred_Q]> ∅);
     tasks := <[100 := 1%nat]> (<[200 := 2%nat]> ∅);
     inodes := <[5%nat := inode_5]> (<[6%nat := inode_6]> (<[7%nat := inode_7]> ∅));
     msgs := <[0%nat := {| m_type := 1; msg_ifc := Some ctx_Q; msg_provenance := None |}]>
               (<[1%nat := {| m_type := 1; msg_ifc := Some empty_context;
                              msg_provenance := Some 4%nat |}]> ∅);
     shms := <[0%nat := {| shm_mode := 384; shm_ifc := Some ctx_Q; shm_provenance := None |}]>
               (<[1%nat := {| shm_mode := 384; shm_ifc := Some empty_context;
                              shm_provenance := Some 6%nat |}]> ∅);
     socks := <[0%nat := {| sk_provenance := None |}]>
                (<[1%nat := {| sk_provenance := Some 5%nat |}]> ∅);
     sbs := <[0%nat := {| s_uuid := [1; 2; 3]; s_provenance := Some 2%nat |}]> ∅ |}.

Definition file_5 : file := {| f_inode := 5%nat; f_path := [47; 97] |}.
Definition file_6 : file := {| f_inode := 6%nat; f_path := [47; 98] |}.
Definition file_7 : file := {| f_inode := 7%nat; f_path := [47; 99] |}.
Definition socket_0 : socket := {| sock_sk := 0%nat; sock_inode := 5%nat |}.
Definition socket_1 : socket := {| sock_sk := 1%nat; sock_inode := 5%nat |}.

(** Requests on the [process] file. *)
Definition add_9 : ifc_tag_msg :=
  {| tag := 9; tag_type := IFC_SECRECY_P; op := IFC_ADD_TAG; pid := 200 |}.
Definition remove_9 : ifc_tag_msg :=
  {| tag := 9; tag_type := IFC_SECRECY_P; op := IFC_REMOVE_TAG; pid := 200 |}.
Definition add_3 : ifc_tag_msg :=
  {| tag := 3; tag_type := IFC_INTEGRITY_P; op := IFC_ADD_TAG; pid := 200 |}.
Definition add_3_nobody : ifc_tag_msg :=
  {| tag := 3; tag_type := IFC_INTEGRITY_P; op := IFC_ADD_TAG; pid := 300 |}.

(** The constants of the missing headers, fixed for the runs. *)
Definition MAX : nat := 4.
Definition sizeof_tag_t : Z := 8.
Definition sizeof_ifc_tag_msg : Z := 16.

End Demo.

(** ** What the hooks answer

    Not code: the situations in which a hook of [provenance_hooks] answers
    [-ENOMEM], read off the state the hook is entered in.  Used to state
    the return values of the hooks. *)

Definition slab_empty (st : kstate) : bool := Nat.eqb (slab_avail st) 0.

(** The provenance pointer an object of table [tbl] holds. *)
Definition node_of {A} (tbl : gmap nat A) (slot : A -> option nat) (x : nat) : option nat :=
  match tbl !! x with
  | Some o => slot o
  | None => None
  end.

Definition current_opaque (st : kstate) : bool :=
  match node_of (creds st) cred_provenance (current_cred st) with
  | Some a => match prov_heap st !! a with
              | Some n => opaque n
              | None => false
              end
  | None => false
  end.




(** The state with the sink's two fields blanked: two states with the
    same image differ at most in what the sink holds and in whether it
    accepts records. *)
Definition sink_erased (st : kstate) : kstate :=
  set_relay [] (set_relay_up true st).




(** ** Sequences of credential operations *)

Inductive cred_op :=
| alloc_blank_op (cred : nat)
| prepare_op (new old : nat)
| transfer_op (new old : nat).


Definition run_cred_op (o : cred_op) : M unit :=
  match o with
  | alloc_blank_op c => provenance_cred_alloc_blank c ;;; ret tt
  | prepare_op n o => provenance_cred_prepare n o ;;; ret tt
  | transfer_op n o => provenance_cred_transfer n o
  end.

Fixpoint run_cred_ops (l : list cred_op) : M unit :=
  match l with
  | [] => ret tt
  | o :: l => run_cred_op o ;;; run_cred_ops l
  end.

(** The node a credential points to, and its identifier. *)
Definition cred_node (st : kstate) (c : nat) : option prov_msg_t :=
  match node_of (creds st) cred_provenance c with
  | Some a => prov_heap st !! a
  | None => None
  end.

Definition cred_node_id (st : kstate) (c : nat) : option Z :=
  node_id <$> cred_node st c.




(** ** The [self] file and the read side of the [process] file *)

(** Modelled from the spec: removal from a tag set ([linux/ifc.h], not part
    of the sources): remove-if-present, success when absent. *)
Definition label_remove (l : list tag_t) (t : tag_t) : Z * list tag_t :=
  (0, List.filter (fun x => negb (x =? t)) l).

(** One mutation of the context behind pointer [p]: [f] computes the
    status and the new content of set [k]. *)
Definition mutate_label (f : list tag_t -> tag_t -> Z * list tag_t)
    (p : option nat) (k : ifc_kind) (t : tag_t) : M Z :=
  c <- deref_ctx p ;;
  match p, label_of k c with
  | Some a, Some l =>
      let '(rv, l') := f l t in
      store_ctx a (with_label k l' c) ;;; ret rv
  | _, _ => ret (- EINVAL)
  end.

(** Modelled from the spec: [ifc_add_tag] and [ifc_remove_tag]
    ([linux/ifc.h]) act on the secrecy and integrity sets, unconditionally
    for the owner of the context; [ifc_remove_privilege] acts on the four
    privilege sets. *)
Definition ifc_add_tag (MAX : nat) (p : option nat) (k : ifc_kind) (t : tag_t) : M Z :=
  if is_privilege_kind k then ret (- EINVAL)
  else mutate_label (label_add MAX) p k t.

Definition ifc_remove_tag (p : option nat) (k : ifc_kind) (t : tag_t) : M Z :=
  if is_privilege_kind k then ret (- EINVAL)
  else mutate_label label_remove p k t.

Definition ifc_remove_privilege (p : option nat) (k : ifc_kind) (t : tag_t) : M Z :=
  if is_privilege_kind k then mutate_label label_remove p k t
  else ret (- EINVAL).

Definition ifc_write_self (MAX : nat) (sizeof_ifc_tag_msg : Z)
    (count : Z) (msg : ifc_tag_msg) : M Z :=
  cifc <- current_ifc ;;
  if count <? sizeof_ifc_tag_msg then ret (- ENOMEM)
  else if negb (ifc_tag_valid (tag msg)) then ret (- EINVAL)
  else
    rv <- (match op msg with
           | IFC_ADD_TAG =>
               match tag_type msg with
               | IFC_SECRECY => ifc_add_tag MAX cifc IFC_SECRECY (tag msg)
               | IFC_INTEGRITY => ifc_add_tag MAX cifc IFC_INTEGRITY (tag msg)
               | IFC_SECRECY_P => ifc_add_privilege MAX cifc IFC_SECRECY_P (tag msg)
               | IFC_INTEGRITY_P => ifc_add_privilege MAX cifc IFC_INTEGRITY_P (tag msg)
               | IFC_SECRECY_N => ifc_add_privilege MAX cifc IFC_SECRECY_N (tag msg)
               | IFC_INTEGRITY_N => ifc_add_privilege MAX cifc IFC_INTEGRITY_N (tag msg)
               | IFC_KIND_OTHER => ret (- EINVAL)
               end
           | _ =>
               match tag_type msg with
               | IFC_SECRECY => ifc_remove_tag cifc IFC_SECRECY (tag msg)
               | IFC_INTEGRITY => ifc_remove_tag cifc IFC_INTEGRITY (tag msg)
               | IFC_SECRECY_P => ifc_remove_privilege cifc IFC_SECRECY_P (tag msg)
               | IFC_INTEGRITY_P => ifc_remove_privilege cifc IFC_INTEGRITY_P (tag msg)
               | IFC_SECRECY_N => ifc_remove_privilege cifc IFC_SECRECY_N (tag msg)
               | IFC_INTEGRITY_N => ifc_remove_privilege cifc IFC_INTEGRITY_N (tag msg)
               | IFC_KIND_OTHER => ret (- EINVAL)
               end
           end) ;;
    if rv =? 0 then ret sizeof_ifc_tag_msg else ret rv.

(** The second component is what the caller finds in its buffer.  The
    context is read through [cifc] before the copy can fail. *)
Definition ifc_read_self (sizeof_ifc_context : Z)
    (count : Z) (buf_writable : bool) : M (Z * option ifc_context) :=
  cifc <- current_ifc ;;
  if count <? sizeof_ifc_context then ret (- ENOMEM, None)
  else
    c <- deref_ctx cifc ;;
    if copy_to_user buf_writable then ret (- EAGAIN, None)
    else ret (sizeof_ifc_context, Some c).

Definition ifc_write_tag : M Z := ret (- EPERM).

(** [pid] is the [pid] field of the [struct ifc_context_msg] in the
    caller's buffer. *)
Definition ifc_read_process (sizeof_ifc_context_msg : Z)
    (count : Z) (pid : Z) (buf_writable : bool) : M (Z * option ifc_context) :=
  if count <? sizeof_ifc_context_msg then ret (- ENOMEM, None)
  else
    oifc <- context_from_pid pid ;;
    match oifc with
    | None => ret (- EINVAL, None)       (* did not find anything *)
    | Some _ =>
        c <- deref_ctx oifc ;;
        if copy_to_user buf_writable then ret (- EAGAIN, None)
        else ret (sizeof_ifc_context_msg, Some c)
    end.

(** ** What an entry point leaves alone

    Not code: relations between the state an entry point is entered in and
    the state it leaves, used to state what the code never does. *)

(** Every run of [m] that returns relates its two states by [R]. *)
Definition keeps {A} (R : kstate -> kstate -> Prop) (m : M A) : Prop :=
  forall st a st', m st = Done a st' -> R st st'.

(** What no status-returning hook does: the log only grows at its end, and
    not at all when the sink is down; the sink's switch, the list of
    released records, the tag counter, the task table and the current
    credential stay; no live record disappears; the allocator's address
    and the identifier generator do not go back; no credential appears,
    disappears, or has its IFC context or identity changed. *)
Definition hook_frame (st st' : kstate) : Prop :=
  (exists l, relay st' = relay st ++ l /\ (relay_up st = false -> l = []))
  /\ relay_up st' = relay_up st
  /\ released st' = released st
  /\ next_tag st' = next_tag st
  /\ tasks st' = tasks st
  /\ current_cred st' = current_cred st
  /\ (forall a, is_Some (prov_heap st !! a) -> is_Some (prov_heap st' !! a))
  /\ (next_addr st <= next_addr st')%nat
  /\ next_node_id st <= next_node_id st'
  /\ (forall c, set_cred_provenance None <$> creds st' !! c
                = set_cred_provenance None <$> creds st !! c).

(** What no entry point of the IFC files does: it leaves the provenance
    module, the task table and the host objects other than credentials
    alone, and in a credential it changes at most the IFC context. *)
Definition ifc_frame (st st' : kstate) : Prop :=
  prov_heap st' = prov_heap st
  /\ relay st' = relay st
  /\ released st' = released st
  /\ next_node_id st' = next_node_id st
  /\ tasks st' = tasks st
  /\ current_cred st' = current_cred st
  /\ inodes st' = inodes st
  /\ next_tag st <= next_tag st'
  /\ (forall c, set_cred_ifc None <$> creds st' !! c
                = set_cred_ifc None <$> creds st !! c).

(** The state after the records of [l] were handed to the sink, first to
    last. *)
Definition emit_all (l : list prov_record) (st : kstate) : kstate :=
  fold_left (fun s r => emit r s) l st.

(** The edges [provenance_inode_permission] records for a mask, between
    the subject's node [c] and the inode's node [i]. *)
Definition permission_edges (mask : Z) (c i : prov_msg_t) : list prov_record :=
  (if negb (Z.land mask (Z.lor MAY_WRITE MAY_APPEND) =? 0)
   then [EdgeRecord ED_WRITE (node_id c) (node_id i) FLOW_ALLOWED] else [])
  ++ (if negb (Z.land mask MAY_READ =? 0)
      then [EdgeRecord ED_READ (node_id i) (node_id c) FLOW_ALLOWED] else [])
  ++ (if negb (Z.land mask MAY_EXEC =? 0)
      then [EdgeRecord ED_EXEC (node_id i) (node_id c) FLOW_ALLOWED] else []).

(** What the capture of a name does to node [n]: the records it hands to
    the sink and the node it leaves. *)
Definition name_records (k : long_kind) (payload : list Z) (n : prov_msg_t)
  : list prov_record :=
  if negb (name_recorded n) && tracked n
  then [LongRecord k payload; LongEdgeRecord ED_NAMED (node_id n) k FLOW_ALLOWED]
  else [].

Definition named (n : prov_msg_t) : prov_msg_t :=
  if negb (name_recorded n) && tracked n then set_name_recorded true n else n.

(** The edges [provenance_mmap_file] records for a protection, between
    the subject's node [c] and the inode's node [i]. *)
Definition mmap_edges (prot : Z) (c i : prov_msg_t) : list prov_record :=
  (if negb (Z.land prot (Z.lor PROT_WRITE PROT_EXEC) =? 0)
   then [EdgeRecord ED_MMAP (node_id c) (node_id i) FLOW_ALLOWED] else [])
  ++ (if negb (Z.land prot (Z.lor (Z.lor PROT_READ PROT_EXEC) PROT_WRITE) =? 0)
      then [EdgeRecord ED_MMAP (node_id i) (node_id c) FLOW_ALLOWED] else []).

(** The state in which the record at address [a] is [n]. *)
Definition with_node (a : nat) (n : prov_msg_t) (st : kstate) : kstate :=
  set_prov_heap (<[a := n]> (prov_heap st)) st.

(** The subject's node of [Demo.st], marked opaque, and the state that
    holds it. *)
Definition opaque_task : prov_msg_t :=
  {| msg_type := MSG_TASK; node_id := 1; version := 0; tracked := false;
     opaque := true; name_recorded := false; ifc_snapshot := None;
     info_uid := 0; info_gid := 0; info_mode := 0; info_type := 0;
     info_family := 0; info_protocol := 0; info_uuid := [] |}.

Definition st_opaque : kstate := with_node 0 opaque_task Demo.st.

(** A free hook [m] run twice from [st]: the first run hands the node [p]
    to [free_provenance] and takes its record out of the cache, the second
    finds the pointer cleared and hands over [NULL]. *)
Definition frees_once (m : M unit) (p : option nat) (st : kstate) : Prop :=
  exists st1 st2,
    m st = Done tt st1
    /\ m st1 = Done tt st2
    /\ released st1 = p :: released st
    /\ released st2 = None :: p :: released st
    /\ prov_heap st2 = prov_heap st1
    /\ (forall a, p = Some a -> prov_heap st1 !! a = None).

(** [Demo.st] before credential 1 has been given a node. *)
Definition st_blank : kstate :=
  set_creds (<[1%nat := set_cred_provenance None Demo.cred_P]> (creds Demo.st)) Demo.st.

(** ** The operations of the three IFC files

    [ifc_self_ops], [ifc_tag_ops] and [ifc_process_ops]: what user space
    can call, with what it passes in. *)
Inductive ifc_file_op :=
| self_write (count : Z) (msg : ifc_tag_msg)
| self_read (count : Z) (buf_writable : bool)
| tag_write
| tag_read (count : Z) (buf_writable : bool)
| process_write (count : Z) (msg : ifc_tag_msg)
| process_read (count : Z) (pid : Z) (buf_writable : bool).

(** The [ssize_t] a read hands back, without the buffer. *)
Definition status {A} (m : M (Z * A)) : M Z := r <- m ;; ret (fst r).

Definition ifc_file_call (MAX : nat)
    (sizeof_tag_t sizeof_ifc_tag_msg sizeof_ifc_context sizeof_ifc_context_msg : Z)
    (o : ifc_file_op) : M Z :=
  match o with
  | self_write count msg => ifc_write_self MAX sizeof_ifc_tag_msg count msg
  | self_read count w => status (ifc_read_self sizeof_ifc_context count w)
  | tag_write => ifc_write_tag
  | tag_read count w => status (ifc_read_tag MAX sizeof_tag_t count w)
  | process_write count msg => ifc_write_process MAX sizeof_ifc_tag_msg count msg
  | process_read count pid w => status (ifc_read_process sizeof_ifc_context_msg count pid w)
  end.

(** The size of the structure operation [o] moves. *)
Definition ifc_file_size
    (sizeof_tag_t sizeof_ifc_tag_msg sizeof_ifc_context sizeof_ifc_context_msg : Z)
    (o : ifc_file_op) : Z :=
  match o with
  | self_write _ _ | process_write _ _ => sizeof_ifc_tag_msg
  | self_read _ _ => sizeof_ifc_context
  | tag_write | tag_read _ _ => sizeof_tag_t
  | process_read _ _ _ => sizeof_ifc_context_msg
  end.

(** Every value [m] returns satisfies [P]. *)
Definition answers {A} (P : A -> Prop) (m : M A) : Prop :=
  forall st a st', m st = Done a st' -> P a.

(** The errno values an operation that calls no tag-set operation of
    [linux/ifc.h] can answer with; the other operations hand the status
    of such a call on. *)
Definition ifc_own_errors (o : ifc_file_op) : option (list Z) :=
  match o with
  | self_read _ _ => Some [ENOMEM; EAGAIN]
  | tag_write => Some [EPERM]
  | process_read _ _ _ => Some [ENOMEM; EINVAL; EAGAIN]
  | _ => None
  end.

(** Whether the capture of the name of node [n] can go through: either
    there is nothing to capture (the node is named already or not
    tracked), or there is memory for the buffer and the long record. *)
Definition can_capture (st : kstate) (n : prov_msg_t) : bool :=
  negb (negb (name_recorded n) && tracked n) || negb (slab_empty st).

(** The identifier [provenance_inode_alloc_security] leaves in the node
    of inode [i]: the inode number, unless that number is the sentinel of
    [set_node_id], which draws a generated identifier instead. *)
Definition inode_node_id (st : kstate) (i : inode) : Z :=
  if i_ino i =? ASSIGN_NODE_ID then next_node_id st else i_ino i.

(** [Demo.st] with inode 6 numbered like the sentinel of [set_node_id]. *)
Definition st_ino0 : kstate :=
  set_inodes
    (<[6%nat := {| i_ino := ASSIGN_NODE_ID; i_uid := 0; i_gid := 0; i_mode := 420;
                   i_private := false; i_sb := 0%nat; i_provenance := None;
                   i_ifc := Some empty_context |}]> (inodes Demo.st))
    Demo.st.

(** ** Reading a request on the [process] file

    Not code: what a request asks for and what the state holds for it,
    used to state the answers of [ifc_write_process]. *)

Definition is_add (o : ifc_op) : bool :=
  match o with IFC_ADD_TAG => true | _ => false end.

(** Whether context [x] holds tag [t] in the privilege set of kind [k]. *)
Definition holds_privilege (x : ifc_context) (k : ifc_kind) (t : tag_t) : bool :=
  is_privilege_kind k
  && match label_of k x with
     | Some l => ifc_contains_value l t
     | None => false
     end.

(** What [context_from_pid] finds for pid [p]: the credential of the task,
    when the task exists and its credential carries a context. *)
Definition target_of (st : kstate) (p : Z) : option nat :=
  match tasks st !! p with
  | Some q =>
      match creds st !! q with
      | Some c => match cred_ifc c with Some _ => Some q | None => None end
      | None => None
      end
  | None => None
  end.

(** The task with pid [p], if there is one, points to a credential. *)
Definition task_cred_live (st : kstate) (p : Z) : bool :=
  match tasks st !! p with
  | Some q => match creds st !! q with Some _ => true | None => false end
  | None => true
  end.

(** A request that passes every test [ifc_write_process] makes before it
    looks at the privileges of its author. *)
Definition well_formed_add (st : kstate) (msg : ifc_tag_msg) : bool :=
  ifc_tag_valid (tag msg)
  && match target_of st (pid msg) with Some _ => true | None => false end
  && is_add (op msg)
  && is_privilege_kind (tag_type msg).

(** ** Node identifiers of all nodes

    Not code: the invariant on the identifiers of live nodes, and the
    sequences of hooks it is stated for. *)









(** ** The states a hook can be entered in

    Not code: for each status-returning hook, the states on which its
    behaviour is decided by [hooks.c] alone.  The objects the hook is
    handed exist; the pointers it dereferences itself are set; the nodes
    it hands to the primitives of [linux/provenance.h] are live, since
    what those do with [NULL] is not in the sources; the allocator's next
    address is free; and where a name has to be captured there is memory
    for the long record, which [hooks.c] uses unchecked.  The node whose
    absence the hook itself tests for may be absent. *)

Definition live (st : kstate) (p : option nat) : bool :=
  match p with
  | Some a => match prov_heap st !! a with Some _ => true | None => false end
  | None => false
  end.

Definition fresh_addr (st : kstate) : bool :=
  match prov_heap st !! next_addr st with Some _ => false | None => true end.

(** The current credential exists and its node is live. *)
Definition current_live (st : kstate) : bool :=
  match creds st !! current_cred st with
  | Some c => live st (cred_provenance c)
  | None => false
  end.

(** Credential [c] exists and its node is live. *)
Definition cred_live (st : kstate) (c : nat) : bool :=
  match creds st !! c with
  | Some cr => live st (cred_provenance cr)
  | None => false
  end.

(** Sock [sk] exists and its node is live. *)
Definition sock_live (st : kstate) (sk : nat) : bool :=
  match socks st !! sk with
  | Some s => live st (sk_provenance s)
  | None => false
  end.

(** Pointer [p] is to a live node, and the capture of its name can go
    through when [capture] asks for it. *)
Definition node_ready (st : kstate) (capture : bool) (p : option nat) : bool :=
  match p with
  | Some a => match prov_heap st !! a with
              | Some n => negb capture || can_capture st n
              | None => false
              end
  | None => false
  end.

(** [provenance_inode_alloc_security] finds what it dereferences: the
    inode's IFC context, and the superblock with its node. *)
Definition inode_alloc_ready (st : kstate) (i : inode) : bool :=
  match i_ifc i, sbs st !! i_sb i with
  | Some _, Some sb => live st (s_provenance sb) && fresh_addr st
  | _, _ => false
  end.

(** The inode exists and has a live node. *)
Definition inode_live (st : kstate) (capture : bool) (ino : nat) : bool :=
  match inodes st !! ino with
  | Some i => node_ready st capture (i_provenance i)
  | None => false
  end.

(** The inode exists and has a live node, or none and can be given one;
    with [capture], the name of the node can then be captured. *)
Definition inode_ready (st : kstate) (capture : bool) (ino : nat) : bool :=
  match inodes st !! ino with
  | Some i =>
      match i_provenance i with
      | Some _ => node_ready st capture (i_provenance i)
      | None =>
          inode_alloc_ready st i
          && match i_ifc i with
             | Some ctx =>
                 if capture && ifc_is_labelled ctx
                 then (2 <=? slab_avail st)%nat
                 else (1 <=? slab_avail st)%nat
             | None => false
             end
      end
  | None => false
  end.

Definition hook_ready (h : hook_call) (st : kstate) : bool :=
  match h with
  | cred_alloc_blank c =>
      match creds st !! c with Some _ => true | None => false end
  | cred_prepare new old =>
      cred_live st old && fresh_addr st
      && match creds st !! new with
         | Some n => match cred_ifc n with Some _ => true | None => false end
         | None => false
         end
  | task_fix_setuid new old => cred_live st old && cred_live st new
  | inode_alloc_security ino =>
      current_live st
      && match inodes st !! ino with
         | Some i => inode_alloc_ready st i
         | None => false
         end
  | inode_permission ino _ => current_live st && inode_ready st false ino
  | socket_sendmsg sock | socket_recvmsg sock =>
      current_live st && inode_ready st false (sock_inode sock)
  | file_permission f _ => current_live st && inode_live st true (f_inode f)
  | mmap_file None _ => current_live st
  | mmap_file (Some f) _ => current_live st && inode_live st true (f_inode f)
  | file_ioctl f | file_open f => current_live st && inode_ready st true (f_inode f)
  | inode_link => true
  | msg_msg_alloc_security m =>
      current_live st && fresh_addr st
      && match msgs st !! m with
         | Some msg => match msg_ifc msg with Some _ => true | None => false end
         | None => false
         end
  | msg_queue_msgsnd m =>
      current_live st
      && match msgs st !! m with
         | Some msg => live st (msg_provenance msg)
         | None => false
         end
  | msg_queue_msgrcv m target =>
      cred_live st target
      && match msgs st !! m with
         | Some msg => live st (msg_provenance msg)
         | None => false
         end
  | shm_alloc_security s =>
      current_live st && fresh_addr st
      && match shms st !! s with
         | Some shp => match shm_ifc shp with Some _ => true | None => false end
         | None => false
         end
  | shm_shmat s _ =>
      current_live st
      && match shms st !! s with
         | Some shp =>
             match shm_provenance shp with
             | Some _ => live st (shm_provenance shp)
             | None => true
             end
         | None => false
         end
  | sk_alloc_security sk =>
      match socks st !! sk with Some _ => true | None => false end
  | socket_post_create sock _ _ _ kern =>
      current_live st
      && match inodes st !! sock_inode sock with
         | Some i =>
             kern
             || (live st (i_provenance i)
                 && match socks st !! sock_sk sock with
                    | Some s =>
                        match sk_provenance s with
                        | Some _ => live st (sk_provenance s)
                        | None => fresh_addr st && (1 <=? slab_avail st)%nat
                        end
                    | None => false
                    end)
         | None => false
         end
  | socket_bind sock _ _ | socket_connect sock _ _ =>
      current_live st
      && match socks st !! sock_sk sock with
         | Some s =>
             current_opaque st
             || match sk_provenance s with
                | Some _ => node_ready st true (sk_provenance s)
                | None => true
                end
         | None => false
         end
  | socket_listen sock => current_live st && sock_live st (sock_sk sock)
  | socket_accept sock newsock =>
      current_live st && inode_live st false (sock_inode sock)
      && inode_live st false (sock_inode newsock)
  | unix_stream_connect sk other newsk =>
      current_live st && sock_live st sk && sock_live st newsk && sock_live st other
  | unix_may_send sock other =>
      sock_live st (sock_sk sock) && sock_live st (sock_sk other)
  | bprm_set_creds b =>
      match creds st !! bprm_cred b with Some _ => true | None => false end
  | sb_alloc_security sb =>
      match sbs st !! sb with Some _ => true | None => false end
  | sb_kern_mount sb _ =>
      match sbs st !! sb with
      | Some s => live st (s_provenance s)
      | None => false
      end
  end.


(** * Properties *)

(** ** Stepping monadic code *)

Lemma load_Some {A} (tbl : kstate -> gmap nat A) a x st :
  tbl st !! a = Some x -> load tbl (Some a) st = Done x st.
Proof. intros H. unfold load. now rewrite H. Qed.

Lemma bind_Done {A B} (m : M A) (k : A -> M B) st a st' :
  m st = Done a st' -> bind m k st = k a st'.
Proof. intros H. unfold bind. now rewrite H. Qed.

Lemma bind_Oops {A B} (m : M A) (k : A -> M B) st :
  m st = Oops -> bind m k st = Oops.
Proof. intros H. unfold bind. now rewrite H. Qed.

Lemma deref_ctx_Some a c x st :
  creds st !! a = Some c -> cred_ifc c = Some x ->
  deref_ctx (Some a) st = Done x st.
Proof.
  intros Hc Hx. unfold deref_ctx.
  rewrite (bind_Done _ _ _ _ _ (load_Some creds a c st Hc)). now rewrite Hx.
Qed.

Lemma current_ifc_Some c x st :
  creds st !! current_cred st = Some c -> cred_ifc c = Some x ->
  current_ifc st = Done (Some (current_cred st)) st.
Proof.
  intros Hc Hx. unfold current_ifc, get, bind. cbv beta iota.
  rewrite (load_Some creds _ c st Hc). now rewrite Hx.
Qed.

Lemma context_from_pid_None pid st :
  tasks st !! pid = None -> context_from_pid pid st = Done None st.
Proof.
  intros H. unfold context_from_pid, get, bind. cbv beta iota. now rewrite H.
Qed.

Lemma context_from_pid_Some pid q c x st :
  tasks st !! pid = Some q -> creds st !! q = Some c -> cred_ifc c = Some x ->
  context_from_pid pid st = Done (Some q) st.
Proof.
  intros H Hc Hx. unfold context_from_pid, get, bind. cbv beta iota. rewrite H.
  rewrite (load_Some creds _ c st Hc). now rewrite Hx.
Qed.

Lemma ifc_add_privilege_run MAX q c x k l t st :
  creds st !! q = Some c -> cred_ifc c = Some x ->
  is_privilege_kind k = true -> label_of k x = Some l ->
  ifc_add_privilege MAX (Some q) k t st =
    Done (fst (label_add MAX l t))
         (with_ctx q (with_label k (snd (label_add MAX l t)) x) st).
Proof.
  intros Hc Hx Hk Hl. unfold ifc_add_privilege.
  rewrite (bind_Done _ _ _ _ _ (deref_ctx_Some q c x st Hc Hx)).
  rewrite Hl, Hk. destruct (label_add MAX l t) as [rv l']. reflexivity.
Qed.

(** ** The [process] file *)

(** Only add is dispatched: with any other operation the request is
    answered [-EINVAL], whatever its author holds, and nothing changes. *)
Lemma ifc_write_process_other_op MAX sz count msg st actor actx q target tctx :
  sz <= count ->
  ifc_tag_valid (tag msg) = true ->
  creds st !! current_cred st = Some actor ->
  cred_ifc actor = Some actx ->
  tasks st !! pid msg = Some q ->
  creds st !! q = Some target ->
  cred_ifc target = Some tctx ->
  op msg <> IFC_ADD_TAG ->
  ifc_write_process MAX sz count msg st = Done (- EINVAL) st.
Proof.
  intros Hsz Hv Ha Hactx Ht Hq Htctx Hop. unfold ifc_write_process.
  rewrite (bind_Done _ _ _ _ _ (current_ifc_Some actor actx st Ha Hactx)).
  destruct (Z.ltb_spec count sz) as [Hlt|_]; [lia|].
  rewrite Hv. cbn [negb].
  rewrite (bind_Done _ _ _ _ _ (context_from_pid_Some _ q target tctx st Ht Hq Htctx)).
  destruct (op msg); [contradiction | reflexivity..].
Qed.

(** What [context_from_pid] answers, in one equation. *)
Lemma context_from_pid_run pid st :
  task_cred_live st pid = true ->
  context_from_pid pid st = Done (target_of st pid) st.
Proof.
  unfold task_cred_live, target_of, context_from_pid, get, bind, load.
  cbv beta iota.
  destruct (tasks st !! pid) as [q|]; [|reflexivity].
  destruct (creds st !! q) as [c|]; [|discriminate]. reflexivity.
Qed.

(** C1, as amended.  A request on the [process] file, whatever its
    operation and however ill-formed, whose author does not hold the tag
    in the privilege set the request names, changes nothing: the target's
    context, every other credential and the provenance log are as before.
    It is answered [-EPERM], [PermissionDenied], exactly when it passes
    the tests made before the privilege is looked at, that is when it is
    long enough, carries a valid tag, names an existing target with a
    context, asks for an add and names a privilege set; a request that is
    too short is answered [-ENOMEM] and every other one [-EINVAL]. *)
Theorem ifc_write_process_unprivileged MAX sz count msg st actor actx :
  creds st !! current_cred st = Some actor ->
  cred_ifc actor = Some actx ->
  task_cred_live st (pid msg) = true ->
  holds_privilege actx (tag_type msg) (tag msg) = false ->
  ifc_write_process MAX sz count msg st
  = Done (if count <? sz then - ENOMEM
          else if well_formed_add st msg then - EPERM
          else - EINVAL) st
  /\ classify (- EPERM) = Some PermissionDenied.
Proof.
  intros Ha Hactx Hlive Hnot. split; [|reflexivity].
  unfold ifc_write_process, well_formed_add.
  rewrite (bind_Done _ _ _ _ _ (current_ifc_Some actor actx st Ha Hactx)).
  destruct (count <? sz); [reflexivity|].
  destruct (ifc_tag_valid (tag msg)); cbn [negb andb]; [|reflexivity].
  rewrite (bind_Done _ _ _ _ _ (context_from_pid_run _ st Hlive)).
  destruct (target_of st (pid msg)) as [q|]; cbn [andb]; [|reflexivity].
  cbv zeta. unfold holds_privilege in Hnot.
  destruct (op msg); cbn [is_add andb]; [|reflexivity..].
  destruct (tag_type msg); cbn [is_privilege_kind andb label_of] in *;
    try reflexivity;
    rewrite (bind_Done _ _ _ _ _ (deref_ctx_Some _ actor actx st Ha Hactx));
    rewrite Hnot; reflexivity.
Qed.

Lemma label_add_fresh MAX l t :
  ifc_tag_valid t = true -> ifc_contains_value l t = false ->
  (length l < MAX)%nat -> label_add MAX l t = (0, l ++ [t]).
Proof.
  intros Hv Hn Hr. unfold label_add. rewrite Hv, Hn. cbn [negb].
  destruct (Nat.leb_spec MAX (length l)); [lia | reflexivity].
Qed.

Lemma label_add_member MAX l t :
  fst (label_add MAX l t) = 0 -> t ∈ snd (label_add MAX l t).
Proof.
  unfold label_add, ifc_contains_value.
  destruct (ifc_tag_valid t); cbn; [|discriminate].
  case_bool_decide as Hin; cbn; [auto|].
  destruct (MAX <=? length l)%nat; cbn; [discriminate|].
  intros _. apply elem_of_app. right. apply list_elem_of_singleton. reflexivity.
Qed.

Lemma label_of_with_label k l x :
  is_privilege_kind k = true -> label_of k (with_label k l x) = Some l.
Proof. destruct k; intros H; try discriminate H; reflexivity. Qed.

Lemma with_ctx_lookup q x c st :
  creds st !! q = Some c ->
  creds (with_ctx q x st) !! q = Some (set_cred_ifc (Some x) c).
Proof. intros H. cbn. rewrite lookup_alter_eq, H. reflexivity. Qed.

Lemma with_ctx_lookup_ne q q' x st :
  q <> q' -> creds (with_ctx q x st) !! q' = creds st !! q'.
Proof. intros H. cbn. now rewrite lookup_alter_ne. Qed.

Lemma ifc_write_process_not_found MAX sz count msg st actor actx :
  sz <= count ->
  ifc_tag_valid (tag msg) = true ->
  creds st !! current_cred st = Some actor ->
  cred_ifc actor = Some actx ->
  tasks st !! pid msg = None ->
  ifc_write_process MAX sz count msg st = Done (- EINVAL) st.
Proof.
  intros Hsz Hv Ha Hactx Hnone. unfold ifc_write_process.
  rewrite (bind_Done _ _ _ _ _ (current_ifc_Some actor actx st Ha Hactx)).
  destruct (Z.ltb_spec count sz) as [Hlt|_]; [lia|].
  rewrite Hv. cbn [negb].
  rewrite (bind_Done _ _ _ _ _ (context_from_pid_None _ st Hnone)).
  reflexivity.
Qed.

Lemma ifc_write_process_found MAX sz count msg st actor actx l q target tctx tl :
  sz <= count ->
  ifc_tag_valid (tag msg) = true ->
  op msg = IFC_ADD_TAG ->
  is_privilege_kind (tag_type msg) = true ->
  creds st !! current_cred st = Some actor ->
  cred_ifc actor = Some actx ->
  label_of (tag_type msg) actx = Some l ->
  ifc_contains_value l (tag msg) = true ->
  tasks st !! pid msg = Some q ->
  creds st !! q = Some target ->
  cred_ifc target = Some tctx ->
  label_of (tag_type msg) tctx = Some tl ->
  ifc_write_process MAX sz count msg st =
    let r := label_add MAX tl (tag msg) in
    Done (if fst r =? 0 then sz else fst r)
         (with_ctx q (with_label (tag_type msg) (snd r) tctx) st).
Proof.
  intros Hsz Hv Hop Hk Ha Hactx Hl Hin Ht Hq Htctx Htl. unfold ifc_write_process.
  rewrite (bind_Done _ _ _ _ _ (current_ifc_Some actor actx st Ha Hactx)).
  destruct (Z.ltb_spec count sz) as [Hlt|_]; [lia|].
  rewrite Hv. cbn [negb].
  rewrite (bind_Done _ _ _ _ _ (context_from_pid_Some _ q target tctx st Ht Hq Htctx)).
  rewrite Hop.
  destruct (tag_type msg) eqn:Ek; try discriminate Hk; cbn in Hl; injection Hl as <-;
    rewrite (bind_Done _ _ _ _ _ (deref_ctx_Some _ actor actx st Ha Hactx));
    rewrite Hin; cbn [negb];
    rewrite (bind_Done _ _ _ _ _
               (ifc_add_privilege_run MAX q target tctx _ tl (tag msg) st Hq Htctx Hk Htl));
    cbv zeta; destruct (fst (label_add MAX tl (tag msg)) =? 0); reflexivity.
Qed.


(** An add that finds room leaves the tag in the target's set. *)
Lemma ifc_write_process_delegates MAX sz count msg st actor actx l q target tctx tl :
  sz <= count ->
  ifc_tag_valid (tag msg) = true ->
  is_privilege_kind (tag_type msg) = true ->
  creds st !! current_cred st = Some actor ->
  cred_ifc actor = Some actx ->
  label_of (tag_type msg) actx = Some l ->
  ifc_contains_value l (tag msg) = true ->
  tasks st !! pid msg = Some q ->
  creds st !! q = Some target ->
  cred_ifc target = Some tctx ->
  label_of (tag_type msg) tctx = Some tl ->
  ifc_contains_value tl (tag msg) = false ->
  (length tl < MAX)%nat ->
  op msg = IFC_ADD_TAG ->
  exists st',
    ifc_write_process MAX sz count msg st = Done sz st'
    /\ creds st' !! q
       = Some (set_cred_ifc
                 (Some (with_label (tag_type msg) (tl ++ [tag msg]) tctx)) target)
    /\ relay st' = relay st.
Proof.
  intros Hsz Hv Hk Ha Hactx Hl Hin Ht Hq Htctx Htl Hfresh Hroom Hop.
  rewrite (ifc_write_process_found MAX sz count msg st actor actx l q target tctx tl
             Hsz Hv Hop Hk Ha Hactx Hl Hin Ht Hq Htctx Htl).
  rewrite (label_add_fresh MAX tl (tag msg) Hv Hfresh Hroom). cbn [fst snd].
  eexists. split; [reflexivity|]. split; [|reflexivity].
  now apply with_ctx_lookup.
Qed.

(** C1, as stated, fails on a remove: P holds no privilege over tag 9 and
    asks to remove it from Q; the answer is [-EINVAL], which is
    [InvalidArgument] and not [PermissionDenied]. *)
Lemma ifc_write_process_remove_not_eperm :
  ifc_contains_value (secrecy_p Demo.ctx_P) 9 = false
  /\ ifc_write_process Demo.MAX Demo.sizeof_ifc_tag_msg 16 Demo.remove_9 Demo.st
     = Done (- EINVAL) Demo.st
  /\ classify (- EINVAL) = Some InvalidArgument
  /\ classify (- EINVAL) <> Some PermissionDenied.
Proof.
  split; [reflexivity|]. split; [|split; [reflexivity|discriminate]].
  vm_compute. reflexivity.
Qed.

Lemma ifc_write_process_unprivileged_witness :
  ifc_write_process Demo.MAX Demo.sizeof_ifc_tag_msg 16 Demo.add_9 Demo.st
  = Done (if 16 <? Demo.sizeof_ifc_tag_msg then - ENOMEM
          else if well_formed_add Demo.st Demo.add_9 then - EPERM
          else - EINVAL) Demo.st
  /\ classify (- EPERM) = Some PermissionDenied.
Proof.
  apply (ifc_write_process_unprivileged Demo.MAX Demo.sizeof_ifc_tag_msg 16
           Demo.add_9 Demo.st Demo.cred_P Demo.ctx_P);
    reflexivity.
Defined.

(** On the machine above: the add of tag 9 is answered [-EPERM], its
    remove [-EINVAL], a request one byte short [-ENOMEM]. *)
Example ifc_write_process_unprivileged_answers :
  well_formed_add Demo.st Demo.add_9 = true
  /\ well_formed_add Demo.st Demo.remove_9 = false
  /\ retval (ifc_write_process Demo.MAX Demo.sizeof_ifc_tag_msg 16 Demo.add_9 Demo.st)
     = Some (- EPERM)
  /\ retval (ifc_write_process Demo.MAX Demo.sizeof_ifc_tag_msg 16 Demo.remove_9 Demo.st)
     = Some (- EINVAL)
  /\ retval (ifc_write_process Demo.MAX Demo.sizeof_ifc_tag_msg 15 Demo.add_9 Demo.st)
     = Some (- ENOMEM).
Proof. vm_compute. auto. Qed.



(** ** The [tag] file *)

Lemma label_add_ok MAX l t :
  ifc_tag_valid t = true -> (length l < MAX)%nat ->
  fst (label_add MAX l t) = 0 /\ t ∈ snd (label_add MAX l t).
Proof.
  intros Hv Hr.
  assert (fst (label_add MAX l t) = 0) as H0.
  { unfold label_add. rewrite Hv. cbn [negb].
    destruct (ifc_contains_value l t); [reflexivity|].
    destruct (Nat.leb_spec MAX (length l)); [lia | reflexivity]. }
  split; [exact H0 | now apply label_add_member].
Qed.

Lemma final_bind_ext {A B C} (m : M A) (k1 : A -> M B) (k2 : A -> M C) st :
  (forall a st', final (k1 a st') = final (k2 a st')) ->
  final (bind m k1 st) = final (bind m k2 st).
Proof. intros H. unfold bind. destruct (m st); [apply H | reflexivity]. Qed.

(** Whether the copy to the caller succeeds has no bearing on the state
    [ifc_read_tag] leaves. *)
Lemma ifc_read_tag_final MAX sz count writable st :
  final (ifc_read_tag MAX sz count writable st)
  = final (ifc_read_tag MAX sz count true st).
Proof.
  unfold ifc_read_tag.
  apply final_bind_ext; intros cifc st1.
  destruct (count <? sz); [reflexivity|].
  do 5 (apply final_bind_ext; intros ? ?).
  destruct (_ <? 0); [reflexivity|]. destruct writable; reflexivity.
Qed.

(** The context after the four grants of [ifc_read_tag]. *)
Lemma ifc_read_tag_grants MAX sz count writable st c x :
  sz <= count ->
  creds st !! current_cred st = Some c ->
  cred_ifc c = Some x ->
  ifc_tag_valid (next_tag st) = true ->
  (length (secrecy_p x) < MAX)%nat ->
  (length (integrity_p x) < MAX)%nat ->
  (length (secrecy_n x) < MAX)%nat ->
  (length (integrity_n x) < MAX)%nat ->
  exists st' x',
    ifc_read_tag MAX sz count writable st
    = Done (if writable then (sz, Some (next_tag st)) else (- EAGAIN, None)) st'
    /\ next_tag st' = next_tag st + 1
    /\ (cred_ifc <$> creds st' !! current_cred st') = Some (Some x')
    /\ next_tag st ∈ secrecy_p x' /\ next_tag st ∈ integrity_p x'
    /\ next_tag st ∈ secrecy_n x' /\ next_tag st ∈ integrity_n x'
    /\ secrecy x' = secrecy x /\ integrity x' = integrity x.
Proof.
  intros Hsz Hc Hx Hv H1 H2 H3 H4.
  set (t := next_tag st) in *.
  destruct (label_add_ok MAX (secrecy_p x) t Hv H1) as [E1 M1].
  destruct (label_add_ok MAX (integrity_p x) t Hv H2) as [E2 M2].
  destruct (label_add_ok MAX (secrecy_n x) t Hv H3) as [E3 M3].
  destruct (label_add_ok MAX (integrity_n x) t Hv H4) as [E4 M4].
  unfold ifc_read_tag.
  rewrite (bind_Done _ _ _ _ _ (current_ifc_Some c x st Hc Hx)).
  destruct (Z.ltb_spec count sz) as [Hlt|_]; [lia|].
  unfold ifc_create_tag at 1. unfold bind at 1. fold t.
  set (st0 := set_next_tag (t + 1) st).
  assert (creds st0 !! current_cred st = Some c) as Hc0 by exact Hc.
  erewrite (bind_Done _ _ _ _ _
    (ifc_add_privilege_run MAX _ c x IFC_SECRECY_P _ t st0 Hc0 Hx eq_refl eq_refl)).
  set (x1 := with_label IFC_SECRECY_P _ x). set (st1 := with_ctx _ x1 st0).
  pose proof (with_ctx_lookup _ x1 c st0 Hc0) as Hc1. fold st1 in Hc1.
  erewrite (bind_Done _ _ _ _ _
    (ifc_add_privilege_run MAX _ _ x1 IFC_INTEGRITY_P _ t st1 Hc1 eq_refl eq_refl eq_refl)).
  set (x2 := with_label IFC_INTEGRITY_P _ x1). set (st2 := with_ctx _ x2 st1).
  pose proof (with_ctx_lookup _ x2 _ st1 Hc1) as Hc2. fold st2 in Hc2.
  erewrite (bind_Done _ _ _ _ _
    (ifc_add_privilege_run MAX _ _ x2 IFC_SECRECY_N _ t st2 Hc2 eq_refl eq_refl eq_refl)).
  set (x3 := with_label IFC_SECRECY_N _ x2). set (st3 := with_ctx _ x3 st2).
  pose proof (with_ctx_lookup _ x3 _ st2 Hc2) as Hc3. fold st3 in Hc3.
  erewrite (bind_Done _ _ _ _ _
    (ifc_add_privilege_run MAX _ _ x3 IFC_INTEGRITY_N _ t st3 Hc3 eq_refl eq_refl eq_refl)).
  set (x4 := with_label IFC_INTEGRITY_N _ x3). set (st4 := with_ctx _ x4 st3).
  pose proof (with_ctx_lookup _ x4 _ st3 Hc3) as Hc4. fold st4 in Hc4.
  cbn [label_of secrecy_p integrity_p secrecy_n integrity_n with_label x1 x2 x3] in *.
  rewrite E1, E2, E3, E4. cbn [Z.lor Z.ltb Z.compare].
  exists st4, x4. split.
  { unfold copy_to_user. destruct writable; reflexivity. }
  split; [reflexivity|]. split.
  { change (current_cred st4) with (current_cred st). rewrite Hc4. reflexivity. }
  subst x4 x3 x2 x1. cbn. auto 10.
Qed.

(** C10.  In [ifc_read_tag] the tag is drawn and the four privileges are
    granted before the copy to the caller.  When that copy fails the call
    answers [-EAGAIN], a transient error, nothing reaches the caller's
    buffer, and the kernel state is the very state a successful call
    leaves: the counter has moved on and the caller's context holds the
    new tag in all four privilege sets. *)
Theorem ifc_read_tag_copy_fails MAX sz count st c x :
  sz <= count ->
  creds st !! current_cred st = Some c ->
  cred_ifc c = Some x ->
  ifc_tag_valid (next_tag st) = true ->
  (length (secrecy_p x) < MAX)%nat ->
  (length (integrity_p x) < MAX)%nat ->
  (length (secrecy_n x) < MAX)%nat ->
  (length (integrity_n x) < MAX)%nat ->
  exists st' x',
    ifc_read_tag MAX sz count false st = Done (- EAGAIN, None) st'
    /\ classify (- EAGAIN) = Some TransientIO
    /\ ifc_read_tag MAX sz count true st = Done (sz, Some (next_tag st)) st'
    /\ next_tag st' = next_tag st + 1
    /\ (cred_ifc <$> creds st' !! current_cred st') = Some (Some x')
    /\ ifc_contains_value (secrecy_p x') (next_tag st) = true
    /\ ifc_contains_value (integrity_p x') (next_tag st) = true
    /\ ifc_contains_value (secrecy_n x') (next_tag st) = true
    /\ ifc_contains_value (integrity_n x') (next_tag st) = true.
Proof.
  intros Hsz Hc Hx Hv H1 H2 H3 H4.
  destruct (ifc_read_tag_grants MAX sz count false st c x Hsz Hc Hx Hv H1 H2 H3 H4)
    as (st' & x' & Hrun & Hctr & Hctx & M1 & M2 & M3 & M4 & _).
  destruct (ifc_read_tag_grants MAX sz count true st c x Hsz Hc Hx Hv H1 H2 H3 H4)
    as (st2 & _ & Hrun2 & _).
  pose proof (ifc_read_tag_final MAX sz count false st) as Hfin.
  rewrite Hrun, Hrun2 in Hfin. cbn in Hfin. injection Hfin as <-.
  exists st', x'. unfold ifc_contains_value.
  rewrite Hrun, Hrun2, !bool_decide_eq_true.
  repeat split; assumption.
Qed.

Lemma ifc_read_tag_copy_fails_witness :
  exists st' x',
    ifc_read_tag Demo.MAX Demo.sizeof_tag_t 8 false Demo.st = Done (- EAGAIN, None) st'
    /\ classify (- EAGAIN) = Some TransientIO
    /\ ifc_read_tag Demo.MAX Demo.sizeof_tag_t 8 true Demo.st
       = Done (Demo.sizeof_tag_t, Some 10) st'
    /\ next_tag st' = 11
    /\ (cred_ifc <$> creds st' !! current_cred st') = Some (Some x')
    /\ ifc_contains_value (secrecy_p x') 10 = true
    /\ ifc_contains_value (integrity_p x') 10 = true
    /\ ifc_contains_value (secrecy_n x') 10 = true
    /\ ifc_contains_value (integrity_n x') 10 = true.
Proof.
  apply (ifc_read_tag_copy_fails Demo.MAX Demo.sizeof_tag_t 8 Demo.st
           Demo.cred_P Demo.ctx_P); try reflexivity; cbn; unfold Demo.MAX; lia.
Defined.

(** ** Provenance primitives *)

Lemma current_provenance_run c st :
  creds st !! current_cred st = Some c ->
  current_provenance st = Done (cred_provenance c) st.
Proof.
  intros H. unfold current_provenance, get, bind. cbv beta iota.
  now rewrite (load_Some creds _ c st H).
Qed.

Lemma inode_get_provenance_run ino i st :
  inodes st !! ino = Some i ->
  inode_get_provenance ino st = Done (i_provenance i) st.
Proof.
  intros H. unfold inode_get_provenance.
  now rewrite (bind_Done _ _ _ _ _ (load_Some inodes _ i st H)).
Qed.

Lemma record_edge_run ty a b f t allowed st :
  prov_heap st !! a = Some f -> prov_heap st !! b = Some t ->
  record_edge ty (Some a) (Some b) allowed st
  = Done tt (emit (EdgeRecord ty (node_id f) (node_id t) allowed) st).
Proof.
  intros Ha Hb. unfold record_edge.
  rewrite (bind_Done _ _ _ _ _ (load_Some prov_heap _ f st Ha)).
  now rewrite (bind_Done _ _ _ _ _ (load_Some prov_heap _ t st Hb)).
Qed.

Lemma record_edge_null_from ty to allowed st :
  record_edge ty None to allowed st = Oops.
Proof. reflexivity. Qed.

Lemma record_edge_null_to ty from allowed st :
  record_edge ty from None allowed st = Oops.
Proof.
  unfold record_edge, bind. destruct (load prov_heap from st); reflexivity.
Qed.

Lemma alloc_provenance_run ty n st :
  slab_avail st = S n ->
  alloc_provenance ty st
  = Done (Some (next_addr st))
         (set_prov_heap (<[next_addr st := zeroed ty]> (prov_heap st))
            (set_next_addr (S (next_addr st)) (set_slab_avail n st))).
Proof. intros H. unfold alloc_provenance. now rewrite H. Qed.

Lemma alloc_provenance_fail ty st :
  slab_avail st = O -> alloc_provenance ty st = Done None st.
Proof. intros H. unfold alloc_provenance. now rewrite H. Qed.

Lemma update_node_run a n f st :
  prov_heap st !! a = Some n ->
  update_node (Some a) f st
  = Done tt (set_prov_heap (<[a := f n]> (prov_heap st)) st).
Proof.
  intros H. unfold update_node.
  now rewrite (bind_Done _ _ _ _ _ (load_Some prov_heap _ n st H)).
Qed.

Lemma set_node_id_assign_run a n st :
  prov_heap st !! a = Some n ->
  set_node_id (Some a) ASSIGN_NODE_ID st
  = Done tt (set_next_node_id (next_node_id st + 1)
               (set_prov_heap
                  (<[a := set_node_id_field (next_node_id st) n]> (prov_heap st)) st)).
Proof.
  intros H. unfold set_node_id, get, bind. rewrite Z.eqb_refl. cbv beta iota.
  now rewrite (update_node_run a n _ st H).
Qed.

Lemma set_node_id_given_run a n i st :
  i <> ASSIGN_NODE_ID ->
  prov_heap st !! a = Some n ->
  set_node_id (Some a) i st
  = Done tt (set_prov_heap (<[a := set_node_id_field i n]> (prov_heap st)) st).
Proof.
  intros Hi H. unfold set_node_id. apply Z.eqb_neq in Hi. rewrite Hi.
  now apply update_node_run.
Qed.

Lemma modify_run f st : modify f st = Done tt (f st).
Proof. reflexivity. Qed.

Lemma ret_run {A} (a : A) st : ret a st = Done a st.
Proof. reflexivity. Qed.

Lemma provenance_is_name_recorded_run a n st :
  prov_heap st !! a = Some n ->
  provenance_is_name_recorded (Some a) st = Done (name_recorded n) st.
Proof.
  intros H. unfold provenance_is_name_recorded.
  now rewrite (bind_Done _ _ _ _ _ (load_Some prov_heap _ n st H)).
Qed.

Lemma provenance_is_tracked_run a n st :
  prov_heap st !! a = Some n ->
  provenance_is_tracked (Some a) st = Done (tracked n) st.
Proof.
  intros H. unfold provenance_is_tracked.
  now rewrite (bind_Done _ _ _ _ _ (load_Some prov_heap _ n st H)).
Qed.

Lemma kzalloc_run n st : slab_avail st = S n -> kzalloc st = Done true st.
Proof. intros H. unfold kzalloc. now rewrite H. Qed.

Lemma alloc_long_provenance_run k n st :
  slab_avail st = S n ->
  alloc_long_provenance k st
  = Done (Some {| long_type := k; long_payload := []; long_length := 0 |}) st.
Proof. intros H. unfold alloc_long_provenance. now rewrite H. Qed.

Lemma long_record_edge_run ty a f l allowed st :
  prov_heap st !! a = Some f ->
  long_record_edge ty (Some a) l allowed st
  = Done tt (emit (LongEdgeRecord ty (node_id f) (long_type l) allowed) st).
Proof.
  intros Ha. unfold long_record_edge.
  now rewrite (bind_Done _ _ _ _ _ (load_Some prov_heap _ f st Ha)).
Qed.

(** Normal form of a state expression. *)
Ltac norm :=
  cbn [prov_heap next_addr slab_avail next_node_id relay_up relay released
       next_tag current_cred creds tasks inodes msgs shms socks sbs
       set_prov_heap set_next_addr set_slab_avail set_next_node_id
       set_relay_up set_relay set_released set_next_tag set_creds
       set_inodes set_msgs set_shms set_socks set_sbs emit with_ctx] in *.

Ltac lookup_now :=
  norm;
  first [ eassumption
        | apply lookup_insert_eq
        | rewrite lookup_insert_ne by congruence; lookup_now
        | rewrite lookup_alter_eq; lookup_now
        | rewrite lookup_alter_ne by congruence; lookup_now ].

(** One step of a computation whose first action is a primitive. *)
Ltac run1 :=
  erewrite bind_Done by
    (first [ eapply current_provenance_run
           | eapply inode_get_provenance_run
           | eapply load_Some
           | eapply alloc_provenance_run
           | eapply set_node_id_assign_run
           | eapply set_node_id_given_run
           | eapply update_node_run
           | eapply record_edge_run
           | eapply provenance_is_name_recorded_run
           | eapply provenance_is_tracked_run
           | eapply kzalloc_run
           | eapply alloc_long_provenance_run
           | eapply long_record_edge_run
           | eapply modify_run
           | eapply ret_run ]; lookup_now);
  norm.

(** ** Message queues *)

(** C9.  On receive the hook records one READ edge from the message's
    node to the node of the recipient's credential, whatever the current
    task is; on send it records one WRITE edge from the node of the
    current credential to the message's node.  Both answer 0. *)
Theorem msg_queue_edges st m msg mp mn target tc tp tn cc cp cn :
  msgs st !! m = Some msg ->
  msg_provenance msg = Some mp ->
  prov_heap st !! mp = Some mn ->
  creds st !! target = Some tc ->
  cred_provenance tc = Some tp ->
  prov_heap st !! tp = Some tn ->
  creds st !! current_cred st = Some cc ->
  cred_provenance cc = Some cp ->
  prov_heap st !! cp = Some cn ->
  provenance_msg_queue_msgrcv m target st
  = Done 0 (emit (EdgeRecord ED_READ (node_id mn) (node_id tn) FLOW_ALLOWED) st)
  /\ provenance_msg_queue_msgsnd m st
     = Done 0 (emit (EdgeRecord ED_WRITE (node_id cn) (node_id mn) FLOW_ALLOWED) st).
Proof.
  intros Hm Hmp Hmn Ht Htp Htn Hc Hcp Hcn. split.
  - unfold provenance_msg_queue_msgrcv.
    rewrite (bind_Done _ _ _ _ _ (load_Some creds _ tc st Ht)).
    rewrite (bind_Done _ _ _ _ _ (load_Some msgs _ msg st Hm)).
    rewrite Hmp, Htp.
    now rewrite (bind_Done _ _ _ _ _ (record_edge_run ED_READ mp tp mn tn _ st Hmn Htn)).
  - unfold provenance_msg_queue_msgsnd.
    rewrite (bind_Done _ _ _ _ _ (current_provenance_run cc st Hc)).
    rewrite (bind_Done _ _ _ _ _ (load_Some msgs _ msg st Hm)).
    rewrite Hmp, Hcp.
    now rewrite (bind_Done _ _ _ _ _ (record_edge_run ED_WRITE cp mp cn mn _ st Hcn Hmn)).
Qed.

(** P is the current task and Q the recipient: the READ edge ends at Q's
    node, identifier 2, and the WRITE edge starts at P's, identifier 1. *)
Lemma msg_queue_edges_witness :
  provenance_msg_queue_msgrcv 1 2 Demo.st
  = Done 0 (emit (EdgeRecord ED_READ 3 2 FLOW_ALLOWED) Demo.st)
  /\ provenance_msg_queue_msgsnd 1 Demo.st
     = Done 0 (emit (EdgeRecord ED_WRITE 1 3 FLOW_ALLOWED) Demo.st).
Proof.
  apply (msg_queue_edges Demo.st 1
           {| m_type := 1; msg_ifc := Some empty_context; msg_provenance := Some 4%nat |}
           4 (Demo.node MSG_MSG 3 false)
           2 Demo.cred_Q 1 (Demo.node MSG_TASK 2 true)
           Demo.cred_P 0 (Demo.node MSG_TASK 1 false)); reflexivity.
Defined.

(** ** Releasing an inode's record *)

(** C3, the code at work.  [provenance_inode_free_security] hands its
    record to [free_provenance] only when there is none: an inode that has
    a record keeps it allocated, the deallocator is not called, and the
    inode's pointer to the record is cleared; an inode without a record
    has [NULL] handed to the deallocator. *)
Theorem provenance_inode_free_security_leaks st ino i :
  inodes st !! ino = Some i ->
  exists st',
    provenance_inode_free_security ino st = Done tt st'
    /\ (i_provenance <$> inodes st' !! ino) = Some None
    /\ prov_heap st' = prov_heap st
    /\ released st' = match i_provenance i with
                      | Some _ => released st
                      | None => None :: released st
                      end.
Proof.
  intros Hi. unfold provenance_inode_free_security.
  rewrite (bind_Done _ _ _ _ _ (inode_get_provenance_run ino i st Hi)).
  destruct (i_provenance i) as [a|]; eexists; (split; [reflexivity|]); cbn;
    rewrite lookup_alter_eq, Hi; auto.
Qed.

(** Inode 5 owns record 3: after the free hook the record is still in the
    cache, nothing was released, and no pointer to it is left. *)
Lemma provenance_inode_free_security_leaks_witness :
  exists st',
    provenance_inode_free_security 5 Demo.st = Done tt st'
    /\ (i_provenance <$> inodes st' !! 5%nat) = Some None
    /\ prov_heap st' = prov_heap Demo.st
    /\ released st' = [].
Proof.
  apply (provenance_inode_free_security_leaks Demo.st 5 Demo.inode_5). reflexivity.
Defined.

(** The sibling hooks release what they are given. *)
Lemma provenance_cred_free_releases st c cr :
  creds st !! c = Some cr ->
  exists st',
    provenance_cred_free c st = Done tt st'
    /\ released st' = cred_provenance cr :: released st
    /\ (forall a, cred_provenance cr = Some a -> prov_heap st' !! a = None).
Proof.
  intros Hc. unfold provenance_cred_free.
  rewrite (bind_Done _ _ _ _ _ (load_Some creds _ cr st Hc)).
  eexists. split; [reflexivity|]. split; [reflexivity|].
  intros a ->. cbn. apply lookup_delete_eq.
Qed.

(** ** Labels at node allocation *)

(** C4, the code at work.  A message that carries an IFC context, labelled
    or not, gets a node that is not tracked and holds no snapshot of the
    tag sets: the hook looks at the context only under [if(!ifc)]. *)
Theorem provenance_msg_msg_alloc_security_untracked st m msg ctx n cc cp cn :
  msgs st !! m = Some msg ->
  msg_ifc msg = Some ctx ->
  slab_avail st = S n ->
  creds st !! current_cred st = Some cc ->
  cred_provenance cc = Some cp ->
  prov_heap st !! cp = Some cn ->
  cp <> next_addr st ->
  exists st' node,
    provenance_msg_msg_alloc_security m st = Done 0 st'
    /\ (msg_provenance <$> msgs st' !! m) = Some (Some (next_addr st))
    /\ prov_heap st' !! next_addr st = Some node
    /\ tracked node = false
    /\ ifc_snapshot node = None.
Proof.
  intros Hm Hifc Hs Hc Hcp Hcn Hne.
  unfold provenance_msg_msg_alloc_security.
  do 5 run1. rewrite Hifc. do 2 run1. rewrite Hcp. run1.
  eexists _, _. split; [reflexivity|]. norm.
  rewrite lookup_alter_eq, Hm, lookup_insert_eq. auto.
Qed.

(** Message 0 carries Q's context, which is labelled. *)
Lemma provenance_msg_msg_alloc_security_untracked_witness :
  ifc_is_labelled Demo.ctx_Q = true
  /\ exists st' node,
       provenance_msg_msg_alloc_security 0 Demo.st = Done 0 st'
       /\ (msg_provenance <$> msgs st' !! 0%nat) = Some (Some 10%nat)
       /\ prov_heap st' !! 10%nat = Some node
       /\ tracked node = false
       /\ ifc_snapshot node = None.
Proof.
  split; [reflexivity|].
  apply (provenance_msg_msg_alloc_security_untracked Demo.st 0
           {| m_type := 1; msg_ifc := Some Demo.ctx_Q; msg_provenance := None |}
           Demo.ctx_Q 7 Demo.cred_P 0 (Demo.node MSG_TASK 1 false));
    try reflexivity.
  cbn. lia.
Defined.

(** The only way into the labelling code is a message without a context,
    and that path reads through the null pointer. *)
Lemma provenance_msg_msg_alloc_security_null_ifc st m msg n cc :
  msgs st !! m = Some msg ->
  msg_ifc msg = None ->
  slab_avail st = S n ->
  creds st !! current_cred st = Some cc ->
  provenance_msg_msg_alloc_security m st = Oops.
Proof.
  intros Hm Hifc Hs Hc. unfold provenance_msg_msg_alloc_security.
  do 5 run1. rewrite Hifc. reflexivity.
Qed.

(** Shared memory segments fare the same. *)
Lemma provenance_shm_alloc_security_untracked st s shp ctx n cc cp cn :
  shms st !! s = Some shp ->
  shm_ifc shp = Some ctx ->
  slab_avail st = S n ->
  creds st !! current_cred st = Some cc ->
  cred_provenance cc = Some cp ->
  prov_heap st !! cp = Some cn ->
  cp <> next_addr st ->
  exists st' node,
    provenance_shm_alloc_security s st = Done 0 st'
    /\ (shm_provenance <$> shms st' !! s) = Some (Some (next_addr st))
    /\ prov_heap st' !! next_addr st = Some node
    /\ tracked node = false
    /\ ifc_snapshot node = None.
Proof.
  intros Hm Hifc Hs Hc Hcp Hcn Hne.
  unfold provenance_shm_alloc_security.
  do 5 run1. rewrite Hifc. do 2 run1. rewrite Hcp. do 2 run1.
  eexists _, _. split; [reflexivity|]. norm.
  rewrite lookup_alter_eq, Hm, lookup_insert_eq. auto.
Qed.

(** Credentials are labelled as the specification says: the node of a
    prepared credential is tracked exactly when the credential's context
    is labelled, and then holds a snapshot of it. *)
Lemma provenance_cred_prepare_labels st new old nc oc ctx op on n :
  creds st !! new = Some nc ->
  creds st !! old = Some oc ->
  cred_ifc nc = Some ctx ->
  cred_provenance oc = Some op ->
  prov_heap st !! op = Some on ->
  op <> next_addr st ->
  slab_avail st = S n ->
  exists st' node,
    provenance_cred_prepare new old st = Done 0 st'
    /\ (cred_provenance <$> creds st' !! new) = Some (Some (next_addr st))
    /\ prov_heap st' !! next_addr st = Some node
    /\ tracked node = ifc_is_labelled ctx
    /\ ifc_snapshot node = (if ifc_is_labelled ctx then Some ctx else None)
    /\ node_id node = next_node_id st
    /\ relay st' = (if relay_up st
                    then relay st ++ [EdgeRecord ED_FORK (node_id on) (next_node_id st) FLOW_ALLOWED]
                    else relay st).
Proof.
  intros Hn Ho Hctx Hop Hon Hne Hs.
  unfold provenance_cred_prepare.
  do 6 run1.
  erewrite bind_Done by (eapply deref_ctx_Some; [lookup_now | eassumption]).
  rewrite Hop.
  destruct (ifc_is_labelled ctx).
  - erewrite bind_Done; cycle 1.
    { erewrite bind_Done by (eapply update_node_run; lookup_now).
      unfold prov_record_ifc. eapply update_node_run; lookup_now. }
    do 2 run1.
    eexists _, _. split; [reflexivity|]. norm.
    rewrite lookup_alter_eq, Hn, lookup_insert_eq. auto 10.
  - do 3 run1.
    eexists _, _. split; [reflexivity|]. norm.
    rewrite lookup_alter_eq, Hn, lookup_insert_eq. auto 10.
Qed.

(** ** Missing nodes in the permission hooks *)

(** C6, the code at work.  [provenance_mmap_file] does not look for a
    missing node: on a file whose inode has none, the name capture reads
    the flags through the null pointer and nothing is allocated. *)
Theorem provenance_mmap_file_no_repair st f i cc prot :
  creds st !! current_cred st = Some cc ->
  inodes st !! f_inode f = Some i ->
  i_provenance i = None ->
  provenance_mmap_file (Some f) prot st = Oops.
Proof.
  intros Hc Hi Hnone. unfold provenance_mmap_file.
  run1. apply bind_Oops. unfold provenance_record_file_name.
  run1. rewrite Hnone. reflexivity.
Qed.

Lemma provenance_mmap_file_no_repair_witness :
  provenance_mmap_file (Some Demo.file_6) PROT_READ Demo.st = Oops.
Proof.
  apply (provenance_mmap_file_no_repair Demo.st Demo.file_6 Demo.inode_6 Demo.cred_P);
    reflexivity.
Defined.

(** Even past the name capture, the edges of [provenance_mmap_file] would
    be built on the null pointer. *)
Lemma record_edge_on_missing_node ty cprov st :
  record_edge ty cprov None FLOW_ALLOWED st = Oops
  /\ record_edge ty None cprov FLOW_ALLOWED st = Oops.
Proof. split; [apply record_edge_null_to | apply record_edge_null_from]. Qed.

(** The other permission-style hooks repair the same inode: they answer 0,
    inode 6 gets the node allocated at address 10, named after the inode
    number, and the edges are recorded against it. *)
Example provenance_inode_permission_repairs :
  let o := provenance_inode_permission 6 MAY_READ Demo.st in
  retval o = Some 0
  /\ (st' ← final o; i ← inodes st' !! 6%nat; i_provenance i) = Some 10%nat
  /\ (st' ← final o; n ← prov_heap st' !! 10%nat; Some (node_id n)) = Some 43
  /\ (relay <$> final o)
     = Some [EdgeRecord ED_CREATE 1 43 true; EdgeRecord ED_READ 43 1 true].
Proof. vm_compute. auto. Qed.

Example provenance_file_open_repairs :
  let o := provenance_file_open Demo.file_6 Demo.st in
  retval o = Some 0
  /\ (st' ← final o; i ← inodes st' !! 6%nat; i_provenance i) = Some 10%nat
  /\ (relay <$> final o)
     = Some [EdgeRecord ED_CREATE 1 43 true; EdgeRecord ED_OPEN 43 1 true].
Proof. vm_compute. auto. Qed.

Example provenance_file_ioctl_repairs :
  let o := provenance_file_ioctl Demo.file_6 Demo.st in
  retval o = Some 0
  /\ (st' ← final o; i ← inodes st' !! 6%nat; i_provenance i) = Some 10%nat
  /\ (relay <$> final o)
     = Some [EdgeRecord ED_CREATE 1 43 true; EdgeRecord ED_WRITE 1 43 true;
             EdgeRecord ED_READ 43 1 true].
Proof. vm_compute. auto. Qed.

(** ** Recording a name once *)

Lemma provenance_record_file_name_run st f i a ip n :
  inodes st !! f_inode f = Some i ->
  i_provenance i = Some a ->
  prov_heap st !! a = Some ip ->
  slab_avail st = S n ->
  provenance_record_file_name f st
  = Done tt
      (if negb (name_recorded ip) && tracked ip then
         set_prov_heap (<[a := set_name_recorded true ip]> (prov_heap st))
           (emit (LongEdgeRecord ED_NAMED (node_id ip) MSG_FILE_NAME FLOW_ALLOWED)
              (emit (LongRecord MSG_FILE_NAME (take (PATH_MAX - 1) (f_path f))) st))
       else st).
Proof.
  intros Hi Ha Hip Hs. unfold provenance_record_file_name.
  run1. rewrite Ha. run1.
  destruct (name_recorded ip); cbn [negb andb].
  - run1. reflexivity.
  - run1. destruct (tracked ip); [|reflexivity].
    do 2 run1. unfold long_prov_write, prov_write. cbn [long_type long_payload].
    do 2 run1. erewrite update_node_run by lookup_now. reflexivity.
Qed.

Lemma provenance_record_address_run st sock s a sp n address addrlen :
  socks st !! sock_sk sock = Some s ->
  sk_provenance s = Some a ->
  prov_heap st !! a = Some sp ->
  slab_avail st = S n ->
  provenance_record_address sock address addrlen st
  = Done tt
      (if negb (name_recorded sp) && tracked sp then
         set_prov_heap (<[a := set_name_recorded true sp]> (prov_heap st))
           (emit (LongEdgeRecord ED_NAMED (node_id sp) MSG_ADDR FLOW_ALLOWED)
              (emit (LongRecord MSG_ADDR (take addrlen address)) st))
       else st).
Proof.
  intros Hi Ha Hip Hs. unfold provenance_record_address.
  run1. rewrite Ha. run1.
  destruct (name_recorded sp); cbn [negb andb].
  - run1. reflexivity.
  - run1. destruct (tracked sp); [|reflexivity].
    run1. unfold long_prov_write, prov_write. cbn [long_type long_payload].
    do 2 run1. erewrite update_node_run by lookup_now. reflexivity.
Qed.

(** C5, as amended.  The capture of a file name, run twice in a row on an
    inode that has a node, leaves in the log one long-form record followed
    by one ED_NAMED edge when the node is tracked and its name was not yet
    recorded, and nothing otherwise; afterwards the flag is set exactly
    when it was set before or the node is tracked, so it never goes back
    to false.  The capture of a socket address behaves alike.  Memory for
    the long-form record is assumed available and the sink accepting. *)
Theorem name_capture_twice st n f i a ip sock s b sp address addrlen :
  slab_avail st = S n ->
  relay_up st = true ->
  inodes st !! f_inode f = Some i ->
  i_provenance i = Some a ->
  prov_heap st !! a = Some ip ->
  socks st !! sock_sk sock = Some s ->
  sk_provenance s = Some b ->
  prov_heap st !! b = Some sp ->
  (exists st',
      (provenance_record_file_name f ;;; provenance_record_file_name f) st
      = Done tt st'
      /\ relay st'
         = relay st
           ++ (if negb (name_recorded ip) && tracked ip
               then [LongRecord MSG_FILE_NAME (take (PATH_MAX - 1) (f_path f));
                     LongEdgeRecord ED_NAMED (node_id ip) MSG_FILE_NAME FLOW_ALLOWED]
               else [])
      /\ (name_recorded <$> prov_heap st' !! a)
         = Some (name_recorded ip || tracked ip))
  /\ (exists st',
         (provenance_record_address sock address addrlen ;;;
          provenance_record_address sock address addrlen) st
         = Done tt st'
         /\ relay st'
            = relay st
              ++ (if negb (name_recorded sp) && tracked sp
                  then [LongRecord MSG_ADDR (take addrlen address);
                        LongEdgeRecord ED_NAMED (node_id sp) MSG_ADDR FLOW_ALLOWED]
                  else [])
         /\ (name_recorded <$> prov_heap st' !! b)
            = Some (name_recorded sp || tracked sp)).
Proof.
  intros Hs Hup Hi Ha Hip Hsk Hb Hsp. split.
  - rewrite (bind_Done _ _ _ _ _
               (provenance_record_file_name_run st f i a ip n Hi Ha Hip Hs)).
    destruct (name_recorded ip) eqn:Er; cbn [negb andb orb].
    + rewrite (provenance_record_file_name_run st f i a ip n Hi Ha Hip Hs), Er.
      cbn [negb andb orb]. eexists. split; [reflexivity|]. rewrite app_nil_r, Hip. cbn. now rewrite Er.
    + destruct (tracked ip) eqn:Et.
      * erewrite provenance_record_file_name_run by (lookup_now || eassumption).
        cbn. eexists. split; [reflexivity|]. norm.
        rewrite Hup, lookup_insert_eq, <- app_assoc. auto.
      * rewrite (provenance_record_file_name_run st f i a ip n Hi Ha Hip Hs), Er, Et.
        cbn [negb andb orb]. eexists. split; [reflexivity|]. rewrite app_nil_r, Hip. cbn. now rewrite Er.
  - rewrite (bind_Done _ _ _ _ _
               (provenance_record_address_run st sock s b sp n address addrlen
                  Hsk Hb Hsp Hs)).
    destruct (name_recorded sp) eqn:Er; cbn [negb andb orb].
    + rewrite (provenance_record_address_run st sock s b sp n address addrlen
                 Hsk Hb Hsp Hs), Er.
      cbn [negb andb orb]. eexists. split; [reflexivity|]. rewrite app_nil_r, Hsp. cbn. now rewrite Er.
    + destruct (tracked sp) eqn:Et.
      * erewrite provenance_record_address_run by (lookup_now || eassumption).
        cbn. eexists. split; [reflexivity|]. norm.
        rewrite Hup, lookup_insert_eq, <- app_assoc. auto.
      * rewrite (provenance_record_address_run st sock s b sp n address addrlen
                   Hsk Hb Hsp Hs), Er, Et.
        cbn [negb andb orb]. eexists. split; [reflexivity|]. rewrite app_nil_r, Hsp. cbn. now rewrite Er.
Qed.

(** On the tracked inode 5 and the tracked sock 1 two captures in a row
    leave one long-form record and one ED_NAMED edge. *)
Lemma name_capture_twice_witness :
  (exists st',
      (provenance_record_file_name Demo.file_5 ;;;
       provenance_record_file_name Demo.file_5) Demo.st = Done tt st'
      /\ relay st'
         = [] ++ [LongRecord MSG_FILE_NAME [47; 97];
                  LongEdgeRecord ED_NAMED 42 MSG_FILE_NAME FLOW_ALLOWED]
      /\ (name_recorded <$> prov_heap st' !! 3%nat) = Some true)
  /\ (exists st',
         (provenance_record_address Demo.socket_1 [2; 0; 0; 80] 4 ;;;
          provenance_record_address Demo.socket_1 [2; 0; 0; 80] 4) Demo.st
         = Done tt st'
         /\ relay st'
            = [] ++ [LongRecord MSG_ADDR [2; 0; 0; 80];
                     LongEdgeRecord ED_NAMED 4 MSG_ADDR FLOW_ALLOWED]
         /\ (name_recorded <$> prov_heap st' !! 5%nat) = Some true).
Proof.
  apply (name_capture_twice Demo.st 7 Demo.file_5 Demo.inode_5 3
           (Demo.node MSG_INODE 42 true)
           Demo.socket_1 {| sk_provenance := Some 5%nat |} 5
           (Demo.node MSG_SOCK 4 true) [2; 0; 0; 80] 4); reflexivity.
Defined.

(** C5, as stated, fails on a node that is not tracked: inode 7 has such a
    node, its name was never recorded, and two captures in a row leave the
    log empty and the flag unset. *)
Lemma name_capture_untracked_emits_nothing :
  prov_heap Demo.st !! 7%nat = Some (Demo.node MSG_INODE 44 false)
  /\ name_recorded (Demo.node MSG_INODE 44 false) = false
  /\ (provenance_record_file_name Demo.file_7 ;;;
      provenance_record_file_name Demo.file_7) Demo.st = Done tt Demo.st
  /\ relay Demo.st = [].
Proof. repeat split; vm_compute; reflexivity. Qed.

(** ** What the hooks answer *)





Lemma bind_inv {A B} (m : M A) (k : A -> M B) st b st' :
  bind m k st = Done b st' ->
  exists a st1, m st = Done a st1 /\ k a st1 = Done b st'.
Proof.
  unfold bind. destruct (m st) as [a st1|]; [eauto | discriminate].
Qed.

Lemma load_inv {A} (tbl : kstate -> gmap nat A) p x st st' :
  load tbl p st = Done x st' ->
  st' = st /\ exists a, p = Some a /\ tbl st !! a = Some x.
Proof.
  unfold load. destruct p as [a|]; [|discriminate].
  destruct (tbl st !! a) eqn:E; [|discriminate].
  intros H. injection H as <- <-. eauto.
Qed.

Lemma current_provenance_inv p st st' :
  current_provenance st = Done p st' ->
  st' = st /\ node_of (creds st) cred_provenance (current_cred st) = p.
Proof.
  unfold current_provenance, get, bind. cbv beta iota.
  unfold load, node_of. destruct (creds st !! current_cred st) eqn:E; [|discriminate].
  intros H. injection H as <- <-. auto.
Qed.







(** *** The sink is write-only *)























(** ** Node identifiers of credentials *)










(** ** Node identifiers of all nodes *)






























(** Outside these kinds identifiers do coincide.  An inode numbered 1
    gets a node with identifier 1, which is the identifier of P's node;
    and a second node allocated for superblock 0 carries, like the first,
    the identifier 0, because no identifier is assigned to it. *)
Example inode_and_superblock_ids :
  let st1 := set_inodes
               (<[6%nat := {| i_ino := 1; i_uid := 0; i_gid := 0; i_mode := 420;
                              i_private := false; i_sb := 0%nat;
                              i_provenance := None;
                              i_ifc := Some empty_context |}]> (inodes Demo.st))
               Demo.st in
  let o := provenance_inode_alloc_security 6 st1 in
  let o' := provenance_sb_alloc_security 0 Demo.st in
  (st' ← final o; n ← prov_heap st' !! 10%nat; Some (msg_type n, node_id n))
  = Some (MSG_INODE, 1)
  /\ (st' ← final o; n ← prov_heap st' !! 0%nat; Some (msg_type n, node_id n))
     = Some (MSG_TASK, 1)
  /\ (st' ← final o'; n ← prov_heap st' !! 10%nat; Some (msg_type n, node_id n))
     = Some (MSG_SB, 0)
  /\ (st' ← final o'; n ← prov_heap st' !! 2%nat; Some (msg_type n, node_id n))
     = Some (MSG_SB, 0).
Proof. vm_compute. auto. Qed.

Example cred_node_ids_run :
  let o := run_cred_ops [alloc_blank_op 2; prepare_op 1 2] Demo.st in
  retval o = Some tt
  /\ (st' ← final o; cred_node_id st' 1) = Some 7
  /\ (st' ← final o; cred_node_id st' 2) = Some 6
  /\ retval (provenance_cred_transfer 2 1 Demo.st) = Some tt.
Proof. vm_compute. auto. Qed.


(** * Further properties *)

(** ** What the hooks leave alone *)

Lemma hook_frame_refl st : hook_frame st st.
Proof.
  unfold hook_frame. split_and!; try reflexivity; try lia; auto.
  exists []. split; [now rewrite app_nil_r | auto].
Qed.

Lemma hook_frame_trans s1 s2 s3 :
  hook_frame s1 s2 -> hook_frame s2 s3 -> hook_frame s1 s3.
Proof.
  intros ((l1 & E1 & D1) & U1 & R1 & T1 & K1 & C1 & H1 & A1 & N1 & I1)
         ((l2 & E2 & D2) & U2 & R2 & T2 & K2 & C2 & H2 & A2 & N2 & I2).
  unfold hook_frame. split_and!; try congruence; try lia; auto.
  exists (l1 ++ l2). split.
  - rewrite E2, E1. now rewrite app_assoc.
  - intros Hd. rewrite (D1 Hd). rewrite U1 in D2. now rewrite (D2 Hd).
Qed.

Lemma keeps_ret {A} R (a : A) : (forall st, R st st) -> keeps R (ret a).
Proof. intros HR st b st' H. injection H as _ <-. apply HR. Qed.

Lemma keeps_oops {A} R : keeps R (@oops A).
Proof. intros st a st' H. discriminate H. Qed.

Lemma keeps_bind {A B} R (m : M A) (k : A -> M B) :
  (forall s1 s2 s3, R s1 s2 -> R s2 s3 -> R s1 s3) ->
  keeps R m -> (forall a, keeps R (k a)) -> keeps R (bind m k).
Proof.
  intros Htr Hm Hk st b st' H. apply bind_inv in H as (a & st1 & H1 & H2).
  eapply Htr; [eapply Hm | eapply Hk]; eassumption.
Qed.

Lemma keeps_load {A} R (tbl : kstate -> gmap nat A) p :
  (forall st, R st st) -> keeps R (load tbl p).
Proof. intros HR st a st' H. apply load_inv in H as [-> _]. apply HR. Qed.

Lemma keeps_modify R f : (forall st, R st (f st)) -> keeps R (modify f).
Proof. intros HR st a st' H. unfold modify in H. injection H as _ <-. apply HR. Qed.

Lemma frame_insert (h : gmap nat prov_msg_t) a x b :
  is_Some (h !! b) -> is_Some (<[a := x]> h !! b).
Proof.
  intros H. rewrite lookup_insert. case_decide; [eauto | exact H].
Qed.

Lemma frame_cred_provenance p c (m : gmap nat cred) c' :
  set_cred_provenance None <$> alter (set_cred_provenance p) c m !! c'
  = set_cred_provenance None <$> m !! c'.
Proof.
  rewrite lookup_alter. case_decide; [|reflexivity].
  subst. destruct (m !! c'); reflexivity.
Qed.

(** Close a goal [hook_frame st st'] where [st'] is [st] under setters. *)
Ltac frame_now :=
  unfold hook_frame; norm;
  split_and!;
  try reflexivity; try lia;
  try (intros; repeat apply frame_insert; assumption);
  try (intros; apply frame_cred_provenance);
  try (eexists []; split; [now rewrite app_nil_r | reflexivity]).

Lemma hook_frame_emit r st : hook_frame st (emit r st).
Proof.
  unfold hook_frame. norm. split_and!; try reflexivity; try lia; auto.
  destruct (relay_up st).
  - exists [r]. split; [reflexivity | discriminate].
  - exists []. split; [now rewrite app_nil_r | reflexivity].
Qed.

Lemma keeps_frame_alloc_provenance ty : keeps hook_frame (alloc_provenance ty).
Proof.
  intros st p st' H. unfold alloc_provenance in H.
  destruct (slab_avail st); injection H as _ <-; [apply hook_frame_refl | frame_now].
Qed.

Lemma keeps_frame_update_node p f : keeps hook_frame (update_node p f).
Proof.
  intros st u st' H. unfold update_node in H.
  apply bind_inv in H as (n & st1 & H1 & H). apply load_inv in H1 as [-> (a & -> & Ha)].
  injection H as _ <-. frame_now.
Qed.

Lemma keeps_frame_set_node_id p nid : keeps hook_frame (set_node_id p nid).
Proof.
  unfold set_node_id. destruct (nid =? ASSIGN_NODE_ID); [|apply keeps_frame_update_node].
  intros st u st' H. unfold get in H.
  apply bind_inv in H as (s & st1 & H1 & H). injection H1 as <- <-.
  apply bind_inv in H as (? & st1 & H1 & H). injection H as _ <-.
  unfold update_node in H1.
  apply bind_inv in H1 as (n & st2 & H1 & H2). apply load_inv in H1 as [-> (a & -> & Ha)].
  injection H2 as _ <-. frame_now.
Qed.

Lemma keeps_frame_current_provenance : keeps hook_frame current_provenance.
Proof.
  intros st p st' H. apply current_provenance_inv in H as [-> _].
  apply hook_frame_refl.
Qed.

Lemma keeps_frame_kzalloc : keeps hook_frame kzalloc.
Proof. intros st p st' H. injection H as _ <-. apply hook_frame_refl. Qed.

Lemma keeps_frame_alloc_long k : keeps hook_frame (alloc_long_provenance k).
Proof.
  intros st p st' H. unfold alloc_long_provenance in H.
  destruct (slab_avail st); injection H as _ <-; apply hook_frame_refl.
Qed.

Lemma keeps_frame_prov_write r : keeps hook_frame (prov_write r).
Proof. apply keeps_modify. intros st. apply hook_frame_emit. Qed.

Ltac frame :=
  cbv zeta;
  repeat first
    [ apply keeps_ret; apply hook_frame_refl
    | apply keeps_oops
    | apply keeps_load; apply hook_frame_refl
    | apply keeps_frame_current_provenance
    | apply keeps_frame_alloc_provenance
    | apply keeps_frame_update_node
    | apply keeps_frame_set_node_id
    | apply keeps_frame_prov_write
    | apply keeps_frame_kzalloc
    | apply keeps_frame_alloc_long
    | apply keeps_modify; intros ?; frame_now
    | apply keeps_bind; [apply hook_frame_trans | | intros ?]
    | match goal with
      | |- keeps _ (match ?x with _ => _ end) => destruct x
      end ].

Lemma security_call_frame h : keeps hook_frame (security_call h).
Proof.
  destruct h; cbn [security_call].
  all: unfold provenance_cred_alloc_blank, provenance_cred_prepare,
         provenance_task_fix_setuid, provenance_inode_permission,
         provenance_file_permission, provenance_mmap_file,
         provenance_file_ioctl, provenance_inode_link,
         provenance_msg_msg_alloc_security,
         provenance_msg_queue_msgsnd, provenance_msg_queue_msgrcv,
         provenance_shm_alloc_security, provenance_shm_shmat,
         provenance_sk_alloc_security,
         provenance_socket_post_create, provenance_socket_bind,
         provenance_socket_connect, provenance_socket_listen,
         provenance_socket_sendmsg, provenance_socket_recvmsg,
         provenance_socket_accept, provenance_unix_stream_connect,
         provenance_unix_may_send, provenance_bprm_set_creds,
         provenance_sb_alloc_security, provenance_sb_kern_mount,
         provenance_file_open,
         provenance_inode_permission, provenance_inode_alloc_security,
         provenance_record_file_name, provenance_record_address,
         provenance_sk_alloc_security, provenance_cred_alloc_blank,
         inode_get_provenance, inode_set_provenance, cred_set_provenance,
         record_edge, long_record_edge, long_prov_write,
         provenance_is_tracked, provenance_is_name_recorded,
         prov_record_ifc, prov_update_version, deref_ctx.
  all: frame.
Qed.

(** X1.  A hook that returns has only appended to the log: what the sink
    held is still there, in order, nothing is appended while the sink is
    down, and the hook does not switch the sink. *)
Theorem hooks_log_append_only h st rv st' :
  security_call h st = Done rv st' ->
  (exists l, relay st' = relay st ++ l /\ (relay_up st = false -> l = []))
  /\ relay_up st' = relay_up st.
Proof.
  intros H. destruct (security_call_frame h st rv st' H) as (Hl & Hu & _).
  split; assumption.
Qed.

Lemma hooks_log_append_only_witness :
  (exists l,
      relay (final_or Demo.st (security_call (file_open Demo.file_6) Demo.st))
      = relay Demo.st ++ l /\ (relay_up Demo.st = false -> l = []))
  /\ relay_up (final_or Demo.st (security_call (file_open Demo.file_6) Demo.st))
     = relay_up Demo.st.
Proof.
  apply (hooks_log_append_only (file_open Demo.file_6) Demo.st 0).
  vm_compute. reflexivity.
Defined.

(** X2.  No status-returning hook releases a record: the list of released
    records is as before, every record that was live is still live, and
    neither the allocator's next address nor the identifier generator
    goes back. *)
Theorem hooks_never_release h st rv st' :
  security_call h st = Done rv st' ->
  released st' = released st
  /\ (forall a, is_Some (prov_heap st !! a) -> is_Some (prov_heap st' !! a))
  /\ (next_addr st <= next_addr st')%nat
  /\ next_node_id st <= next_node_id st'.
Proof.
  intros H.
  destruct (security_call_frame h st rv st' H)
    as (_ & _ & Hr & _ & _ & _ & Hh & Ha & Hn & _).
  auto.
Qed.

Lemma hooks_never_release_witness :
  released (final_or Demo.st (security_call (msg_msg_alloc_security 0) Demo.st))
  = released Demo.st
  /\ (forall a, is_Some (prov_heap Demo.st !! a) ->
       is_Some (prov_heap (final_or Demo.st
                   (security_call (msg_msg_alloc_security 0) Demo.st)) !! a))
  /\ (next_addr Demo.st
      <= next_addr (final_or Demo.st
           (security_call (msg_msg_alloc_security 0) Demo.st)))%nat
  /\ next_node_id Demo.st
     <= next_node_id (final_or Demo.st
          (security_call (msg_msg_alloc_security 0) Demo.st)).
Proof.
  apply (hooks_never_release (msg_msg_alloc_security 0) Demo.st 0).
  vm_compute. reflexivity.
Defined.

(** X3.  No status-returning hook touches the IFC side: the tag counter,
    the task table and the current credential are as before, and every
    credential keeps its IFC context and its identity; no credential
    appears or disappears. *)
Theorem hooks_leave_ifc_alone h st rv st' :
  security_call h st = Done rv st' ->
  next_tag st' = next_tag st
  /\ tasks st' = tasks st
  /\ current_cred st' = current_cred st
  /\ forall c,
       (cred_ifc <$> creds st' !! c) = (cred_ifc <$> creds st !! c)
       /\ (euid <$> creds st' !! c) = (euid <$> creds st !! c)
       /\ (egid <$> creds st' !! c) = (egid <$> creds st !! c).
Proof.
  intros H.
  destruct (security_call_frame h st rv st' H)
    as (_ & _ & _ & Ht & Hk & Hc & _ & _ & _ & Hi).
  split_and!; try assumption.
  intros c. specialize (Hi c).
  destruct (creds st' !! c) as [x|], (creds st !! c) as [y|];
    try discriminate Hi; [|auto].
  injection Hi as He Hg Hx. cbn. rewrite He, Hg, Hx. auto.
Qed.

Lemma hooks_leave_ifc_alone_witness :
  next_tag (final_or Demo.st (security_call (cred_prepare 1 2) Demo.st))
  = next_tag Demo.st
  /\ tasks (final_or Demo.st (security_call (cred_prepare 1 2) Demo.st))
     = tasks Demo.st
  /\ current_cred (final_or Demo.st (security_call (cred_prepare 1 2) Demo.st))
     = current_cred Demo.st
  /\ forall c,
       (cred_ifc <$> creds (final_or Demo.st
                       (security_call (cred_prepare 1 2) Demo.st)) !! c)
       = (cred_ifc <$> creds Demo.st !! c)
       /\ (euid <$> creds (final_or Demo.st
                      (security_call (cred_prepare 1 2) Demo.st)) !! c)
          = (euid <$> creds Demo.st !! c)
       /\ (egid <$> creds (final_or Demo.st
                      (security_call (cred_prepare 1 2) Demo.st)) !! c)
          = (egid <$> creds Demo.st !! c).
Proof.
  apply (hooks_leave_ifc_alone (cred_prepare 1 2) Demo.st 0).
  vm_compute. reflexivity.
Defined.

(** ** The permission hook *)

Lemma relay_emit_all l : forall st,
  relay (emit_all l st) = relay st ++ (if relay_up st then l else []).
Proof.
  induction l as [|r l IH]; intros st; cbn [emit_all fold_left].
  - destruct (relay_up st); now rewrite app_nil_r.
  - change (fold_left _ l (emit r st)) with (emit_all l (emit r st)).
    rewrite IH. norm. destruct (relay_up st); [|reflexivity].
    now rewrite <- app_assoc.
Qed.

Lemma emit_all_erased l : forall st, sink_erased (emit_all l st) = sink_erased st.
Proof.
  induction l as [|r l IH]; intros st; cbn [emit_all fold_left]; [reflexivity|].
  change (fold_left _ l (emit r st)) with (emit_all l (emit r st)).
  now rewrite IH.
Qed.

Lemma emit_all_prov_heap l st : prov_heap (emit_all l st) = prov_heap st.
Proof.
  change (prov_heap (sink_erased (emit_all l st)) = prov_heap (sink_erased st)).
  now rewrite emit_all_erased.
Qed.

Lemma emit_all_inodes l st : inodes (emit_all l st) = inodes st.
Proof.
  change (inodes (sink_erased (emit_all l st)) = inodes (sink_erased st)).
  now rewrite emit_all_erased.
Qed.

Lemma emit_all_socks l st : socks (emit_all l st) = socks st.
Proof.
  change (socks (sink_erased (emit_all l st)) = socks (sink_erased st)).
  now rewrite emit_all_erased.
Qed.

Lemma emit_all_creds l st : creds (emit_all l st) = creds st.
Proof.
  change (creds (sink_erased (emit_all l st)) = creds (sink_erased st)).
  now rewrite emit_all_erased.
Qed.

Lemma emit_all_app l1 l2 st :
  emit_all (l1 ++ l2) st = emit_all l2 (emit_all l1 st).
Proof. unfold emit_all. apply fold_left_app. Qed.

Lemma emit_all_keeps {A} (proj : kstate -> A) l :
  (forall r st, proj (emit r st) = proj st) ->
  forall st, proj (emit_all l st) = proj st.
Proof.
  intros H. induction l as [|r l IH]; intros st; [reflexivity|].
  cbn [emit_all fold_left]. fold (emit_all l). now rewrite IH, H.
Qed.

Lemma bind_assoc {A B C} (m : M A) (k : A -> M B) (k' : B -> M C) st :
  bind (bind m k) k' st = bind m (fun a => bind (k a) k') st.
Proof. unfold bind. now destruct (m st). Qed.

(** The three tests of [provenance_inode_permission] on the mask, run on
    a state where both nodes are live. *)
Lemma permission_edges_run st mask cp cn ip n_i :
  prov_heap st !! cp = Some cn ->
  prov_heap st !! ip = Some n_i ->
  ((if negb (Z.land mask (Z.lor MAY_WRITE MAY_APPEND) =? 0)
    then record_edge ED_WRITE (Some cp) (Some ip) FLOW_ALLOWED else ret tt) ;;;
   (if negb (Z.land mask MAY_READ =? 0)
    then record_edge ED_READ (Some ip) (Some cp) FLOW_ALLOWED else ret tt) ;;;
   (if negb (Z.land mask MAY_EXEC =? 0)
    then record_edge ED_EXEC (Some ip) (Some cp) FLOW_ALLOWED else ret tt) ;;;
   ret 0) st
  = Done 0 (emit_all (permission_edges mask cn n_i) st).
Proof.
  intros Hc Hi. unfold permission_edges.
  destruct (negb (Z.land mask (Z.lor MAY_WRITE MAY_APPEND) =? 0));
    destruct (negb (Z.land mask MAY_READ =? 0));
    destruct (negb (Z.land mask MAY_EXEC =? 0));
    repeat run1; reflexivity.
Qed.

(** [provenance_inode_permission] on an inode that has a node. *)
Lemma provenance_inode_permission_run st ino mask cc cp cn i ip n_i :
  creds st !! current_cred st = Some cc ->
  cred_provenance cc = Some cp ->
  prov_heap st !! cp = Some cn ->
  inodes st !! ino = Some i ->
  i_private i = false ->
  i_provenance i = Some ip ->
  prov_heap st !! ip = Some n_i ->
  provenance_inode_permission ino mask st
  = Done 0 (emit_all (permission_edges mask cn n_i) st).
Proof.
  intros Hc Hcp Hcn Hi Hpriv Hip Hn.
  unfold provenance_inode_permission.
  do 2 run1. rewrite Hpriv. run1. rewrite Hip. run1. rewrite Hcp.
  cbv zeta.
  rewrite <- (permission_edges_run st _ cp cn ip n_i Hcn Hn).
  unfold permission_edges.
  change (Z.lor (Z.lor (Z.lor MAY_READ MAY_WRITE) MAY_EXEC) MAY_APPEND) with 15.
  rewrite <- !Z.land_assoc. reflexivity.
Qed.

(** X4.  On an inode that has a node, [provenance_inode_permission]
    answers 0 and hands the sink, in this order, a WRITE edge from the
    subject to the inode when the mask asks for write or append, a READ
    edge from the inode to the subject when it asks for read, and an EXEC
    edge from the inode to the subject when it asks for exec; bits of the
    mask other than these four are ignored and nothing but the log
    changes. *)
Theorem provenance_inode_permission_edges st ino mask cc cp cn i ip n_i :
  creds st !! current_cred st = Some cc ->
  cred_provenance cc = Some cp ->
  prov_heap st !! cp = Some cn ->
  inodes st !! ino = Some i ->
  i_private i = false ->
  i_provenance i = Some ip ->
  prov_heap st !! ip = Some n_i ->
  provenance_inode_permission ino mask st
  = Done 0 (emit_all (permission_edges mask cn n_i) st)
  /\ permission_edges mask cn n_i
     = permission_edges (Z.land mask 15) cn n_i.
Proof.
  intros Hc Hcp Hcn Hi Hpriv Hip Hn. split.
  - now apply (provenance_inode_permission_run st ino mask cc cp cn i ip n_i).
  - unfold permission_edges. rewrite <- !Z.land_assoc. reflexivity.
Qed.

Lemma provenance_inode_permission_edges_witness :
  provenance_inode_permission 5 (Z.lor MAY_READ MAY_APPEND) Demo.st
  = Done 0 (emit_all [EdgeRecord ED_WRITE 1 42 FLOW_ALLOWED;
                      EdgeRecord ED_READ 42 1 FLOW_ALLOWED] Demo.st)
  /\ permission_edges (Z.lor MAY_READ MAY_APPEND)
       (Demo.node MSG_TASK 1 false) (Demo.node MSG_INODE 42 true)
     = permission_edges (Z.land (Z.lor MAY_READ MAY_APPEND) 15)
         (Demo.node MSG_TASK 1 false) (Demo.node MSG_INODE 42 true).
Proof.
  apply (provenance_inode_permission_edges Demo.st 5 (Z.lor MAY_READ MAY_APPEND)
           Demo.cred_P 0 (Demo.node MSG_TASK 1 false)
           Demo.inode_5 3 (Demo.node MSG_INODE 42 true)); reflexivity.
Defined.

Lemma provenance_inode_permission_private_run st ino mask cc i :
  creds st !! current_cred st = Some cc ->
  inodes st !! ino = Some i ->
  i_private i = true ->
  provenance_inode_permission ino mask st = Done 0 st.
Proof.
  intros Hc Hi Hpriv. unfold provenance_inode_permission.
  do 2 run1. rewrite Hpriv. reflexivity.
Qed.

(** X5.  A private inode is left alone: the hook answers 0 and the state
    is the one it was entered in, whether the inode has a node or not. *)
Theorem provenance_inode_permission_private st ino mask cc i :
  creds st !! current_cred st = Some cc ->
  inodes st !! ino = Some i ->
  i_private i = true ->
  provenance_inode_permission ino mask st = Done 0 st.
Proof.
  intros Hc Hi Hpriv.
  now apply (provenance_inode_permission_private_run st ino mask cc i).
Qed.

Lemma provenance_inode_permission_private_witness :
  provenance_inode_permission 6 MAY_READ
    (set_inodes (<[6%nat := {| i_ino := 43; i_uid := 0; i_gid := 0; i_mode := 420;
                               i_private := true; i_sb := 0%nat;
                               i_provenance := None;
                               i_ifc := Some empty_context |}]> (inodes Demo.st))
       Demo.st)
  = Done 0
      (set_inodes (<[6%nat := {| i_ino := 43; i_uid := 0; i_gid := 0; i_mode := 420;
                                 i_private := true; i_sb := 0%nat;
                                 i_provenance := None;
                                 i_ifc := Some empty_context |}]> (inodes Demo.st))
         Demo.st).
Proof.
  apply (provenance_inode_permission_private _ 6 MAY_READ Demo.cred_P
           {| i_ino := 43; i_uid := 0; i_gid := 0; i_mode := 420;
              i_private := true; i_sb := 0%nat; i_provenance := None;
              i_ifc := Some empty_context |}); reflexivity.
Defined.

(** The record [provenance_inode_alloc_security] builds for inode [i]
    whose superblock's node is [sn]. *)
Lemma provenance_inode_alloc_security_run st ino i sb sp sn ctx cc cp cn n :
  creds st !! current_cred st = Some cc ->
  cred_provenance cc = Some cp ->
  prov_heap st !! cp = Some cn ->
  cp <> next_addr st ->
  inodes st !! ino = Some i ->
  sbs st !! i_sb i = Some sb ->
  s_provenance sb = Some sp ->
  prov_heap st !! sp = Some sn ->
  sp <> next_addr st ->
  i_ifc i = Some ctx ->
  slab_avail st = S n ->
  exists st1 node,
    provenance_inode_alloc_security ino st = Done 0 st1
    /\ inodes st1 !! ino = Some (set_i_provenance (Some (next_addr st)) i)
    /\ prov_heap st1 !! next_addr st = Some node
    /\ prov_heap st1 !! cp = Some cn
    /\ creds st1 = creds st
    /\ current_cred st1 = current_cred st
    /\ relay_up st1 = relay_up st
    /\ relay st1
       = relay st ++ (if relay_up st
                      then [EdgeRecord ED_CREATE (node_id cn) (inode_node_id st i)
                              FLOW_ALLOWED]
                      else [])
    /\ node_id node = inode_node_id st i
    /\ msg_type node = MSG_INODE
    /\ (info_uid node, info_gid node, info_mode node) = (i_uid i, i_gid i, i_mode i)
    /\ info_uuid node = take 16 (info_uuid sn)
    /\ tracked node = ifc_is_labelled ctx
    /\ ifc_snapshot node = (if ifc_is_labelled ctx then Some ctx else None)
    /\ name_recorded node = false
    /\ slab_avail st1 = n
    /\ next_node_id st1
       = (if i_ino i =? ASSIGN_NODE_ID then next_node_id st + 1 else next_node_id st).
Proof.
  intros Hc Hcp Hcn Hne Hi Hsb Hsp Hsn Hne2 Hctx Hs.
  unfold provenance_inode_alloc_security, inode_node_id.
  do 3 run1.
  destruct (Z.eqb_spec (i_ino i) ASSIGN_NODE_ID) as [E|E].
  - rewrite E. do 5 run1. rewrite Hsp. do 3 run1. rewrite Hctx, Hcp.
    destruct (ifc_is_labelled ctx).
    + erewrite bind_Done; cycle 1.
      { erewrite bind_Done by (eapply update_node_run; lookup_now).
        unfold prov_record_ifc. eapply update_node_run; lookup_now. }
      run1. eexists _, _. split; [reflexivity|]. norm.
      rewrite lookup_alter_eq, Hi, lookup_insert_eq, !lookup_insert_ne, Hcn by congruence.
      destruct (relay_up st); rewrite ?app_nil_r; split_and!; reflexivity.
    + do 2 run1. eexists _, _. split; [reflexivity|]. norm.
      rewrite lookup_alter_eq, Hi, lookup_insert_eq, !lookup_insert_ne, Hcn by congruence.
      destruct (relay_up st); rewrite ?app_nil_r; split_and!; reflexivity.
  - do 5 run1. rewrite Hsp. do 3 run1. rewrite Hctx, Hcp.
    destruct (ifc_is_labelled ctx).
    + erewrite bind_Done; cycle 1.
      { erewrite bind_Done by (eapply update_node_run; lookup_now).
        unfold prov_record_ifc. eapply update_node_run; lookup_now. }
      run1. eexists _, _. split; [reflexivity|]. norm.
      rewrite lookup_alter_eq, Hi, lookup_insert_eq, !lookup_insert_ne, Hcn by congruence.
      destruct (relay_up st); rewrite ?app_nil_r; split_and!; reflexivity.
    + do 2 run1. eexists _, _. split; [reflexivity|]. norm.
      rewrite lookup_alter_eq, Hi, lookup_insert_eq, !lookup_insert_ne, Hcn by congruence.
      destruct (relay_up st); rewrite ?app_nil_r; split_and!; reflexivity.
Qed.

(** X6.  On an inode that has no node, [provenance_inode_permission]
    first builds one (memory permitting).  The node's identifier is the
    inode number, unless the inode number is the sentinel of
    [set_node_id]: then the node gets a generated identifier and the
    generator moves on.  The node carries the inode's uid, gid and mode
    and the uuid of its superblock's node, and is tracked exactly when the
    inode's IFC context is labelled.  The sink gets a CREATE edge from the
    subject to the new node and then the edges the mask asks for. *)
Theorem provenance_inode_permission_allocates st ino mask i sb sp sn ctx cc cp cn n :
  creds st !! current_cred st = Some cc ->
  cred_provenance cc = Some cp ->
  prov_heap st !! cp = Some cn ->
  cp <> next_addr st ->
  inodes st !! ino = Some i ->
  i_private i = false ->
  i_provenance i = None ->
  sbs st !! i_sb i = Some sb ->
  s_provenance sb = Some sp ->
  prov_heap st !! sp = Some sn ->
  sp <> next_addr st ->
  i_ifc i = Some ctx ->
  slab_avail st = S n ->
  exists st' node,
    provenance_inode_permission ino mask st = Done 0 st'
    /\ (i_provenance <$> inodes st' !! ino) = Some (Some (next_addr st))
    /\ prov_heap st' !! next_addr st = Some node
    /\ node_id node
       = (if i_ino i =? ASSIGN_NODE_ID then next_node_id st else i_ino i)
    /\ next_node_id st'
       = (if i_ino i =? ASSIGN_NODE_ID then next_node_id st + 1 else next_node_id st)
    /\ (info_uid node, info_gid node, info_mode node) = (i_uid i, i_gid i, i_mode i)
    /\ info_uuid node = take 16 (info_uuid sn)
    /\ tracked node = ifc_is_labelled ctx
    /\ relay st'
       = relay st
         ++ (if relay_up st
             then EdgeRecord ED_CREATE (node_id cn) (node_id node) FLOW_ALLOWED
                  :: permission_edges mask cn node
             else []).
Proof.
  intros Hc Hcp Hcn Hne Hi Hpriv Hnone Hsb Hsp Hsn Hne2 Hctx Hs.
  destruct (provenance_inode_alloc_security_run st ino i sb sp sn ctx cc cp cn n
              Hc Hcp Hcn Hne Hi Hsb Hsp Hsn Hne2 Hctx Hs)
    as (st1 & node & Hrun & Hi1 & Hnode & Hcn1 & Hcr & Hcur & Hup & Hrel & Hid & _
        & Hinfo & Huuid & Htr & _ & _ & _ & Hgen).
  unfold provenance_inode_permission.
  do 2 run1. rewrite Hpriv. run1. rewrite Hnone.
  rewrite bind_assoc, (bind_Done _ _ _ _ _ Hrun).
  erewrite bind_Done by (apply (inode_get_provenance_run _ _ _ Hi1)).
  cbn [i_provenance set_i_provenance]. rewrite Hcp. cbv zeta.
  change (Z.lor (Z.lor (Z.lor MAY_READ MAY_WRITE) MAY_EXEC) MAY_APPEND) with 15.
  rewrite (permission_edges_run st1 (Z.land mask 15) cp cn (next_addr st) node Hcn1 Hnode).
  exists (emit_all (permission_edges (Z.land mask 15) cn node) st1), node.
  split; [reflexivity|].
  assert (permission_edges (Z.land mask 15) cn node = permission_edges mask cn node) as ->.
  { unfold permission_edges. rewrite <- !Z.land_assoc. reflexivity. }
  split_and!; try assumption.
  - now rewrite emit_all_inodes, Hi1.
  - now rewrite emit_all_prov_heap.
  - now rewrite (emit_all_keeps next_node_id _ (fun _ _ => eq_refl)).
  - rewrite relay_emit_all, Hrel, Hup, Hid. destruct (relay_up st).
    + now rewrite <- app_assoc.
    + now rewrite !app_nil_r.
Qed.

Lemma provenance_inode_permission_allocates_witness :
  exists st' node,
    provenance_inode_permission 6 MAY_READ st_ino0 = Done 0 st'
    /\ (i_provenance <$> inodes st' !! 6%nat) = Some (Some (next_addr st_ino0))
    /\ prov_heap st' !! next_addr st_ino0 = Some node
    /\ node_id node
       = (if ASSIGN_NODE_ID =? ASSIGN_NODE_ID then next_node_id st_ino0
          else ASSIGN_NODE_ID)
    /\ next_node_id st'
       = (if ASSIGN_NODE_ID =? ASSIGN_NODE_ID then next_node_id st_ino0 + 1
          else next_node_id st_ino0)
    /\ (info_uid node, info_gid node, info_mode node) = (0, 0, 420)
    /\ info_uuid node = take 16 (info_uuid (Demo.node MSG_SB 0 false))
    /\ tracked node = ifc_is_labelled empty_context
    /\ relay st'
       = relay st_ino0
         ++ (if relay_up st_ino0
             then EdgeRecord ED_CREATE (node_id (Demo.node MSG_TASK 1 false))
                    (node_id node) FLOW_ALLOWED
                  :: permission_edges MAY_READ (Demo.node MSG_TASK 1 false) node
             else []).
Proof.
  apply (provenance_inode_permission_allocates st_ino0 6 MAY_READ
           {| i_ino := ASSIGN_NODE_ID; i_uid := 0; i_gid := 0; i_mode := 420;
              i_private := false; i_sb := 0%nat; i_provenance := None;
              i_ifc := Some empty_context |}
           {| s_uuid := [1; 2; 3]; s_provenance := Some 2%nat |} 2
           (Demo.node MSG_SB 0 false) empty_context Demo.cred_P 0
           (Demo.node MSG_TASK 1 false) 7); try reflexivity; cbn; lia.
Defined.

(** The inode numbered like the sentinel gets the generated identifier 6
    and the generator moves on to 7; inode 6 of [Demo.st], numbered 43,
    gets 43 and the generator stays at 6. *)
Example provenance_inode_permission_sentinel :
  let o := provenance_inode_permission 6 MAY_READ st_ino0 in
  let o' := provenance_inode_permission 6 MAY_READ Demo.st in
  (st' ← final o; n ← prov_heap st' !! 10%nat; Some (node_id n)) = Some 6
  /\ (next_node_id <$> final o) = Some 7
  /\ (st' ← final o'; n ← prov_heap st' !! 10%nat; Some (node_id n)) = Some 43
  /\ (next_node_id <$> final o') = Some 6.
Proof. vm_compute. auto. Qed.

(** ** Files: open, mmap, ioctl *)

Lemma with_node_id a n st : prov_heap st !! a = Some n -> with_node a n st = st.
Proof.
  intros H. destruct st. unfold with_node, set_prov_heap. cbn in *.
  now rewrite insert_id.
Qed.

Lemma node_id_named n : node_id (named n) = node_id n.
Proof. unfold named. now destruct (negb (name_recorded n) && tracked n). Qed.

(** The name capture in one equation. *)
Lemma provenance_record_file_name_named st f i a ip :
  inodes st !! f_inode f = Some i ->
  i_provenance i = Some a ->
  prov_heap st !! a = Some ip ->
  can_capture st ip = true ->
  provenance_record_file_name f st
  = Done tt (emit_all (name_records MSG_FILE_NAME (take (PATH_MAX - 1) (f_path f)) ip)
               (with_node a (named ip) st)).
Proof.
  intros Hi Ha Hip Hcan. unfold can_capture, slab_empty in Hcan.
  destruct (slab_avail st) as [|n] eqn:Hs.
  - cbn [Nat.eqb negb] in Hcan. rewrite orb_false_r in Hcan.
    apply negb_true_iff in Hcan.
    unfold name_records, named. rewrite Hcan.
    cbn [emit_all fold_left]. rewrite with_node_id by exact Hip.
    unfold provenance_record_file_name. run1. rewrite Ha. run1.
    destruct (name_recorded ip); cbn [negb andb] in *.
    + run1. reflexivity.
    + run1. rewrite Hcan. reflexivity.
  - rewrite (provenance_record_file_name_run st f i a ip n Hi Ha Hip Hs).
    unfold name_records, named.
    destruct (negb (name_recorded ip) && tracked ip); [reflexivity|].
    cbn [emit_all fold_left]. now rewrite with_node_id.
Qed.

Lemma provenance_record_address_named st sock s a sp address addrlen :
  socks st !! sock_sk sock = Some s ->
  sk_provenance s = Some a ->
  prov_heap st !! a = Some sp ->
  can_capture st sp = true ->
  provenance_record_address sock address addrlen st
  = Done tt (emit_all (name_records MSG_ADDR (take addrlen address) sp)
               (with_node a (named sp) st)).
Proof.
  intros Hi Ha Hip Hcan. unfold can_capture, slab_empty in Hcan.
  destruct (slab_avail st) as [|n] eqn:Hs.
  - cbn [Nat.eqb negb] in Hcan. rewrite orb_false_r in Hcan.
    apply negb_true_iff in Hcan.
    unfold name_records, named. rewrite Hcan.
    cbn [emit_all fold_left]. rewrite with_node_id by exact Hip.
    unfold provenance_record_address. run1. rewrite Ha. run1.
    destruct (name_recorded sp); cbn [negb andb] in *.
    + run1. reflexivity.
    + run1. rewrite Hcan. reflexivity.
  - rewrite (provenance_record_address_run st sock s a sp n address addrlen Hi Ha Hip Hs).
    unfold name_records, named.
    destruct (negb (name_recorded sp) && tracked sp); [reflexivity|].
    cbn [emit_all fold_left]. now rewrite with_node_id.
Qed.

(** Once the name is captured there is nothing left to capture. *)
Lemma can_capture_named st n : can_capture st (named n) = true.
Proof.
  unfold can_capture, named.
  destruct (negb (name_recorded n) && tracked n) eqn:E; [reflexivity|].
  now rewrite E.
Qed.

Lemma mmap_edges_run st prot cp cn ip n_i :
  prov_heap st !! cp = Some cn ->
  prov_heap st !! ip = Some n_i ->
  ((if negb (Z.land prot (Z.lor PROT_WRITE PROT_EXEC) =? 0)
    then record_edge ED_MMAP (Some cp) (Some ip) FLOW_ALLOWED else ret tt) ;;;
   (if negb (Z.land prot (Z.lor (Z.lor PROT_READ PROT_EXEC) PROT_WRITE) =? 0)
    then record_edge ED_MMAP (Some ip) (Some cp) FLOW_ALLOWED else ret tt) ;;;
   ret 0) st
  = Done 0 (emit_all (mmap_edges prot cn n_i) st).
Proof.
  intros Hc Hi. unfold mmap_edges.
  destruct (negb (Z.land prot (Z.lor PROT_WRITE PROT_EXEC) =? 0));
    destruct (negb (Z.land prot (Z.lor (Z.lor PROT_READ PROT_EXEC) PROT_WRITE) =? 0));
    repeat run1; reflexivity.
Qed.

(** A protection that asks for writing or executing asks for something. *)
Lemma mmap_write_implies_any prot :
  Z.land prot (Z.lor PROT_WRITE PROT_EXEC) <> 0 ->
  Z.land prot (Z.lor (Z.lor PROT_READ PROT_EXEC) PROT_WRITE) <> 0.
Proof.
  intros H E. apply H. apply Z.bits_inj_0. intros k.
  apply (f_equal (fun z => Z.testbit z k)) in E.
  rewrite Z.bits_0 in E. rewrite Z.land_spec in *.
  destruct (Z.testbit prot k); [|reflexivity]. cbn [andb] in *.
  change (Z.lor (Z.lor PROT_READ PROT_EXEC) PROT_WRITE) with 7 in E.
  change (Z.lor PROT_WRITE PROT_EXEC) with 6.
  destruct (Z.testbit 6 k) eqn:E6; [|reflexivity].
  assert (Z.testbit 7 k = true) as E7; [|congruence].
  change 7 with (Z.lor 6 1). rewrite Z.lor_spec, E6. reflexivity.
Qed.

(** Without the write and exec bits only the read bit is left of the
    three. *)
Lemma mmap_read_alone prot :
  Z.land prot (Z.lor PROT_WRITE PROT_EXEC) = 0 ->
  Z.land prot (Z.lor (Z.lor PROT_READ PROT_EXEC) PROT_WRITE) = Z.land prot PROT_READ.
Proof.
  intros E.
  change (Z.lor (Z.lor PROT_READ PROT_EXEC) PROT_WRITE)
    with (Z.lor PROT_READ (Z.lor PROT_WRITE PROT_EXEC)).
  now rewrite Z.land_lor_distr_r, E, Z.lor_0_r.
Qed.

(** X7.  On a file whose inode has a node, and with memory for the path
    buffer and the long record when the name has still to be captured
    (the node is tracked and not yet named), [provenance_mmap_file]
    answers 0: it first captures the file name and then hands the sink an
    MMAP edge from the subject to the inode when the protection asks for
    write or exec, and an MMAP edge from the inode to the subject when it
    asks for read, write or exec: a writable or executable mapping is
    recorded in both directions, a mapping that is only readable from the
    inode to the subject, a mapping with none of the three bits not at
    all.  An anonymous mapping (no file) is answered 0 and changes
    nothing. *)
Theorem provenance_mmap_file_edges st f prot cc cp cn i ip n_i :
  creds st !! current_cred st = Some cc ->
  cred_provenance cc = Some cp ->
  prov_heap st !! cp = Some cn ->
  inodes st !! f_inode f = Some i ->
  i_provenance i = Some ip ->
  prov_heap st !! ip = Some n_i ->
  cp <> ip ->
  can_capture st n_i = true ->
  provenance_mmap_file (Some f) prot st
  = Done 0 (emit_all
              (name_records MSG_FILE_NAME (take (PATH_MAX - 1) (f_path f)) n_i
               ++ mmap_edges prot cn n_i)
              (with_node ip (named n_i) st))
  /\ provenance_mmap_file None prot st = Done 0 st
  /\ mmap_edges prot cn n_i
     = (if Z.land prot (Z.lor PROT_WRITE PROT_EXEC) =? 0
        then if Z.land prot PROT_READ =? 0
             then []
             else [EdgeRecord ED_MMAP (node_id n_i) (node_id cn) FLOW_ALLOWED]
        else [EdgeRecord ED_MMAP (node_id cn) (node_id n_i) FLOW_ALLOWED;
              EdgeRecord ED_MMAP (node_id n_i) (node_id cn) FLOW_ALLOWED]).
Proof.
  intros Hc Hcp Hcn Hi Hip Hn Hne Hs. split_and!.
  - unfold provenance_mmap_file. run1.
    rewrite (bind_Done _ _ _ _ _
               (provenance_record_file_name_named st f i ip n_i Hi Hip Hn Hs)).
    erewrite bind_Done; cycle 1.
    { apply (inode_get_provenance_run _ i). now rewrite emit_all_inodes. }
    rewrite Hip, Hcp. cbv zeta.
    change (Z.lor (Z.lor PROT_EXEC PROT_READ) PROT_WRITE) with 7.
    erewrite (mmap_edges_run _ (Z.land prot 7) cp cn ip (named n_i)); cycle 1.
    { rewrite emit_all_prov_heap. unfold with_node. norm.
      now rewrite lookup_insert_ne by congruence. }
    { rewrite emit_all_prov_heap. unfold with_node. norm. apply lookup_insert_eq. }
    rewrite emit_all_app. f_equal. f_equal.
    unfold mmap_edges. rewrite node_id_named, <- !Z.land_assoc. reflexivity.
  - unfold provenance_mmap_file. run1. reflexivity.
  - unfold mmap_edges.
    destruct (Z.eqb_spec (Z.land prot (Z.lor PROT_WRITE PROT_EXEC)) 0) as [E|E].
    + rewrite (mmap_read_alone prot E). cbn [negb app].
      now destruct (Z.land prot PROT_READ =? 0).
    + apply mmap_write_implies_any, Z.eqb_neq in E. now rewrite E.
Qed.

Lemma provenance_mmap_file_edges_witness :
  provenance_mmap_file (Some Demo.file_5) PROT_WRITE Demo.st
  = Done 0 (emit_all
              (name_records MSG_FILE_NAME (take (PATH_MAX - 1) [47; 97])
                 (Demo.node MSG_INODE 42 true)
               ++ mmap_edges PROT_WRITE (Demo.node MSG_TASK 1 false)
                    (Demo.node MSG_INODE 42 true))
              (with_node 3 (named (Demo.node MSG_INODE 42 true)) Demo.st))
  /\ provenance_mmap_file None PROT_WRITE Demo.st = Done 0 Demo.st
  /\ mmap_edges PROT_WRITE (Demo.node MSG_TASK 1 false) (Demo.node MSG_INODE 42 true)
     = (if Z.land PROT_WRITE (Z.lor PROT_WRITE PROT_EXEC) =? 0
        then if Z.land PROT_WRITE PROT_READ =? 0
             then []
             else [EdgeRecord ED_MMAP 42 1 FLOW_ALLOWED]
        else [EdgeRecord ED_MMAP 1 42 FLOW_ALLOWED; EdgeRecord ED_MMAP 42 1 FLOW_ALLOWED]).
Proof.
  apply (provenance_mmap_file_edges Demo.st Demo.file_5 PROT_WRITE Demo.cred_P 0
           (Demo.node MSG_TASK 1 false) Demo.inode_5 3 (Demo.node MSG_INODE 42 true));
    try reflexivity; cbn; lia.
Defined.

Lemma emit_with_node r a n st : emit r (with_node a n st) = with_node a n (emit r st).
Proof. reflexivity. Qed.

Lemma emit_all_with_node l a n : forall st,
  emit_all l (with_node a n st) = with_node a n (emit_all l st).
Proof.
  induction l as [|r l IH]; intros st; [reflexivity|].
  cbn [emit_all fold_left]. rewrite emit_with_node. apply IH.
Qed.

Lemma with_node_twice a n m st : with_node a n (with_node a m st) = with_node a n st.
Proof.
  unfold with_node. norm. now rewrite insert_insert_eq.
Qed.

Lemma with_node_heap a n st : prov_heap (with_node a n st) = <[a := n]> (prov_heap st).
Proof. reflexivity. Qed.

Lemma with_node_inodes a n st : inodes (with_node a n st) = inodes st.
Proof. reflexivity. Qed.

Lemma emit_prov_heap r st : prov_heap (emit r st) = prov_heap st.
Proof. reflexivity. Qed.

(** Looks a record up through the emissions and updates made so far. *)
Ltac heap_now :=
  repeat (rewrite ?emit_prov_heap, ?emit_all_prov_heap, ?with_node_heap;
          first [rewrite lookup_insert_eq | rewrite lookup_insert_ne by congruence]);
  rewrite ?emit_prov_heap, ?emit_all_prov_heap, ?with_node_heap;
  try eassumption; try reflexivity.

(** X8.  [provenance_file_open] on a file whose inode has a node, with
    memory for the path buffer and the long record when the name has
    still to be captured (the node is tracked and not yet named), answers
    0, captures the file name and then hands the sink one OPEN edge from
    the inode to the subject; the only record it changes is the inode's
    node, which it marks as named. *)
Theorem provenance_file_open_edge st f cc cp cn i ip n_i :
  creds st !! current_cred st = Some cc ->
  cred_provenance cc = Some cp ->
  prov_heap st !! cp = Some cn ->
  inodes st !! f_inode f = Some i ->
  i_provenance i = Some ip ->
  prov_heap st !! ip = Some n_i ->
  cp <> ip ->
  can_capture st n_i = true ->
  provenance_file_open f st
  = Done 0 (emit_all
              (name_records MSG_FILE_NAME (take (PATH_MAX - 1) (f_path f)) n_i
               ++ [EdgeRecord ED_OPEN (node_id n_i) (node_id cn) FLOW_ALLOWED])
              (with_node ip (named n_i) st)).
Proof.
  intros Hc Hcp Hcn Hi Hip Hn Hne Hs.
  unfold provenance_file_open. do 2 run1. rewrite Hip. run1.
  rewrite (bind_Done _ _ _ _ _
             (provenance_record_file_name_named st f i ip n_i Hi Hip Hn Hs)).
  erewrite bind_Done; cycle 1.
  { apply (inode_get_provenance_run _ i). now rewrite emit_all_inodes. }
  rewrite Hip, Hcp.
  erewrite bind_Done; cycle 1.
  { apply (record_edge_run _ ip cp (named n_i) cn).
    - rewrite emit_all_prov_heap, with_node_heap. apply lookup_insert_eq.
    - rewrite emit_all_prov_heap, with_node_heap.
      now rewrite lookup_insert_ne by congruence. }
  rewrite ret_run, emit_all_app, node_id_named. reflexivity.
Qed.

Lemma provenance_file_open_edge_witness :
  provenance_file_open Demo.file_5 Demo.st
  = Done 0 (emit_all
              (name_records MSG_FILE_NAME (take (PATH_MAX - 1) [47; 97])
                 (Demo.node MSG_INODE 42 true)
               ++ [EdgeRecord ED_OPEN 42 1 FLOW_ALLOWED])
              (with_node 3 (named (Demo.node MSG_INODE 42 true)) Demo.st)).
Proof.
  apply (provenance_file_open_edge Demo.st Demo.file_5 Demo.cred_P 0
           (Demo.node MSG_TASK 1 false) Demo.inode_5 3 (Demo.node MSG_INODE 42 true));
    try reflexivity; cbn; lia.
Defined.

(** The node with its version counted up, as [prov_update_version] leaves it. *)
Lemma prov_update_version_run a n st :
  prov_heap st !! a = Some n ->
  prov_update_version (Some a) st
  = Done tt (with_node a (set_version (version n + 1) n) st).
Proof.
  intros H. unfold prov_update_version. run1.
  now rewrite (update_node_run a n _ st H).
Qed.

(** X9.  [provenance_file_ioctl] on a file whose inode has a node, with
    memory for the path buffer and the long record when the name has
    still to be captured (the node is tracked and not yet named), answers
    0 and treats the call as an exchange in both directions: after the
    name capture it hands the sink a WRITE edge from the subject to the
    inode and a READ edge from the inode to the subject, and it counts the
    version of both nodes up by one. *)
Theorem provenance_file_ioctl_exchange st f cc cp cn i ip n_i :
  creds st !! current_cred st = Some cc ->
  cred_provenance cc = Some cp ->
  prov_heap st !! cp = Some cn ->
  inodes st !! f_inode f = Some i ->
  i_provenance i = Some ip ->
  prov_heap st !! ip = Some n_i ->
  cp <> ip ->
  can_capture st n_i = true ->
  provenance_file_ioctl f st
  = Done 0 (emit_all
              (name_records MSG_FILE_NAME (take (PATH_MAX - 1) (f_path f)) n_i
               ++ [EdgeRecord ED_WRITE (node_id cn) (node_id n_i) FLOW_ALLOWED;
                   EdgeRecord ED_READ (node_id n_i) (node_id cn) FLOW_ALLOWED])
              (with_node cp (set_version (version cn + 1) cn)
                 (with_node ip (set_version (version n_i + 1) (named n_i)) st))).
Proof.
  intros Hc Hcp Hcn Hi Hip Hn Hne Hs.
  unfold provenance_file_ioctl. do 2 run1. rewrite Hip. run1.
  rewrite (bind_Done _ _ _ _ _
             (provenance_record_file_name_named st f i ip n_i Hi Hip Hn Hs)).
  set (names := name_records _ _ _).
  erewrite bind_Done; cycle 1.
  { apply (inode_get_provenance_run _ i). now rewrite emit_all_inodes. }
  rewrite Hip, Hcp.
  erewrite bind_Done; cycle 1.
  { apply (record_edge_run _ cp ip cn (named n_i)); heap_now. }
  erewrite bind_Done; cycle 1.
  { apply (prov_update_version_run ip (named n_i)); heap_now. }
  erewrite bind_Done; cycle 1.
  { apply (record_edge_run _ ip cp (set_version (version (named n_i) + 1) (named n_i)) cn);
      heap_now. }
  erewrite bind_Done; cycle 1.
  { apply (prov_update_version_run cp cn); heap_now. }
  rewrite ret_run. f_equal.
  rewrite emit_all_app. cbn [emit_all fold_left]. fold (emit_all names).
  rewrite ?emit_all_with_node, ?emit_with_node.
  rewrite ?emit_all_with_node, ?emit_with_node, with_node_twice.
  replace (version (named n_i)) with (version n_i)
    by (unfold named; now destruct (negb (name_recorded n_i) && tracked n_i)).
  replace (node_id (set_version (version n_i + 1) (named n_i))) with (node_id n_i)
    by (unfold named; now destruct (negb (name_recorded n_i) && tracked n_i)).
  rewrite node_id_named. reflexivity.
Qed.

Lemma provenance_file_ioctl_exchange_witness :
  provenance_file_ioctl Demo.file_5 Demo.st
  = Done 0 (emit_all
              (name_records MSG_FILE_NAME (take (PATH_MAX - 1) [47; 97])
                 (Demo.node MSG_INODE 42 true)
               ++ [EdgeRecord ED_WRITE 1 42 FLOW_ALLOWED;
                   EdgeRecord ED_READ 42 1 FLOW_ALLOWED])
              (with_node 0 (set_version (0 + 1) (Demo.node MSG_TASK 1 false))
                 (with_node 3 (set_version (0 + 1) (named (Demo.node MSG_INODE 42 true)))
                    Demo.st))).
Proof.
  apply (provenance_file_ioctl_exchange Demo.st Demo.file_5 Demo.cred_P 0
           (Demo.node MSG_TASK 1 false) Demo.inode_5 3 (Demo.node MSG_INODE 42 true));
    try reflexivity; cbn; lia.
Defined.

(** X10.  [provenance_shm_shmat] on a segment without a node answers
    -ENOMEM and changes nothing.  On a segment with a node it answers 0
    and always hands the sink an ATTACH edge from the segment to the
    subject; the ATTACH edge from the subject to the segment follows only
    when the attach is not read-only. *)
Theorem provenance_shm_shmat_edges st s shp shmflg cc cp cn :
  creds st !! current_cred st = Some cc ->
  cred_provenance cc = Some cp ->
  prov_heap st !! cp = Some cn ->
  shms st !! s = Some shp ->
  match shm_provenance shp with
  | None => provenance_shm_shmat s shmflg st = Done (- ENOMEM) st
  | Some sp =>
      forall sn, prov_heap st !! sp = Some sn ->
      provenance_shm_shmat s shmflg st
      = Done 0 (emit_all
                  (EdgeRecord ED_ATTACH (node_id sn) (node_id cn) FLOW_ALLOWED
                   :: (if Z.land shmflg SHM_RDONLY =? 0
                       then [EdgeRecord ED_ATTACH (node_id cn) (node_id sn) FLOW_ALLOWED]
                       else []))
                  st)
  end.
Proof.
  intros Hc Hcp Hcn Hs.
  destruct (shm_provenance shp) as [sp|] eqn:Hsp.
  - intros sn Hsn. unfold provenance_shm_shmat. do 2 run1. rewrite Hsp, Hcp.
    destruct (Z.land shmflg SHM_RDONLY =? 0); cbn [negb];
      rewrite ?bind_assoc; repeat run1; reflexivity.
  - unfold provenance_shm_shmat. do 2 run1. rewrite Hsp. reflexivity.
Qed.

Lemma provenance_shm_shmat_edges_witness :
  provenance_shm_shmat 1 SHM_RDONLY Demo.st
  = Done 0 (emit_all
              (EdgeRecord ED_ATTACH 5 1 FLOW_ALLOWED
               :: (if Z.land SHM_RDONLY SHM_RDONLY =? 0
                   then [EdgeRecord ED_ATTACH 1 5 FLOW_ALLOWED] else []))
              Demo.st).
Proof.
  apply (provenance_shm_shmat_edges Demo.st 1
           {| shm_mode := 384; shm_ifc := Some empty_context; shm_provenance := Some 6%nat |}
           SHM_RDONLY Demo.cred_P 0 (Demo.node MSG_TASK 1 false)
           eq_refl eq_refl eq_refl eq_refl (Demo.node MSG_SHM 5 false) eq_refl).
Defined.

(** ** Sockets *)

Lemma name_records_named k payload n : name_records k payload (named n) = [].
Proof.
  unfold name_records, named.
  destruct (negb (name_recorded n) && tracked n) eqn:E; [reflexivity|now rewrite E].
Qed.

Lemma named_named n : named (named n) = named n.
Proof.
  unfold named at 1.
  destruct (negb (name_recorded (named n)) && tracked (named n)) eqn:E; [|reflexivity].
  unfold named in E.
  destruct (negb (name_recorded n) && tracked n) eqn:E'; [discriminate|congruence].
Qed.

Lemma opaque_named n : opaque (named n) = opaque n.
Proof. unfold named. now destruct (negb (name_recorded n) && tracked n). Qed.

(** X11.  For a subject whose node is opaque [provenance_socket_bind] and
    [provenance_socket_connect] answer 0 and change nothing, whether or
    not the socket has a node: the opacity test comes before the test for
    a missing node. *)
Theorem socket_bind_connect_opaque st sock s address addrlen cc cp cn :
  creds st !! current_cred st = Some cc ->
  cred_provenance cc = Some cp ->
  prov_heap st !! cp = Some cn ->
  opaque cn = true ->
  socks st !! sock_sk sock = Some s ->
  provenance_socket_bind sock address addrlen st = Done 0 st
  /\ provenance_socket_connect sock address addrlen st = Done 0 st.
Proof.
  intros Hc Hcp Hcn Ho Hs.
  unfold provenance_socket_bind, provenance_socket_connect.
  split; do 2 run1; rewrite Hcp; run1; rewrite Ho; reflexivity.
Qed.

Lemma socket_bind_connect_opaque_witness :
  provenance_socket_bind Demo.socket_0 [1; 2] 2 st_opaque = Done 0 st_opaque
  /\ provenance_socket_connect Demo.socket_0 [1; 2] 2 st_opaque = Done 0 st_opaque.
Proof.
  apply (socket_bind_connect_opaque st_opaque Demo.socket_0 {| sk_provenance := None |}
           [1; 2] 2 Demo.cred_P 0 opaque_task);
    reflexivity.
Defined.

Lemma provenance_socket_bind_run st sock s b sp address addrlen cc cp cn :
  creds st !! current_cred st = Some cc ->
  cred_provenance cc = Some cp ->
  prov_heap st !! cp = Some cn ->
  opaque cn = false ->
  socks st !! sock_sk sock = Some s ->
  sk_provenance s = Some b ->
  prov_heap st !! b = Some sp ->
  cp <> b ->
  can_capture st sp = true ->
  provenance_socket_bind sock address addrlen st
  = Done 0 (emit_all
              (name_records MSG_ADDR (take addrlen address) sp
               ++ [EdgeRecord ED_BIND (node_id cn) (node_id sp) FLOW_ALLOWED])
              (with_node b (named sp) st)).
Proof.
  intros Hc Hcp Hcn Ho Hs Hb Hsp Hne Hn.
  unfold provenance_socket_bind. do 2 run1. rewrite Hcp. run1. rewrite Ho, Hb.
  rewrite (bind_Done _ _ _ _ _
             (provenance_record_address_named st sock s b sp address addrlen
                Hs Hb Hsp Hn)).
  erewrite bind_Done; cycle 1.
  { apply (record_edge_run _ cp b cn (named sp)); heap_now. }
  rewrite ret_run, emit_all_app, node_id_named. reflexivity.
Qed.

Lemma provenance_socket_connect_run st sock s b sp address addrlen cc cp cn :
  creds st !! current_cred st = Some cc ->
  cred_provenance cc = Some cp ->
  prov_heap st !! cp = Some cn ->
  opaque cn = false ->
  socks st !! sock_sk sock = Some s ->
  sk_provenance s = Some b ->
  prov_heap st !! b = Some sp ->
  cp <> b ->
  can_capture st sp = true ->
  provenance_socket_connect sock address addrlen st
  = Done 0 (emit_all
              (name_records MSG_ADDR (take addrlen address) sp
               ++ [EdgeRecord ED_CONNECT (node_id cn) (node_id sp) FLOW_ALLOWED])
              (with_node b (named sp) st)).
Proof.
  intros Hc Hcp Hcn Ho Hs Hb Hsp Hne Hn.
  unfold provenance_socket_connect. do 2 run1. rewrite Hcp. run1. rewrite Ho, Hb.
  rewrite (bind_Done _ _ _ _ _
             (provenance_record_address_named st sock s b sp address addrlen
                Hs Hb Hsp Hn)).
  erewrite bind_Done; cycle 1.
  { apply (record_edge_run _ cp b cn (named sp)); heap_now. }
  rewrite ret_run, emit_all_app, node_id_named. reflexivity.
Qed.

(** X12.  A bind followed by a connect on the same socket, by a subject
    that is not opaque, with memory for the long record when the address
    has still to be captured (the socket's node is tracked and not yet
    named), answers 0 and hands the sink the address of the bind (when
    the socket's node is tracked and not yet named), a BIND edge and a
    CONNECT edge, both from the subject to the socket.  The address given
    to the connect is never recorded. *)
Theorem socket_bind_then_connect st sock s b sp a1 l1 a2 l2 cc cp cn :
  creds st !! current_cred st = Some cc ->
  cred_provenance cc = Some cp ->
  prov_heap st !! cp = Some cn ->
  opaque cn = false ->
  socks st !! sock_sk sock = Some s ->
  sk_provenance s = Some b ->
  prov_heap st !! b = Some sp ->
  cp <> b ->
  can_capture st sp = true ->
  (provenance_socket_bind sock a1 l1 ;;; provenance_socket_connect sock a2 l2) st
  = Done 0 (emit_all
              (name_records MSG_ADDR (take l1 a1) sp
               ++ [EdgeRecord ED_BIND (node_id cn) (node_id sp) FLOW_ALLOWED;
                   EdgeRecord ED_CONNECT (node_id cn) (node_id sp) FLOW_ALLOWED])
              (with_node b (named sp) st)).
Proof.
  intros Hc Hcp Hcn Ho Hs Hb Hsp Hne Hn.
  rewrite (bind_Done _ _ _ _ _
             (provenance_socket_bind_run st sock s b sp a1 l1 cc cp cn
                Hc Hcp Hcn Ho Hs Hb Hsp Hne Hn)).
  set (l := name_records _ _ _ ++ _).
  rewrite (provenance_socket_connect_run _ sock s b (named sp) a2 l2 cc cp cn);
    try assumption.
  - rewrite name_records_named, named_named, node_id_named. cbn [app].
    rewrite !emit_all_with_node, with_node_twice.
    subst l. rewrite <- emit_all_app, <- app_assoc. reflexivity.
  - now rewrite emit_all_creds, (emit_all_keeps current_cred _ (fun _ _ => eq_refl)).
  - heap_now.
  - now rewrite emit_all_socks.
  - heap_now.
  - apply can_capture_named.
Qed.

Lemma socket_bind_then_connect_witness :
  (provenance_socket_bind Demo.socket_1 [10; 0; 0; 1] 4 ;;;
   provenance_socket_connect Demo.socket_1 [10; 0; 0; 2] 4) Demo.st
  = Done 0 (emit_all
              (name_records MSG_ADDR (take 4 [10; 0; 0; 1]) (Demo.node MSG_SOCK 4 true)
               ++ [EdgeRecord ED_BIND 1 4 FLOW_ALLOWED;
                   EdgeRecord ED_CONNECT 1 4 FLOW_ALLOWED])
              (with_node 5 (named (Demo.node MSG_SOCK 4 true)) Demo.st)).
Proof.
  apply (socket_bind_then_connect Demo.st Demo.socket_1 {| sk_provenance := Some 5%nat |}
           5 (Demo.node MSG_SOCK 4 true) [10; 0; 0; 1] 4 [10; 0; 0; 2] 4
           Demo.cred_P 0 (Demo.node MSG_TASK 1 false));
    try reflexivity; cbn; lia.
Defined.

(** X13.  [provenance_socket_post_create] answers 0 without changing
    anything for a kernel socket.  For a user socket whose sock already
    has a node it stores type, family and protocol in that node and hands
    the sink a CREATE edge from the subject to the sock followed by an
    ASSOCIATE edge from the sock to the socket's inode. *)
Theorem provenance_socket_post_create_edges st sock family type protocol
    cc cp cn i ip n_i s b sn :
  creds st !! current_cred st = Some cc ->
  cred_provenance cc = Some cp ->
  prov_heap st !! cp = Some cn ->
  inodes st !! sock_inode sock = Some i ->
  i_provenance i = Some ip ->
  prov_heap st !! ip = Some n_i ->
  socks st !! sock_sk sock = Some s ->
  sk_provenance s = Some b ->
  prov_heap st !! b = Some sn ->
  b <> cp -> b <> ip ->
  provenance_socket_post_create sock family type protocol true st = Done 0 st
  /\ provenance_socket_post_create sock family type protocol false st
     = Done 0 (emit_all
                 [EdgeRecord ED_CREATE (node_id cn) (node_id sn) FLOW_ALLOWED;
                  EdgeRecord ED_ASSOCIATE (node_id sn) (node_id n_i) FLOW_ALLOWED]
                 (with_node b (set_sock_info type family protocol sn) st)).
Proof.
  intros Hc Hcp Hcn Hi Hip Hn Hs Hb Hsn Hne1 Hne2.
  unfold provenance_socket_post_create. split.
  - do 2 run1. reflexivity.
  - do 3 run1. rewrite Hb. do 2 run1. rewrite Hb, Hcp, Hip.
    erewrite bind_Done by (eapply update_node_run; eassumption).
    fold (with_node b (set_sock_info type family protocol sn) st).
    erewrite bind_Done; cycle 1.
    { apply (record_edge_run _ cp b cn (set_sock_info type family protocol sn));
        heap_now. }
    erewrite bind_Done; cycle 1.
    { apply (record_edge_run _ b ip (set_sock_info type family protocol sn) n_i);
        heap_now. }
    reflexivity.
Qed.

Lemma provenance_socket_post_create_edges_witness :
  provenance_socket_post_create Demo.socket_1 2 1 6 true Demo.st = Done 0 Demo.st
  /\ provenance_socket_post_create Demo.socket_1 2 1 6 false Demo.st
     = Done 0 (emit_all
                 [EdgeRecord ED_CREATE 1 4 FLOW_ALLOWED;
                  EdgeRecord ED_ASSOCIATE 4 42 FLOW_ALLOWED]
                 (with_node 5 (set_sock_info 1 2 6 (Demo.node MSG_SOCK 4 true)) Demo.st)).
Proof.
  apply (provenance_socket_post_create_edges Demo.st Demo.socket_1 2 1 6
           Demo.cred_P 0 (Demo.node MSG_TASK 1 false)
           Demo.inode_5 3 (Demo.node MSG_INODE 42 true)
           {| sk_provenance := Some 5%nat |} 5 (Demo.node MSG_SOCK 4 true));
    try reflexivity; cbn; lia.
Defined.

(** X14.  [provenance_socket_post_create] does not look at the answer of
    [provenance_sk_alloc_security]: on a user socket whose sock has no
    node, when the allocation fails, it goes on to write the socket
    information through the NULL pointer. *)
Theorem provenance_socket_post_create_null st sock family type protocol cc i s :
  creds st !! current_cred st = Some cc ->
  inodes st !! sock_inode sock = Some i ->
  socks st !! sock_sk sock = Some s ->
  sk_provenance s = None ->
  slab_avail st = O ->
  provenance_socket_post_create sock family type protocol false st = Oops.
Proof.
  intros Hc Hi Hs Hb H0.
  unfold provenance_socket_post_create. do 3 run1. rewrite Hb.
  rewrite bind_assoc. unfold provenance_sk_alloc_security.
  rewrite bind_assoc.
  rewrite (bind_Done _ _ _ _ _ (alloc_provenance_fail MSG_SOCK st H0)).
  do 3 run1. rewrite Hb. reflexivity.
Qed.

Lemma provenance_socket_post_create_null_witness :
  provenance_socket_post_create Demo.socket_0 2 1 6 false (set_slab_avail 0 Demo.st)
  = Oops.
Proof.
  apply (provenance_socket_post_create_null (set_slab_avail 0 Demo.st) Demo.socket_0 2 1 6
           Demo.cred_P Demo.inode_5 {| sk_provenance := None |});
    reflexivity.
Defined.

(** ** Releasing nodes *)

(** Loads an object whose node pointer has just been rewritten. *)
Ltac reload H :=
  erewrite bind_Done
    by (eapply load_Some; norm; rewrite lookup_alter_eq, H; reflexivity);
  norm.

(** X15.  The free hooks of credentials, messages, shared memory
    segments, socks and superblocks hand the object's node to
    [free_provenance] and clear the pointer, so that a second run on the
    same object releases [NULL] and no record twice. *)
Theorem free_hooks_release_once st c cr m msg s shp sk so sb su :
  creds st !! c = Some cr ->
  msgs st !! m = Some msg ->
  shms st !! s = Some shp ->
  socks st !! sk = Some so ->
  sbs st !! sb = Some su ->
  frees_once (provenance_cred_free c) (cred_provenance cr) st
  /\ frees_once (provenance_msg_msg_free_security m) (msg_provenance msg) st
  /\ frees_once (provenance_shm_free_security s) (shm_provenance shp) st
  /\ frees_once (provenance_sk_free_security sk) (sk_provenance so) st
  /\ frees_once (provenance_sb_free_security sb) (s_provenance su) st.
Proof.
  intros Hc Hm Hs Hk Hb. unfold frees_once. split_and!.
  - unfold provenance_cred_free, free_provenance, cred_set_provenance.
    destruct (cred_provenance cr) as [a|] eqn:E;
      (eexists _, _; split; [do 2 run1; rewrite E; reflexivity|];
       split; [reload Hc; run1; reflexivity|];
       norm; split_and!; try reflexivity;
       intros a' [= <-]; apply lookup_delete_eq).
  - unfold provenance_msg_msg_free_security, free_provenance.
    destruct (msg_provenance msg) as [a|] eqn:E;
      (eexists _, _; split; [do 2 run1; rewrite E; reflexivity|];
       split; [reload Hm; run1; reflexivity|];
       norm; split_and!; try reflexivity;
       intros a' [= <-]; apply lookup_delete_eq).
  - unfold provenance_shm_free_security, free_provenance.
    destruct (shm_provenance shp) as [a|] eqn:E;
      (eexists _, _; split; [do 2 run1; rewrite E; reflexivity|];
       split; [reload Hs; run1; reflexivity|];
       norm; split_and!; try reflexivity;
       intros a' [= <-]; apply lookup_delete_eq).
  - unfold provenance_sk_free_security, free_provenance.
    destruct (sk_provenance so) as [a|] eqn:E;
      (eexists _, _; split; [do 2 run1; rewrite E; reflexivity|];
       split; [reload Hk; run1; reflexivity|];
       norm; split_and!; try reflexivity;
       intros a' [= <-]; apply lookup_delete_eq).
  - unfold provenance_sb_free_security, free_provenance.
    destruct (s_provenance su) as [a|] eqn:E;
      (eexists _, _; split; [do 2 run1; rewrite E; reflexivity|];
       split; [reload Hb; run1; reflexivity|];
       norm; split_and!; try reflexivity;
       intros a' [= <-]; apply lookup_delete_eq).
Qed.

Lemma free_hooks_release_once_witness :
  frees_once (provenance_cred_free 1) (Some 0%nat) Demo.st
  /\ frees_once (provenance_msg_msg_free_security 1) (Some 4%nat) Demo.st
  /\ frees_once (provenance_shm_free_security 1) (Some 6%nat) Demo.st
  /\ frees_once (provenance_sk_free_security 1) (Some 5%nat) Demo.st
  /\ frees_once (provenance_sb_free_security 0) (Some 2%nat) Demo.st.
Proof.
  apply (free_hooks_release_once Demo.st 1 Demo.cred_P
           1 {| m_type := 1; msg_ifc := Some empty_context; msg_provenance := Some 4%nat |}
           1 {| shm_mode := 384; shm_ifc := Some empty_context;
                shm_provenance := Some 6%nat |}
           1 {| sk_provenance := Some 5%nat |}
           0 {| s_uuid := [1; 2; 3]; s_provenance := Some 2%nat |});
    reflexivity.
Defined.

(** The state [provenance_cred_alloc_blank] leaves when memory is there. *)
Lemma provenance_cred_alloc_blank_run st c cr n :
  creds st !! c = Some cr ->
  slab_avail st = S n ->
  provenance_cred_alloc_blank c st
  = Done 0
      (set_creds (alter (set_cred_provenance (Some (next_addr st))) c (creds st))
         (with_node (next_addr st)
            (set_info_gid (egid cr)
               (set_info_uid (euid cr)
                  (set_node_id_field (next_node_id st) (zeroed MSG_TASK))))
            (set_next_node_id (next_node_id st + 1)
               (set_next_addr (S (next_addr st)) (set_slab_avail n st))))).
Proof.
  intros Hc Hs. unfold provenance_cred_alloc_blank, cred_set_provenance.
  do 6 run1. rewrite ret_run. f_equal. unfold with_node. norm.
  now rewrite !insert_insert_eq.
Qed.

(** X16.  A node given to a credential by [provenance_cred_alloc_blank]
    and taken back by [provenance_cred_free] leaves the credential and the
    record cache as they were; what stays consumed is the node identifier:
    the next one to be assigned is one further. *)
Theorem cred_alloc_blank_then_free st c cr n :
  creds st !! c = Some cr ->
  cred_provenance cr = None ->
  prov_heap st !! next_addr st = None ->
  slab_avail st = S n ->
  exists st',
    (provenance_cred_alloc_blank c ;;; provenance_cred_free c) st = Done tt st'
    /\ creds st' = creds st
    /\ prov_heap st' = prov_heap st
    /\ relay st' = relay st
    /\ released st' = Some (next_addr st) :: released st
    /\ next_node_id st' = next_node_id st + 1.
Proof.
  intros Hc Hp Hfresh Hs.
  rewrite (bind_Done _ _ _ _ _ (provenance_cred_alloc_blank_run st c cr n Hc Hs)).
  unfold provenance_cred_free, free_provenance, cred_set_provenance.
  reload Hc. run1. rewrite modify_run. eexists. split; [reflexivity|].
  cbn [cred_provenance set_cred_provenance]. unfold with_node. norm.
  split_and!; try reflexivity.
  - apply map_eq. intros k. destruct (decide (k = c)) as [->|Hk].
    + rewrite !lookup_alter_eq, Hc. cbn. f_equal. destruct cr. cbn in *. now subst.
    + now rewrite !lookup_alter_ne by congruence.
  - rewrite delete_insert_eq. now apply delete_id.
Qed.

Lemma cred_alloc_blank_then_free_witness :
  exists st',
    (provenance_cred_alloc_blank 1 ;;; provenance_cred_free 1) st_blank = Done tt st'
    /\ creds st' = creds st_blank
    /\ prov_heap st' = prov_heap st_blank
    /\ relay st' = relay st_blank
    /\ released st' = Some (next_addr st_blank) :: released st_blank
    /\ next_node_id st' = next_node_id st_blank + 1.
Proof.
  apply (cred_alloc_blank_then_free st_blank 1 (set_cred_provenance None Demo.cred_P) 7);
    reflexivity.
Defined.

(** ** Exec and mount *)

(** X17.  [provenance_bprm_set_creds] may be called several times during
    one exec.  On a credential that exists it always returns, with 0 or,
    when the node could not be allocated, with -ENOMEM and nothing
    changed; and a second call right after the first answers the same and
    leaves the state of the first: only the first call allocates. *)
Theorem provenance_bprm_set_creds_idempotent st bprm c :
  creds st !! bprm_cred bprm = Some c ->
  exists v st1,
    provenance_bprm_set_creds bprm st = Done v st1
    /\ (provenance_bprm_set_creds bprm ;;; provenance_bprm_set_creds bprm) st
       = Done v st1
    /\ (v = 0 \/ (v = - ENOMEM /\ st1 = st)).
Proof.
  intros Hc.
  assert (exists v st1,
            provenance_bprm_set_creds bprm st = Done v st1
            /\ provenance_bprm_set_creds bprm st1 = Done v st1
            /\ (v = 0 \/ (v = - ENOMEM /\ st1 = st))) as (v & st1 & H1 & H2 & Hv).
  { unfold provenance_bprm_set_creds.
    destruct (cred_provenance c) as [a|] eqn:Hp.
    - exists 0, st. split_and!; [run1; now rewrite Hp..|now left].
    - destruct (slab_avail st) as [|n] eqn:Hs.
      + exists (- ENOMEM), st.
        split_and!; [| |now right];
          run1; rewrite Hp; unfold provenance_cred_alloc_blank;
          now rewrite (bind_Done _ _ _ _ _ (alloc_provenance_fail _ st Hs)).
      + eexists 0, _. split_and!; [| |now left].
        * run1. rewrite Hp. apply (provenance_cred_alloc_blank_run st _ c n Hc Hs).
        * reload Hc. reflexivity. }
  exists v, st1. split_and!; [assumption| |assumption].
  now rewrite (bind_Done _ _ _ _ _ H1).
Qed.

Lemma provenance_bprm_set_creds_idempotent_witness :
  exists v st1,
    provenance_bprm_set_creds {| bprm_cred := 1; bprm_file := Demo.file_5 |} st_blank
    = Done v st1
    /\ (provenance_bprm_set_creds {| bprm_cred := 1; bprm_file := Demo.file_5 |} ;;;
        provenance_bprm_set_creds {| bprm_cred := 1; bprm_file := Demo.file_5 |}) st_blank
       = Done v st1
    /\ (v = 0 \/ (v = - ENOMEM /\ st1 = st_blank)).
Proof.
  apply (provenance_bprm_set_creds_idempotent st_blank
           {| bprm_cred := 1; bprm_file := Demo.file_5 |}
           (set_cred_provenance None Demo.cred_P)).
  reflexivity.
Defined.

(** The accumulator of the loop of [provenance_sb_kern_mount] is zero
    exactly when every byte it has seen is. *)
Lemma fold_lor_zero l : forall acc,
  (fold_left Z.lor l acc =? 0) = (acc =? 0) && forallb (Z.eqb 0) l.
Proof.
  induction l as [|x l IH]; intros acc; cbn [fold_left forallb].
  - now rewrite andb_true_r.
  - rewrite IH, andb_assoc. f_equal.
    destruct (Z.eqb_spec (Z.lor acc x) 0) as [E|E].
    + apply Z.lor_eq_0_iff in E as [-> ->]. reflexivity.
    + destruct (Z.eqb_spec acc 0) as [->|]; [|reflexivity].
      destruct (Z.eqb_spec 0 x) as [<-|]; [|reflexivity].
      now contradict E.
Qed.

(** X18.  [provenance_sb_kern_mount] answers 0 and leaves in the
    superblock's node the first 16 bytes of the superblock's uuid, unless
    all of them are zero: then it leaves 16 random bytes.  It changes
    nothing else. *)
Theorem provenance_sb_kern_mount_uuid st sb s a n random :
  sbs st !! sb = Some s ->
  s_provenance s = Some a ->
  prov_heap st !! a = Some n ->
  provenance_sb_kern_mount sb random st
  = Done 0 (with_node a
              (set_info_uuid
                 (if forallb (Z.eqb 0) (take 16 (s_uuid s))
                  then take 16 random else take 16 (s_uuid s)) n) st).
Proof.
  intros Hs Ha Hn. unfold provenance_sb_kern_mount. run1. rewrite Ha.
  erewrite bind_Done by (eapply update_node_run; eassumption).
  rewrite fold_lor_zero. cbn [Z.eqb andb].
  destruct (forallb (Z.eqb 0) (take 16 (s_uuid s))).
  - erewrite bind_Done by (eapply update_node_run; norm; apply lookup_insert_eq).
    rewrite ret_run. unfold with_node. norm. now rewrite insert_insert_eq.
  - run1. reflexivity.
Qed.

Lemma provenance_sb_kern_mount_uuid_witness :
  provenance_sb_kern_mount 0 [9; 9] Demo.st
  = Done 0 (with_node 2
              (set_info_uuid
                 (if forallb (Z.eqb 0) (take 16 [1; 2; 3])
                  then take 16 [9; 9] else take 16 [1; 2; 3])
                 (Demo.node MSG_SB 0 false)) Demo.st).
Proof.
  apply (provenance_sb_kern_mount_uuid Demo.st 0
           {| s_uuid := [1; 2; 3]; s_provenance := Some 2%nat |} 2
           (Demo.node MSG_SB 0 false) [9; 9]);
    reflexivity.
Defined.

(** ** The IFC files *)

Lemma ifc_frame_refl st : ifc_frame st st.
Proof. unfold ifc_frame. split_and!; try reflexivity; try lia. Qed.

Lemma ifc_frame_trans s1 s2 s3 :
  ifc_frame s1 s2 -> ifc_frame s2 s3 -> ifc_frame s1 s3.
Proof.
  intros (H1 & L1 & R1 & N1 & K1 & C1 & I1 & T1 & Q1)
         (H2 & L2 & R2 & N2 & K2 & C2 & I2 & T2 & Q2).
  unfold ifc_frame. split_and!; try congruence; try lia.
Qed.

Lemma frame_cred_ifc x c (m : gmap nat cred) c' :
  set_cred_ifc None <$> alter (set_cred_ifc x) c m !! c'
  = set_cred_ifc None <$> m !! c'.
Proof.
  rewrite lookup_alter. case_decide; [|reflexivity].
  subst. destruct (m !! c'); reflexivity.
Qed.

Lemma keeps_get R : (forall st, R st st) -> keeps R get.
Proof. intros HR st a st' H. injection H as _ <-. apply HR. Qed.

Lemma keeps_ifc_store_ctx p x : keeps ifc_frame (store_ctx p x).
Proof.
  apply keeps_modify. intros st. unfold ifc_frame. norm.
  split_and!; try reflexivity; try lia. intros c. apply frame_cred_ifc.
Qed.

Lemma keeps_ifc_create_tag : keeps ifc_frame ifc_create_tag.
Proof.
  intros st t st' H. unfold ifc_create_tag in H. injection H as _ <-.
  unfold ifc_frame. norm. split_and!; try reflexivity; try lia.
Qed.

Ltac iframe :=
  cbv zeta;
  repeat first
    [ apply keeps_ret; apply ifc_frame_refl
    | apply keeps_oops
    | apply keeps_get; apply ifc_frame_refl
    | apply keeps_load; apply ifc_frame_refl
    | apply keeps_ifc_store_ctx
    | apply keeps_ifc_create_tag
    | apply keeps_bind; [apply ifc_frame_trans | | intros ?]
    | match goal with
      | |- keeps _ (match ?x with _ => _ end) => destruct x
      end ].

Lemma ifc_file_call_frame MAX s1 s2 s3 s4 o :
  keeps ifc_frame (ifc_file_call MAX s1 s2 s3 s4 o).
Proof.
  destruct o; cbn [ifc_file_call].
  all: unfold status, ifc_write_self, ifc_read_self, ifc_write_tag, ifc_read_tag,
         ifc_write_process, ifc_read_process,
         ifc_add_tag, ifc_remove_tag, ifc_remove_privilege, ifc_add_privilege,
         mutate_label, current_ifc, context_from_pid, deref_ctx.
  all: iframe.
Qed.

(** X19.  No operation of the IFC files touches the provenance side or
    the host objects: the record cache, the log, the released records, the
    identifier generator, the task table, the current credential and the
    inodes are as before; the tag counter does not go back; and in a
    credential nothing but the IFC context changes. *)
Theorem ifc_files_leave_provenance_alone MAX s1 s2 s3 s4 o st rv st' :
  ifc_file_call MAX s1 s2 s3 s4 o st = Done rv st' ->
  prov_heap st' = prov_heap st
  /\ relay st' = relay st
  /\ released st' = released st
  /\ next_node_id st' = next_node_id st
  /\ tasks st' = tasks st
  /\ current_cred st' = current_cred st
  /\ inodes st' = inodes st
  /\ next_tag st <= next_tag st'
  /\ forall c,
       (cred_provenance <$> creds st' !! c) = (cred_provenance <$> creds st !! c)
       /\ (euid <$> creds st' !! c) = (euid <$> creds st !! c)
       /\ (egid <$> creds st' !! c) = (egid <$> creds st !! c).
Proof.
  intros H.
  destruct (ifc_file_call_frame MAX s1 s2 s3 s4 o st rv st' H)
    as (Hh & Hl & Hr & Hn & Hk & Hc & Hi & Ht & Hq).
  split_and!; try assumption.
  intros c. specialize (Hq c).
  destruct (creds st' !! c) as [x|], (creds st !! c) as [y|];
    try discriminate Hq; [|auto].
  injection Hq as He Hg Hx. cbn. rewrite He, Hg, Hx. auto.
Qed.

Lemma ifc_files_leave_provenance_alone_witness :
  prov_heap (final_or Demo.st
     (ifc_file_call Demo.MAX 8 16 48 56 (process_write 16 Demo.add_3) Demo.st))
  = prov_heap Demo.st
  /\ relay (final_or Demo.st
       (ifc_file_call Demo.MAX 8 16 48 56 (process_write 16 Demo.add_3) Demo.st))
     = relay Demo.st
  /\ released (final_or Demo.st
       (ifc_file_call Demo.MAX 8 16 48 56 (process_write 16 Demo.add_3) Demo.st))
     = released Demo.st
  /\ next_node_id (final_or Demo.st
       (ifc_file_call Demo.MAX 8 16 48 56 (process_write 16 Demo.add_3) Demo.st))
     = next_node_id Demo.st
  /\ tasks (final_or Demo.st
       (ifc_file_call Demo.MAX 8 16 48 56 (process_write 16 Demo.add_3) Demo.st))
     = tasks Demo.st
  /\ current_cred (final_or Demo.st
       (ifc_file_call Demo.MAX 8 16 48 56 (process_write 16 Demo.add_3) Demo.st))
     = current_cred Demo.st
  /\ inodes (final_or Demo.st
       (ifc_file_call Demo.MAX 8 16 48 56 (process_write 16 Demo.add_3) Demo.st))
     = inodes Demo.st
  /\ next_tag Demo.st
     <= next_tag (final_or Demo.st
          (ifc_file_call Demo.MAX 8 16 48 56 (process_write 16 Demo.add_3) Demo.st))
  /\ forall c,
       (cred_provenance <$> creds (final_or Demo.st
          (ifc_file_call Demo.MAX 8 16 48 56 (process_write 16 Demo.add_3) Demo.st)) !! c)
       = (cred_provenance <$> creds Demo.st !! c)
       /\ (euid <$> creds (final_or Demo.st
             (ifc_file_call Demo.MAX 8 16 48 56 (process_write 16 Demo.add_3) Demo.st)) !! c)
          = (euid <$> creds Demo.st !! c)
       /\ (egid <$> creds (final_or Demo.st
             (ifc_file_call Demo.MAX 8 16 48 56 (process_write 16 Demo.add_3) Demo.st)) !! c)
          = (egid <$> creds Demo.st !! c).
Proof.
  apply (ifc_files_leave_provenance_alone Demo.MAX 8 16 48 56
           (process_write 16 Demo.add_3) Demo.st 16).
  vm_compute. reflexivity.
Defined.

Lemma answers_ret {A} (P : A -> Prop) a : P a -> answers P (ret a).
Proof. intros HP st b st' H. injection H as <- _. exact HP. Qed.

Lemma answers_oops {A} (P : A -> Prop) : answers P oops.
Proof. intros st a st' H. discriminate H. Qed.

Lemma answers_bind {A B} (P : A -> Prop) (Q : B -> Prop) (m : M A) (k : A -> M B) :
  answers P m -> (forall a, P a -> answers Q (k a)) -> answers Q (bind m k).
Proof.
  intros Hm Hk st b st' H. apply bind_inv in H as (a & st1 & H1 & H2).
  eapply Hk; [eapply Hm|]; eassumption.
Qed.

Lemma answers_bind_any {A B} (Q : B -> Prop) (m : M A) (k : A -> M B) :
  (forall a, answers Q (k a)) -> answers Q (bind m k).
Proof.
  intros Hk. apply (answers_bind (fun _ => True)); [easy | auto].
Qed.

Lemma answers_status {A} (P : Z -> Prop) (m : M (Z * A)) :
  answers (fun r => P (fst r)) m -> answers P (status m).
Proof.
  intros H. unfold status. eapply answers_bind; [exact H|].
  intros r Hr. now apply answers_ret.
Qed.

(** X20.  The operations of the IFC files that call no tag-set
    operation answer the size of the structure they move, or the negative
    of an errno chosen in [fs.c] itself: [ifc_read_self] -ENOMEM or
    -EAGAIN, [ifc_write_tag] always -EPERM, [ifc_read_process] -ENOMEM,
    -EINVAL or -EAGAIN. *)
Theorem ifc_files_answer MAX s1 s2 s3 s4 o errs st rv st' :
  ifc_own_errors o = Some errs ->
  ifc_file_call MAX s1 s2 s3 s4 o st = Done rv st' ->
  (rv = ifc_file_size s1 s2 s3 s4 o /\ o <> tag_write) \/ In (- rv) errs.
Proof.
  intros Herr. revert st rv st'.
  change (answers (fun rv => (rv = ifc_file_size s1 s2 s3 s4 o /\ o <> tag_write)
                             \/ In (- rv) errs)
            (ifc_file_call MAX s1 s2 s3 s4 o)).
  destruct o as [count msg|count w| |count w|count msg|count pid w];
    try discriminate Herr; injection Herr as <-;
    cbn [ifc_file_call ifc_file_size].
  - apply answers_status. unfold ifc_read_self. apply answers_bind_any. intros cifc.
    destruct (count <? s3); [apply answers_ret; right; cbn; auto|].
    apply answers_bind_any. intros c.
    destruct (copy_to_user w); apply answers_ret; cbn [fst];
      [right; cbn; auto | left; split; [reflexivity|discriminate]].
  - apply answers_ret. right. cbn. auto.
  - apply answers_status. unfold ifc_read_process.
    destruct (count <? s4); [apply answers_ret; right; cbn; auto|].
    apply answers_bind_any. intros oifc.
    destruct oifc as [q|]; [|apply answers_ret; right; cbn; auto].
    apply answers_bind_any. intros c.
    destruct (copy_to_user w); apply answers_ret; cbn [fst];
      [right; cbn; auto | left; split; [reflexivity|discriminate]].
Qed.

Lemma ifc_files_answer_witness :
  (- EINVAL = ifc_file_size 8 16 48 56 (process_read 56 300 true)
   /\ process_read 56 300 true <> tag_write)
  \/ In (- - EINVAL) [ENOMEM; EINVAL; EAGAIN].
Proof.
  apply (ifc_files_answer Demo.MAX 8 16 48 56 (process_read 56 300 true)
           [ENOMEM; EINVAL; EAGAIN] Demo.st (- EINVAL) Demo.st);
    reflexivity.
Defined.

Lemma mutate_label_run f q c x k l t st :
  creds st !! q = Some c -> cred_ifc c = Some x -> label_of k x = Some l ->
  mutate_label f (Some q) k t st
  = Done (fst (f l t)) (with_ctx q (with_label k (snd (f l t)) x) st).
Proof.
  intros Hc Hx Hl. unfold mutate_label.
  rewrite (bind_Done _ _ _ _ _ (deref_ctx_Some q c x st Hc Hx)).
  rewrite Hl. destruct (f l t) as [rv l']. reflexivity.
Qed.

(** X21.  A well-formed request on the [self] file reaches the tag set
    its [tag_type] names, whichever of the six it is, and no other: an
    add inserts the tag, and every other operation code, not only the
    remove code, removes it.  The answer is the size of the request when
    the set operation succeeded and its status otherwise. *)
Theorem ifc_write_self_applies MAX sz count msg st c x l :
  sz <= count ->
  ifc_tag_valid (tag msg) = true ->
  creds st !! current_cred st = Some c ->
  cred_ifc c = Some x ->
  label_of (tag_type msg) x = Some l ->
  let r := match op msg with
           | IFC_ADD_TAG => label_add MAX l (tag msg)
           | _ => label_remove l (tag msg)
           end in
  ifc_write_self MAX sz count msg st
  = Done (if fst r =? 0 then sz else fst r)
         (with_ctx (current_cred st) (with_label (tag_type msg) (snd r) x) st).
Proof.
  intros Hsz Hv Hc Hx Hl r. unfold ifc_write_self.
  rewrite (bind_Done _ _ _ _ _ (current_ifc_Some c x st Hc Hx)).
  destruct (Z.ltb_spec count sz) as [Hlt|_]; [lia|].
  rewrite Hv. cbn [negb].
  assert (forall k, label_of k x = Some l ->
            (if is_privilege_kind k
             then ifc_add_privilege MAX (Some (current_cred st)) k (tag msg) st
             else ifc_add_tag MAX (Some (current_cred st)) k (tag msg) st)
            = Done (fst (label_add MAX l (tag msg)))
                (with_ctx (current_cred st)
                   (with_label k (snd (label_add MAX l (tag msg))) x) st)) as Hadd.
  { intros k Hk. destruct (is_privilege_kind k) eqn:Ek.
    - now apply (ifc_add_privilege_run MAX _ c x k l).
    - unfold ifc_add_tag. rewrite Ek. now apply (mutate_label_run _ _ c). }
  assert (forall k, label_of k x = Some l ->
            (if is_privilege_kind k
             then ifc_remove_privilege (Some (current_cred st)) k (tag msg) st
             else ifc_remove_tag (Some (current_cred st)) k (tag msg) st)
            = Done (fst (label_remove l (tag msg)))
                (with_ctx (current_cred st)
                   (with_label k (snd (label_remove l (tag msg))) x) st)) as Hrem.
  { intros k Hk. unfold ifc_remove_privilege, ifc_remove_tag.
    destruct (is_privilege_kind k); now apply (mutate_label_run _ _ c). }
  specialize (Hadd _ Hl). specialize (Hrem _ Hl). subst r.
  destruct (op msg), (tag_type msg); try discriminate Hl;
    cbn [is_privilege_kind] in Hadd, Hrem;
    first [rewrite (bind_Done _ _ _ _ _ Hadd) | rewrite (bind_Done _ _ _ _ _ Hrem)];
    destruct (_ =? 0); reflexivity.
Qed.

Lemma ifc_write_self_applies_witness :
  let r := match IFC_OP_OTHER with
           | IFC_ADD_TAG => label_add Demo.MAX [7] 7
           | _ => label_remove [7] 7
           end in
  ifc_write_self Demo.MAX 16 16
    {| tag := 7; tag_type := IFC_SECRECY_P; op := IFC_OP_OTHER; pid := 0 |} Demo.st
  = Done (if fst r =? 0 then 16 else fst r)
         (with_ctx (current_cred Demo.st) (with_label IFC_SECRECY_P (snd r) Demo.ctx_P)
            Demo.st).
Proof.
  apply (ifc_write_self_applies Demo.MAX 16 16
           {| tag := 7; tag_type := IFC_SECRECY_P; op := IFC_OP_OTHER; pid := 0 |}
           Demo.st Demo.cred_P Demo.ctx_P [7]);
    try reflexivity; cbn; lia.
Defined.

(** Splits a run into the cases of the tests it makes. *)
Ltac crack H :=
  repeat match type of H with
         | context [match ?x with _ => _ end] =>
             lazymatch x with
             | context [match _ with _ => _ end] => fail
             | _ => destruct x eqn:?
             end
         end.

(** X22.  The two reads of a context, [ifc_read_self] and
    [ifc_read_process], change nothing.  When they put a context in the
    caller's buffer the answer is the size of the structure, the buffer
    was large enough, and the context is the one the current task, or the
    task with the given pid, holds at that moment. *)
Theorem ifc_reads_are_snapshots s3 s4 count pid w st r1 st1 r2 st2 :
  ifc_read_self s3 count w st = Done r1 st1 ->
  ifc_read_process s4 count pid w st = Done r2 st2 ->
  (st1 = st
   /\ forall x, snd r1 = Some x ->
        fst r1 = s3 /\ s3 <= count
        /\ (cred_ifc <$> creds st !! current_cred st) = Some (Some x))
  /\ (st2 = st
      /\ forall x, snd r2 = Some x ->
           fst r2 = s4 /\ s4 <= count
           /\ exists q, tasks st !! pid = Some q
                        /\ (cred_ifc <$> creds st !! q) = Some (Some x)).
Proof.
  intros H1 H2. split.
  - clear H2. rename H1 into H.
    unfold ifc_read_self, current_ifc, deref_ctx, load, get, bind, ret, oops,
      copy_to_user in H.
    crack H; try discriminate H; injection H as <- <-; (split; [reflexivity|]);
      cbn [fst snd]; intros x0 Hx; try discriminate Hx; injection Hx as <-.
    all: split_and!; [reflexivity | lia |].
    all: repeat match goal with
                | E : creds _ !! _ = Some _ |- _ => rewrite E; clear E
                end; cbn; congruence.
  - clear H1. rename H2 into H.
    unfold ifc_read_process, context_from_pid, deref_ctx, load, get, bind, ret, oops,
      copy_to_user in H.
    crack H; try discriminate H; injection H as <- <-; (split; [reflexivity|]);
      cbn [fst snd]; intros x0 Hx; try discriminate Hx; injection Hx as <-.
    all: split_and!; [reflexivity | lia |].
    all: eexists; split; [reflexivity|].
    all: repeat match goal with
                | E : Some _ = Some _ |- _ => injection E as <-
                end.
    all: repeat match goal with
                | E : creds _ !! _ = Some _ |- _ => rewrite E; clear E
                end; cbn; congruence.
Qed.

Lemma ifc_reads_are_snapshots_witness :
  (Demo.st = Demo.st
   /\ forall x, snd (48, Some Demo.ctx_P) = Some x ->
        fst (48, Some Demo.ctx_P) = 48 /\ 48 <= 56
        /\ (cred_ifc <$> creds Demo.st !! current_cred Demo.st) = Some (Some x))
  /\ (Demo.st = Demo.st
      /\ forall x, snd (56, Some Demo.ctx_Q) = Some x ->
           fst (56, Some Demo.ctx_Q) = 56 /\ 56 <= 56
           /\ exists q, tasks Demo.st !! 200 = Some q
                        /\ (cred_ifc <$> creds Demo.st !! q) = Some (Some x)).
Proof.
  apply (ifc_reads_are_snapshots 48 56 56 200 true Demo.st
           (48, Some Demo.ctx_P) Demo.st (56, Some Demo.ctx_Q) Demo.st);
    reflexivity.
Defined.

(** ** The permission hooks on files and sockets *)

(** X23.  [provenance_file_permission] captures the name of the file
    before it looks at the inode: on an inode that has a node, with memory
    for the path buffer and the long record when the name has still to be
    captured (the node is tracked and not yet named), it answers 0 and
    hands the sink the name records followed by the edges the mask asks
    for, and the name is captured even of a private inode, whose accesses
    are not recorded. *)
Theorem provenance_file_permission_edges st f mask cc cp cn i ip n_i :
  creds st !! current_cred st = Some cc ->
  cred_provenance cc = Some cp ->
  prov_heap st !! cp = Some cn ->
  inodes st !! f_inode f = Some i ->
  i_provenance i = Some ip ->
  prov_heap st !! ip = Some n_i ->
  cp <> ip ->
  can_capture st n_i = true ->
  provenance_file_permission f mask st
  = Done 0 (emit_all
              (name_records MSG_FILE_NAME (take (PATH_MAX - 1) (f_path f)) n_i
               ++ (if i_private i then [] else permission_edges mask cn n_i))
              (with_node ip (named n_i) st)).
Proof.
  intros Hc Hcp Hcn Hi Hip Hn Hne Hs.
  unfold provenance_file_permission.
  rewrite (bind_Done _ _ _ _ _
             (provenance_record_file_name_named st f i ip n_i Hi Hip Hn Hs)).
  set (st1 := emit_all _ _).
  assert (creds st1 !! current_cred st1 = Some cc) as Hc1.
  { subst st1. now rewrite emit_all_creds, (emit_all_keeps current_cred _ (fun _ _ => eq_refl)). }
  assert (inodes st1 !! f_inode f = Some i) as Hi1.
  { subst st1. now rewrite emit_all_inodes. }
  rewrite emit_all_app. fold st1.
  destruct (i_private i) eqn:Hpriv.
  - rewrite (bind_Done _ _ _ _ _
               (provenance_inode_permission_private_run st1 _ mask cc i Hc1 Hi1 Hpriv)).
    reflexivity.
  - rewrite (bind_Done _ _ _ _ _
               (provenance_inode_permission_run st1 _ mask cc cp cn i ip (named n_i)
                  Hc1 Hcp ltac:(subst st1; heap_now) Hi1 Hpriv Hip
                  ltac:(subst st1; heap_now))).
    rewrite ret_run. unfold permission_edges. now rewrite node_id_named.
Qed.

Lemma provenance_file_permission_edges_witness :
  provenance_file_permission Demo.file_5 MAY_READ Demo.st
  = Done 0 (emit_all
              (name_records MSG_FILE_NAME (take (PATH_MAX - 1) [47; 97])
                 (Demo.node MSG_INODE 42 true)
               ++ (if false then []
                   else permission_edges MAY_READ (Demo.node MSG_TASK 1 false)
                          (Demo.node MSG_INODE 42 true)))
              (with_node 3 (named (Demo.node MSG_INODE 42 true)) Demo.st)).
Proof.
  apply (provenance_file_permission_edges Demo.st Demo.file_5 MAY_READ Demo.cred_P 0
           (Demo.node MSG_TASK 1 false) Demo.inode_5 3 (Demo.node MSG_INODE 42 true));
    try reflexivity; cbn; lia.
Defined.

(** X25.  Data sent and received on a socket is recorded against the
    socket's inode, not against its sock: [provenance_socket_sendmsg]
    hands the sink one WRITE edge from the subject to the inode,
    [provenance_socket_recvmsg] one READ edge from the inode to the
    subject, and both answer 0. *)
Theorem socket_sendmsg_recvmsg_edges st sock cc cp cn i ip n_i :
  creds st !! current_cred st = Some cc ->
  cred_provenance cc = Some cp ->
  prov_heap st !! cp = Some cn ->
  inodes st !! sock_inode sock = Some i ->
  i_private i = false ->
  i_provenance i = Some ip ->
  prov_heap st !! ip = Some n_i ->
  provenance_socket_sendmsg sock st
  = Done 0 (emit_all [EdgeRecord ED_WRITE (node_id cn) (node_id n_i) FLOW_ALLOWED] st)
  /\ provenance_socket_recvmsg sock st
     = Done 0 (emit_all [EdgeRecord ED_READ (node_id n_i) (node_id cn) FLOW_ALLOWED] st).
Proof.
  intros Hc Hcp Hcn Hi Hpriv Hip Hn.
  unfold provenance_socket_sendmsg, provenance_socket_recvmsg.
  rewrite !(provenance_inode_permission_run st _ _ cc cp cn i ip n_i Hc Hcp Hcn Hi Hpriv Hip Hn).
  split; reflexivity.
Qed.

Lemma socket_sendmsg_recvmsg_edges_witness :
  provenance_socket_sendmsg Demo.socket_1 Demo.st
  = Done 0 (emit_all [EdgeRecord ED_WRITE 1 42 FLOW_ALLOWED] Demo.st)
  /\ provenance_socket_recvmsg Demo.socket_1 Demo.st
     = Done 0 (emit_all [EdgeRecord ED_READ 42 1 FLOW_ALLOWED] Demo.st).
Proof.
  apply (socket_sendmsg_recvmsg_edges Demo.st Demo.socket_1 Demo.cred_P 0
           (Demo.node MSG_TASK 1 false) Demo.inode_5 3 (Demo.node MSG_INODE 42 true));
    reflexivity.
Defined.

Lemma current_ifc_run c st :
  creds st !! current_cred st = Some c ->
  current_ifc st
  = Done (match cred_ifc c with
          | Some _ => Some (current_cred st)
          | None => None
          end) st.
Proof.
  intros Hc. unfold current_ifc, get, bind. cbv beta iota.
  now rewrite (load_Some creds _ c st Hc).
Qed.

(** X26.  A buffer shorter than the structure is refused before anything
    else is looked at: every sized operation of the IFC files answers
    -ENOMEM and changes nothing.  A write is refused so even when its tag
    is invalid or its target unknown, and a read of the [tag] file draws
    no tag. *)
Theorem ifc_files_short_buffer MAX s1 s2 s3 s4 count msg pid w st c :
  creds st !! current_cred st = Some c ->
  count < s1 -> count < s2 -> count < s3 -> count < s4 ->
  ifc_write_self MAX s2 count msg st = Done (- ENOMEM) st
  /\ ifc_write_process MAX s2 count msg st = Done (- ENOMEM) st
  /\ ifc_read_self s3 count w st = Done (- ENOMEM, None) st
  /\ ifc_read_tag MAX s1 count w st = Done (- ENOMEM, None) st
  /\ ifc_read_process s4 count pid w st = Done (- ENOMEM, None) st.
Proof.
  intros Hc H1 H2 H3 H4.
  apply Z.ltb_lt in H1, H2, H3, H4.
  unfold ifc_write_self, ifc_write_process, ifc_read_self, ifc_read_tag,
    ifc_read_process.
  rewrite !(bind_Done _ _ _ _ _ (current_ifc_run c st Hc)), H1, H2, H3, H4.
  split_and!; reflexivity.
Qed.

Lemma ifc_files_short_buffer_witness :
  ifc_write_self Demo.MAX 16 7 Demo.add_3_nobody Demo.st = Done (- ENOMEM) Demo.st
  /\ ifc_write_process Demo.MAX 16 7 Demo.add_3_nobody Demo.st = Done (- ENOMEM) Demo.st
  /\ ifc_read_self 48 7 true Demo.st = Done (- ENOMEM, None) Demo.st
  /\ ifc_read_tag Demo.MAX 8 7 true Demo.st = Done (- ENOMEM, None) Demo.st
  /\ ifc_read_process 56 7 300 true Demo.st = Done (- ENOMEM, None) Demo.st.
Proof.
  apply (ifc_files_short_buffer Demo.MAX 8 16 48 56 7 Demo.add_3_nobody 300 true
           Demo.st Demo.cred_P);
    try reflexivity; lia.
Defined.

(** ** Nodes of socks and superblocks *)

(** X27.  [provenance_sk_alloc_security] gives the new node of a sock a
    fresh identifier; [provenance_sb_alloc_security] attaches the node of
    a superblock as the allocator hands it out, without assigning an
    identifier, and leaves the identifier generator alone.  Without
    memory both answer -ENOMEM and change nothing. *)
Theorem sk_sb_alloc_security_nodes st sk so sb su :
  socks st !! sk = Some so ->
  sbs st !! sb = Some su ->
  match slab_avail st with
  | O =>
      provenance_sk_alloc_security sk st = Done (- ENOMEM) st
      /\ provenance_sb_alloc_security sb st = Done (- ENOMEM) st
  | S n =>
      exists st1 st2,
        provenance_sk_alloc_security sk st = Done 0 st1
        /\ provenance_sb_alloc_security sb st = Done 0 st2
        /\ (sk_provenance <$> socks st1 !! sk) = Some (Some (next_addr st))
        /\ (s_provenance <$> sbs st2 !! sb) = Some (Some (next_addr st))
        /\ prov_heap st1 !! next_addr st
           = Some (set_node_id_field (next_node_id st) (zeroed MSG_SOCK))
        /\ prov_heap st2 !! next_addr st = Some (zeroed MSG_SB)
        /\ next_node_id st1 = next_node_id st + 1
        /\ next_node_id st2 = next_node_id st
  end.
Proof.
  intros Hk Hb. unfold provenance_sk_alloc_security, provenance_sb_alloc_security.
  destruct (slab_avail st) as [|n] eqn:Hs.
  - rewrite !(bind_Done _ _ _ _ _ (alloc_provenance_fail _ st Hs)). split; reflexivity.
  - eexists _, _. split; [do 4 run1; reflexivity|].
    split; [do 3 run1; reflexivity|].
    norm. rewrite !lookup_alter_eq, Hk, Hb, !lookup_insert_eq.
    split_and!; reflexivity.
Qed.

Lemma sk_sb_alloc_security_nodes_witness :
  exists st1 st2,
    provenance_sk_alloc_security 0 Demo.st = Done 0 st1
    /\ provenance_sb_alloc_security 0 Demo.st = Done 0 st2
    /\ (sk_provenance <$> socks st1 !! 0%nat) = Some (Some (next_addr Demo.st))
    /\ (s_provenance <$> sbs st2 !! 0%nat) = Some (Some (next_addr Demo.st))
    /\ prov_heap st1 !! next_addr Demo.st
       = Some (set_node_id_field (next_node_id Demo.st) (zeroed MSG_SOCK))
    /\ prov_heap st2 !! next_addr Demo.st = Some (zeroed MSG_SB)
    /\ next_node_id st1 = next_node_id Demo.st + 1
    /\ next_node_id st2 = next_node_id Demo.st.
Proof.
  apply (sk_sb_alloc_security_nodes Demo.st 0 {| sk_provenance := None |}
           0 {| s_uuid := [1; 2; 3]; s_provenance := Some 2%nat |});
    reflexivity.
Defined.
(** ** Hooks return *)










(** The cases of a name capture that can go through. *)
Ltac capture :=
  repeat match goal with
         | H : can_capture ?st ?n = true |- _ =>
             unfold can_capture, slab_empty in H;
             destruct (name_recorded n) eqn:?, (tracked n) eqn:?,
               (slab_avail st) eqn:?;
             cbn [Nat.eqb negb andb orb] in H; try discriminate H; clear H
         end.







































(** The hooks of the demonstration machine at work: every one is ready
    and answers 0, but for the attachment to segment 0 and the bind of
    socket 0, which have no node. *)
Example hooks_answer_runs :
  forallb (fun h => hook_ready h Demo.st)
    [cred_alloc_blank 2; cred_prepare 2 1; task_fix_setuid 2 1;
     inode_alloc_security 6; inode_permission 6 MAY_READ;
     file_permission Demo.file_5 MAY_WRITE; mmap_file (Some Demo.file_5) PROT_READ;
     mmap_file None PROT_READ; file_ioctl Demo.file_6; inode_link;
     msg_msg_alloc_security 0; msg_queue_msgsnd 1; msg_queue_msgrcv 1 2;
     shm_alloc_security 0; shm_shmat 1 0; shm_shmat 0 0; sk_alloc_security 0;
     socket_post_create Demo.socket_0 2 1 0 false;
     socket_bind Demo.socket_1 [2; 0; 0; 80] 4;
     socket_bind Demo.socket_0 [2; 0; 0; 80] 4;
     socket_connect Demo.socket_1 [2; 0; 0; 80] 4; socket_listen Demo.socket_1;
     socket_sendmsg Demo.socket_1; socket_recvmsg Demo.socket_1;
     socket_accept Demo.socket_1 Demo.socket_1; unix_stream_connect 1 1 1;
     unix_may_send Demo.socket_1 Demo.socket_1;
     bprm_set_creds {| bprm_cred := 2; bprm_file := Demo.file_5 |};
     sb_alloc_security 0; sb_kern_mount 0 [9]; file_open Demo.file_6] = true
  /\ retval (security_call (file_ioctl Demo.file_6) Demo.st) = Some 0
  /\ retval (security_call (shm_shmat 0 0) Demo.st) = Some (- ENOMEM)
  /\ retval (security_call (socket_bind Demo.socket_0 [2; 0; 0; 80] 4) Demo.st)
     = Some (- ENOMEM)
  /\ retval (security_call (cred_prepare 2 1) (set_slab_avail 0 Demo.st))
     = Some (- ENOMEM).
Proof. repeat split; vm_compute; reflexivity. Qed.

(** Outside these states the hooks use what an allocation returned
    without a test.  Inode 5 has a tracked node whose name was never
    captured: once the slab is exhausted, [file_open] is not ready, and
    the path buffer and the long record of [provenance_record_file_name]
    are used although they were not obtained; likewise the address record
    of [provenance_record_address] for the tracked sock 1, and the sock
    node that [provenance_socket_post_create] has just failed to
    allocate. *)
Example hooks_unchecked_allocations :
  let st0 := set_slab_avail 0 Demo.st in
  hook_ready (file_open Demo.file_5) st0 = false
  /\ retval (security_call (file_open Demo.file_5) st0) = None
  /\ hook_ready (socket_bind Demo.socket_1 [2; 0; 0; 80] 4) st0 = false
  /\ retval (security_call (socket_bind Demo.socket_1 [2; 0; 0; 80] 4) st0) = None
  /\ hook_ready (socket_post_create Demo.socket_0 2 1 0 false) st0 = false
  /\ retval (security_call (socket_post_create Demo.socket_0 2 1 0 false) st0) = None.
Proof. repeat split; vm_compute; reflexivity. Qed.
